(** * servprobe: a shallow embedding of the probe scheduler, the checkers,
      the configuration loader and the alert dispatcher

    The Go packages of the repository are embedded one module each:
    [Config] (internal/config), [Checker] (internal/checker), [Storage]
    (internal/storage), [Scheduler] (internal/scheduler), [Alert]
    (internal/alert) and [Cmd] (cmd/servprobe).  What the Go standard
    library contributes is modelled in the modules [F64] (float64
    arithmetic), [GoTime] (durations and time.ParseDuration), [RttRegex]
    (the regular expression of the ping checker) and [Strconv]
    (strconv.ParseFloat), or taken as a parameter through the class
    [GoFmt] (the verbs of package fmt).  The second part states and proves
    the properties, package by package, with the cases of the test suites
    of the repository as examples. *)

From Stdlib Require Import ZArith Lia Ascii String DecimalString.
From stdpp Require Import base tactics option list strings gmap.

Open Scope Z_scope.

(** ** Go values shared by all packages *)

(** A Go [error] is identified with the string its [Error()] method returns;
    the nil error is [None]. *)
Definition error := string.

(** [(T, error)] results of functions that return either a value or an
    error. *)
Inductive res (A : Type) : Type :=
| Ok (a : A)
| Err (e : error).
Arguments Ok {A} a.
Arguments Err {A} e.

Definition res_bind {A B : Type} (r : res A) (k : A -> res B) : res B :=
  match r with
  | Ok a => k a
  | Err e => Err e
  end.

Notation "'try' x <- r 'in' k" := (res_bind r (fun x => k))
  (at level 10, x name, r at level 100, k at level 200).

(** The verbs of package fmt the repository uses whose output depends on
    tables of the Go runtime: [%q] (strconv.Quote) and [%d]. *)
Class GoFmt := {
  fmt_q : string -> string;
  fmt_d : Z -> string
}.

Definition is_digit (c : ascii) : bool :=
  let n := Z.of_N (Ascii.N_of_ascii c) in (48 <=? n) && (n <=? 57).

Definition digit_val (c : ascii) : Z := Z.of_N (Ascii.N_of_ascii c) - 48.

(** ** float64, restricted to the non-negative values the code computes

    A finite value is the exact dyadic number [m * 2^e]; every operation
    rounds the exact rational result to the nearest binary64 value, ties to
    even, as IEEE 754 prescribes. *)
Module F64.

Inductive t : Type :=
| Fin (m e : Z)
| Inf.

(** The binary64 value nearest to [n / d], for [0 <= n] and [0 < d]. *)
Definition round_q (n d : Z) : t :=
  if n <=? 0 then Fin 0 0 else
  let k := Z.log2 n - Z.log2 d in
  let e1 := Z.max (k - 52) (-1074) in
  let q1 := if e1 <? 0 then (n * 2 ^ (- e1)) / d else n / (d * 2 ^ e1) in
  let e := if q1 <? 2 ^ 52 then Z.max (e1 - 1) (-1074) else e1 in
  let num := if e <? 0 then n * 2 ^ (- e) else n in
  let den := if e <? 0 then d else d * 2 ^ e in
  let q := num / den in
  let r := num mod den in
  let q' := if 2 * r <? den then q
            else if den <? 2 * r then q + 1
            else if Z.even q then q else q + 1 in
  if (971 <? e) || ((e =? 971) && (q' =? 2 ^ 53)) then Inf else Fin q' e.

(** Conversion of a non-negative integer, [float64(n)]. *)
Definition of_Z (n : Z) : t := round_q n 1.

Definition mul (x y : t) : t :=
  match x, y with
  | Fin m1 e1, Fin m2 e2 =>
      let e := e1 + e2 in
      if e <? 0 then round_q (m1 * m2) (2 ^ (- e))
      else round_q (m1 * m2 * 2 ^ e) 1
  | _, _ => Inf
  end.

Definition div (x y : t) : t :=
  match x, y with
  | Fin m1 e1, Fin m2 e2 =>
      let e := e1 - e2 in
      if e <? 0 then round_q m1 (m2 * 2 ^ (- e))
      else round_q (m1 * 2 ^ e) m2
  | _, _ => Inf
  end.

(** The integer part of a finite value. *)
Definition trunc (x : t) : option Z :=
  match x with
  | Fin m e => Some (if e <? 0 then m / 2 ^ (- e) else m * 2 ^ e)
  | Inf => None
  end.

(** Conversion to int64 or to uint64 of the values that fit.  Go leaves
    the result of an out-of-range conversion to the implementation; amd64
    yields the bit pattern [0x8000000000000000]. *)
Definition to_int64 (x : t) : Z :=
  match trunc x with
  | Some z => if z <? 2 ^ 63 then z else - 2 ^ 63
  | None => - 2 ^ 63
  end.

Definition to_uint64 (x : t) : Z :=
  match trunc x with
  | Some z => if z <? 2 ^ 63 then z else 2 ^ 63
  | None => 2 ^ 63
  end.

End F64.

(** ** Package time of the standard library *)
Module GoTime.

(** [time.Duration]: an int64 count of nanoseconds. *)
Definition Duration := Z.

Definition Nanosecond : Duration := 1.
Definition Microsecond : Duration := 1000 * Nanosecond.
Definition Millisecond : Duration := 1000 * Microsecond.
Definition Second : Duration := 1000 * Millisecond.
Definition Minute : Duration := 60 * Second.
Definition Hour : Duration := 60 * Minute.

Definition minDuration : Duration := - 2 ^ 63.
Definition maxDuration : Duration := 2 ^ 63 - 1.

(** [time.Time], as nanoseconds on the monotonic clock. *)
Definition Time := Z.

(** [t.Sub(u)], which saturates at the ends of the Duration range. *)
Definition Sub (t u : Time) : Duration :=
  Z.max minDuration (Z.min maxDuration (t - u)).

Definition unitMap (u : string) : option Z :=
  if decide (u = "ns") then Some Nanosecond
  else if decide (u = "us") then Some Microsecond
  else if decide (u = "µs") then Some Microsecond
  else if decide (u = "μs") then Some Microsecond
  else if decide (u = "ms") then Some Millisecond
  else if decide (u = "s") then Some Second
  else if decide (u = "m") then Some Minute
  else if decide (u = "h") then Some Hour
  else None.

(** [leadingInt]: the leading digits of [s] as a uint64, failing on
    overflow beyond [1<<63]. *)
Fixpoint leadingInt (x : Z) (s : string) : option (Z * string) :=
  match s with
  | String c rest =>
      if is_digit c then
        if 2 ^ 63 / 10 <? x then None
        else
          let x' := x * 10 + digit_val c in
          if 2 ^ 63 <? x' then None else leadingInt x' rest
      else Some (x, s)
  | EmptyString => Some (x, s)
  end.

(** [leadingFraction]: the digits after the period and the power of ten
    that scales them; digits beyond the uint64 range are skipped. *)
Fixpoint leadingFraction (x : Z) (scale : F64.t) (overflow : bool) (s : string)
  : Z * F64.t * string :=
  match s with
  | String c rest =>
      if is_digit c then
        if overflow then leadingFraction x scale true rest
        else if (2 ^ 63 - 1) / 10 <? x then leadingFraction x scale true rest
        else
          let y := x * 10 + digit_val c in
          if 2 ^ 63 <? y then leadingFraction x scale true rest
          else leadingFraction y (F64.mul scale (F64.of_Z 10)) false rest
      else (x, scale, s)
  | EmptyString => (x, scale, s)
  end.

Definition is_dot_or_digit (c : ascii) : bool :=
  bool_decide (c = "."%char) || is_digit c.

(** The unit name: the longest prefix without a period or a digit. *)
Fixpoint spanUnit (s : string) : string * string :=
  match s with
  | String c rest =>
      if is_dot_or_digit c then (EmptyString, s)
      else let '(u, r) := spanUnit rest in (String c u, r)
  | EmptyString => (EmptyString, EmptyString)
  end.

(** The loop [for s != ""] of ParseDuration; every round consumes a unit
    name of at least one byte, so [length s] rounds always suffice. *)
Fixpoint parseTerms (fuel : nat) (d : Z) (s : string) : option Z :=
  match s with
  | EmptyString => Some d
  | String c0 _ =>
      match fuel with
      | O => None
      | S fuel' =>
          if negb (is_dot_or_digit c0) then None
          else
            match leadingInt 0 s with
            | None => None
            | Some (v, s1) =>
                let pre := negb (String.length s =? String.length s1)%nat in
                let '(f, scale, s2, post) :=
                  match s1 with
                  | String "." s1' =>
                      let '(f, scale, s2) := leadingFraction 0 (F64.of_Z 1) false s1' in
                      (f, scale, s2, negb (String.length s1' =? String.length s2)%nat)
                  | _ => (0, F64.of_Z 1, s1, false)
                  end in
                if negb pre && negb post then None
                else
                  let '(u, s3) := spanUnit s2 in
                  if decide (u = EmptyString) then None
                  else
                    match unitMap u with
                    | None => None
                    | Some unit =>
                        if 2 ^ 63 / unit <? v then None
                        else
                          let v1 := v * unit in
                          let v2 :=
                            if 0 <? f then
                              v1 + F64.to_uint64
                                     (F64.mul (F64.of_Z f) (F64.div (F64.of_Z unit) scale))
                            else v1 in
                          if (0 <? f) && (2 ^ 63 <? v2) then None
                          else
                            let d' := (d + v2) mod 2 ^ 64 in
                            if 2 ^ 63 <? d' then None else parseTerms fuel' d' s3
                    end
            end
      end
  end.

(** [time.ParseDuration]; [None] stands for its error results. *)
Definition ParseDuration (s : string) : option Duration :=
  let '(neg, s1) :=
    match s with
    | String "-" r => (true, r)
    | String "+" r => (false, r)
    | _ => (false, s)
    end in
  if decide (s1 = "0") then Some 0
  else if decide (s1 = "") then None
  else
    match parseTerms (String.length s1) 0 s1 with
    | None => None
    | Some d =>
        if neg then Some (- d)
        else if 2 ^ 63 - 1 <? d then None else Some d
    end.

End GoTime.

(** ** internal/config/config.go *)
Module Config.

(** [config.Duration] wraps a [time.Duration]. *)
Definition Duration := GoTime.Duration.

Record Service : Type := {
  Name : string;
  Type_ : string;
  Target : string;
  Interval : Duration;
  Timeout : Duration;
  ExpectedStatus : Z;
  Headers : gmap string string
}.

Record WebhookConfig : Type := {
  URL : string;
  Cooldown : Duration
}.

Record AlertsConfig : Type := { Webhook : WebhookConfig }.
Record ServerConfig : Type := { Address : string }.
Record StorageConfig : Type := { Path : string }.

Record Config : Type := {
  Services : list Service;
  Alerts : AlertsConfig;
  Server : ServerConfig;
  Storage : StorageConfig
}.

Definition validTypes : gmap string bool :=
  <["http" := true]> (<["tcp" := true]> (<["ping" := true]> (<["docker" := true]> ∅))).

(** Reading a Go [map[string]bool]: a missing key reads as [false]. *)
Definition map_bool (m : gmap string bool) (k : string) : bool :=
  default false (m !! k).

(** The intermediate [rawService] and [rawConfig] of [Load], whose
    durations are still strings. *)
Record rawService : Type := {
  rawName : string;
  rawType : string;
  rawTarget : string;
  rawInterval : string;
  rawTimeout : string;
  rawExpectedStatus : Z;
  rawHeaders : gmap string string
}.

Record rawConfig : Type := {
  rawServices : list rawService;
  rawAlerts : AlertsConfig;
  rawServer : ServerConfig;
  rawStorage : StorageConfig
}.

Section Load.
Context `{GoFmt}.
(** The file system and the YAML decoder. *)
Variable ReadFile : string -> res string.
Variable yamlUnmarshal : string -> res rawConfig.

(** [time.ParseDuration] as [Load] calls it; the three messages of its
    errors are not told apart. *)
Definition parseDuration (s : string) : res Duration :=
  match GoTime.ParseDuration s with
  | Some d => Ok d
  | None => Err ("time: invalid duration " +:+ fmt_q s)
  end.

(** One round of the loop [for i, rs := range raw.Services]: the checks on
    [rs] and the service appended to [cfg.Services]. *)
Definition loadService (i : nat) (names : gmap string bool) (rs : rawService)
  : res Service :=
  if decide (rawName rs = "") then
    Err ("service[" +:+ fmt_d (Z.of_nat i) +:+ "]: name is required")
  else if map_bool names (rawName rs) then
    Err ("duplicate service name " +:+ fmt_q (rawName rs))
  else if decide (rawTarget rs = "") then
    Err ("service " +:+ fmt_q (rawName rs) +:+ ": target is required")
  else if negb (map_bool validTypes (rawType rs)) then
    Err ("service " +:+ fmt_q (rawName rs) +:+ ": invalid type " +:+ fmt_q (rawType rs)
         +:+ " (must be http, tcp, ping, or docker)")
  else
    try interval <-
      (if decide (rawInterval rs = "") then Ok (30 * GoTime.Second)
       else match parseDuration (rawInterval rs) with
            | Ok d => Ok d
            | Err e =>
                Err ("service " +:+ fmt_q (rawName rs) +:+ ": invalid interval "
                     +:+ fmt_q (rawInterval rs) +:+ ": " +:+ e)
            end) in
    try timeout <-
      (if decide (rawTimeout rs = "") then Ok (5 * GoTime.Second)
       else match parseDuration (rawTimeout rs) with
            | Ok d => Ok d
            | Err e =>
                Err ("service " +:+ fmt_q (rawName rs) +:+ ": invalid timeout "
                     +:+ fmt_q (rawTimeout rs) +:+ ": " +:+ e)
            end) in
    Ok {| Name := rawName rs;
          Type_ := rawType rs;
          Target := rawTarget rs;
          Interval := interval;
          Timeout := timeout;
          ExpectedStatus :=
            if bool_decide (rawType rs = "http") && (rawExpectedStatus rs =? 0)
            then 200 else rawExpectedStatus rs;
          Headers := rawHeaders rs |}.

(** The loop itself, with its state: the index, the [names] seen so far
    and the services appended so far. *)
Fixpoint loadServices (i : nat) (names : gmap string bool) (acc : list Service)
  (rss : list rawService) : res (list Service) :=
  match rss with
  | [] => Ok acc
  | rs :: rest =>
      try svc <- loadService i names rs in
      loadServices (S i) (<[rawName rs := true]> names) (acc ++ [svc]) rest
  end.

Definition Load (path : string) : res Config :=
  match ReadFile path with
  | Err e => Err ("reading config: " +:+ e)
  | Ok data =>
      match yamlUnmarshal data with
      | Err e => Err ("parsing config: " +:+ e)
      | Ok raw =>
          let server :=
            if decide (Address (rawServer raw) = "") then {| Address := ":8080" |}
            else rawServer raw in
          let storage :=
            if decide (Path (rawStorage raw) = "") then {| Path := "servprobe.db" |}
            else rawStorage raw in
          if (length (rawServices raw) =? 0)%nat then
            Err "at least one service must be configured"
          else
            try svcs <- loadServices 0 ∅ [] (rawServices raw) in
            Ok {| Services := svcs;
                  Alerts := rawAlerts raw;
                  Server := server;
                  Storage := storage |}
      end
  end.

End Load.

End Config.

(** ** The regular expression of the ping checker

    [rttRegex] is compiled from the pattern [time=], then a group of one or
    more digits, an optional period and any number of digits, then any
    amount of white space, then [ms].  The matcher below takes, at each
    position, the choices the regexp engine prefers (every repetition as
    long as possible), and [FindSubmatch] returns the first group of the
    leftmost match. *)
Module RttRegex.

(** [\s] of RE2: tab, line feed, form feed, carriage return and space. *)
Definition is_space (c : ascii) : bool :=
  let n := Ascii.N_of_ascii c in
  bool_decide (n = 9%N) || bool_decide (n = 10%N) || bool_decide (n = 12%N)
  || bool_decide (n = 13%N) || bool_decide (n = 32%N).

(** The longest prefix of [s] whose bytes satisfy [p], and the rest. *)
Fixpoint span (p : ascii -> bool) (s : string) : string * string :=
  match s with
  | String c rest =>
      if p c then let '(a, b) := span p rest in (String c a, b)
      else (EmptyString, s)
  | EmptyString => (EmptyString, EmptyString)
  end.

Fixpoint strip_prefix (p s : string) : option string :=
  match p, s with
  | EmptyString, _ => Some s
  | String a p', String b s' => if decide (a = b) then strip_prefix p' s' else None
  | String _ _, EmptyString => None
  end.

(** The optional period. *)
Definition take_dot (s : string) : string * string :=
  match s with
  | String c r => if decide (c = "."%char) then ("."%string, r) else (EmptyString, s)
  | EmptyString => (EmptyString, EmptyString)
  end.

(** A match that starts at the first byte of [s]; the result is group 1. *)
Definition match_here (s : string) : option string :=
  match strip_prefix "time=" s with
  | None => None
  | Some s1 =>
      let '(d1, s2) := span is_digit s1 in
      if decide (d1 = EmptyString) then None
      else
        let '(dot, s3) := take_dot s2 in
        let '(d2, s4) := span is_digit s3 in
        let '(_, s5) := span is_space s4 in
        match strip_prefix "ms" s5 with
        | Some _ => Some (d1 +:+ dot +:+ d2)
        | None => None
        end
  end.

Fixpoint FindSubmatch (s : string) : option string :=
  match match_here s with
  | Some g => Some g
  | None =>
      match s with
      | String _ rest => FindSubmatch rest
      | EmptyString => None
      end
  end.

(** The language of the pattern, read off the expression: [s] contains
    [time=], digits, an optional period, digits, white space and [ms];
    [g] is what the parentheses enclose. *)
Fixpoint all_bytes (p : ascii -> bool) (s : string) : Prop :=
  match s with
  | String c rest => p c = true /\ all_bytes p rest
  | EmptyString => True
  end.

Definition Matches (s g : string) : Prop :=
  exists pre d1 dot d2 ws post,
    s = pre +:+ "time=" +:+ d1 +:+ dot +:+ d2 +:+ ws +:+ "ms" +:+ post
    /\ d1 <> EmptyString /\ all_bytes is_digit d1
    /\ (dot = "." \/ dot = EmptyString)
    /\ all_bytes is_digit d2 /\ all_bytes is_space ws
    /\ g = d1 +:+ dot +:+ d2.

End RttRegex.

(** ** strconv.ParseFloat on the texts group 1 of [rttRegex] can hold *)
Module Strconv.

Fixpoint digits (acc : Z) (s : string) : Z :=
  match s with
  | String c rest => digits (acc * 10 + digit_val c) rest
  | EmptyString => acc
  end.

(** The text [d1], [d1.] or [d1.d2] as the fraction [n / 10^k]; any other
    text is a syntax error of ParseFloat. *)
Definition decimal (s : string) : option (Z * Z) :=
  let '(d1, r) := RttRegex.span is_digit s in
  if decide (d1 = EmptyString) then None
  else
    match r with
    | EmptyString => Some (digits 0 d1, 0)
    | String "." r' =>
        let '(d2, r'') := RttRegex.span is_digit r' in
        if decide (r'' = EmptyString)
        then Some (digits (digits 0 d1) d2, Z.of_nat (String.length d2))
        else None
    | _ => None
    end.

(** [strconv.ParseFloat(s, 64)]: the nearest float64, and whether an error
    is returned with it (a syntax error comes with the value 0, a range
    error with infinity). *)
Definition ParseFloat (s : string) : F64.t * bool :=
  match decimal s with
  | Some (n, k) =>
      let f := F64.round_q n (10 ^ k) in
      (f, match f with F64.Inf => true | _ => false end)
  | None => (F64.Fin 0 0, true)
  end.

Fixpoint all_digits (s : string) : bool :=
  match s with
  | String c rest => is_digit c && all_digits rest
  | EmptyString => true
  end.

(** [strconv.Atoi] for a 64-bit [int]: an optional sign and one or more
    decimal digits, in the range of int64; [None] stands for its syntax
    and range errors. *)
Definition Atoi (s : string) : option Z :=
  let '(neg, body) :=
    match s with
    | String "-" r => (true, r)
    | String "+" r => (false, r)
    | _ => (false, s)
    end in
  if decide (body = EmptyString) then None
  else if negb (all_digits body) then None
  else
    let n := digits 0 body in
    if neg then (if 2 ^ 63 <? n then None else Some (- n))
    else if 2 ^ 63 - 1 <? n then None else Some n.

End Strconv.

(** ** internal/checker *)
Module Checker.
Import Config.

(** [type Status string] with its two constants (result.go). *)
Definition Status := string.
Definition StatusUp : Status := "up".
Definition StatusDown : Status := "down".

Record CheckResult : Type := {
  ServiceName : string;
  Status_ : Status;
  ResponseTime : GoTime.Duration;
  Error : string;
  CheckedAt : GoTime.Time
}.

(** Assignments to the fields of a result. *)
Definition with_Status (r : CheckResult) (s : Status) : CheckResult :=
  {| ServiceName := ServiceName r; Status_ := s; ResponseTime := ResponseTime r;
     Error := Error r; CheckedAt := CheckedAt r |}.
Definition with_Error (r : CheckResult) (e : string) : CheckResult :=
  {| ServiceName := ServiceName r; Status_ := Status_ r; ResponseTime := ResponseTime r;
     Error := e; CheckedAt := CheckedAt r |}.
Definition with_ResponseTime (r : CheckResult) (d : GoTime.Duration) : CheckResult :=
  {| ServiceName := ServiceName r; Status_ := Status_ r; ResponseTime := d;
     Error := Error r; CheckedAt := CheckedAt r |}.

(** *** What a probe sees of the outside world *)

Record Request : Type := {
  Method : string;
  ReqURL : string;
  ReqHeader : gmap string string
}.

Record Response : Type := {
  StatusCode : Z;
  Body : string
}.

(** Every error of [http.Client.Do] is a [*url.Error]. *)
Record url_Error : Type := {
  Op : string;
  ErrURL : string;
  Inner : error
}.

Inductive DoResult : Type :=
| DoResp (resp : Response)
| DoError (e : url_Error).

(** The transport of an [http.Client]: the default one, or the dialer of
    the Docker socket. *)
Inductive Transport : Type :=
| DefaultTransport
| UnixSocket (path : string) (timeout : GoTime.Duration).

(** The error of [exec.Cmd.Output]: an [*exec.ExitError] carries the
    standard error output of the command. *)
Inductive ExecError : Type :=
| ExitError (msg : error) (Stderr : string)
| OtherExecError (msg : error).

Definition ExecError_msg (e : ExecError) : error :=
  match e with
  | ExitError msg _ => msg
  | OtherExecError msg => msg
  end.

Record ContainerState : Type := { Running : bool }.

(** The answers of the clock, the network, the operating system and the
    JSON decoder during one probe.  Cancellation and expiry of the context
    of the probe show as errors of these operations. *)
Record World : Type := {
  time_Now : GoTime.Time;
  time_Since : GoTime.Time -> GoTime.Duration;
  GOOS : string;
  http_NewRequest : string -> string -> option error;
  http_Do : Transport -> GoTime.Duration -> Request -> DoResult;
  net_Dial : GoTime.Duration -> string -> string -> option error;
  cmd_Output : string -> list string -> string * option ExecError;
  json_Decode : string -> res ContainerState
}.

(** The two interfaces the checkers are built over, each with the
    implementation of the repository and with an injected one. *)
Inductive CommandExecutor : Type :=
| osExecutor
| customExecutor (run : string -> list string -> string * string * option error).

Inductive DockerClient : Type :=
| unixDockerClient (timeout : GoTime.Duration)
| customDockerClient (inspect : string -> option ContainerState * option error).

Inductive Checker : Type :=
| httpChecker (svc : Service) (timeout : GoTime.Duration)
| tcpChecker (svc : Service)
| pingChecker (svc : Service) (executor : CommandExecutor)
| dockerChecker (svc : Service) (client : DockerClient).

(** A call of [Check] returns a result, or panics. *)
Inductive CheckOutcome : Type :=
| Returns (r : CheckResult)
| Panics.

Definition dockerSockPath : string := "/var/run/docker.sock".

Section Checkers.
Context `{GoFmt}.
Variable w : World.

(** The method [Error] of [url.Error]. *)
Definition url_Error_msg (e : url_Error) : error :=
  Op e +:+ " " +:+ fmt_q (ErrURL e) +:+ ": " +:+ Inner e.

Definition newResult (svc : Service) (start : GoTime.Time) : CheckResult :=
  {| ServiceName := Name svc; Status_ := ""; ResponseTime := 0; Error := "";
     CheckedAt := start |}.

(** [httpChecker.Check]. *)
Definition httpCheck (svc : Service) (timeout : GoTime.Duration) : CheckResult :=
  let start := time_Now w in
  let result := newResult svc start in
  match http_NewRequest w "GET" (Target svc) with
  | Some err =>
      let result := with_Status result StatusDown in
      let result := with_Error result ("creating request: " +:+ err) in
      with_ResponseTime result (time_Since w start)
  | None =>
      let req := {| Method := "GET"; ReqURL := Target svc; ReqHeader := Headers svc |} in
      let r := http_Do w DefaultTransport timeout req in
      let result := with_ResponseTime result (time_Since w start) in
      match r with
      | DoError err =>
          let result := with_Status result StatusDown in
          with_Error result (url_Error_msg err)
      | DoResp resp =>
          let expected := ExpectedStatus svc in
          let expected := if expected =? 0 then 200 else expected in
          if negb (StatusCode resp =? expected) then
            let result := with_Status result StatusDown in
            with_Error result
              ("expected status " +:+ fmt_d expected +:+ ", got " +:+ fmt_d (StatusCode resp))
          else with_Status result StatusUp
      end
  end.

(** [tcpChecker.Check]. *)
Definition tcpCheck (svc : Service) : CheckResult :=
  let start := time_Now w in
  let result := newResult svc start in
  let err := net_Dial w (Timeout svc) "tcp" (Target svc) in
  let result := with_ResponseTime result (time_Since w start) in
  match err with
  | Some err =>
      let result := with_Status result StatusDown in
      with_Error result ("dial tcp " +:+ Target svc +:+ ": " +:+ err)
  | None => with_Status result StatusUp
  end.

(** [osExecutor.Run] and the dispatch of [CommandExecutor.Run]. *)
Definition osExecutor_Run (name : string) (args : list string)
  : string * string * option error :=
  let '(stdout, err) := cmd_Output w name args in
  let stderr :=
    match err with
    | Some (ExitError _ stderr) => stderr
    | _ => EmptyString
    end in
  (stdout, stderr, ExecError_msg <$> err).

Definition Run (e : CommandExecutor) (name : string) (args : list string)
  : string * string * option error :=
  match e with
  | osExecutor => osExecutor_Run name args
  | customExecutor run => run name args
  end.

(** [int(math.Ceil(d.Seconds()))]; [Seconds] adds the whole seconds and
    the float64 fraction.  For a duration that is not positive the sum is
    at most zero and [Check] replaces its ceiling by 1; the exact ceiling
    stands for it here. *)
Definition ceilSeconds (d : GoTime.Duration) : Z :=
  if d <=? 0 then Z.quot d GoTime.Second
  else
    let sec := d / GoTime.Second in
    let nsec := d mod GoTime.Second in
    let f :=
      match F64.of_Z sec, F64.div (F64.of_Z nsec) (F64.of_Z (10 ^ 9)) with
      | F64.Fin m1 e1, F64.Fin m2 e2 =>
          let e := Z.min e1 e2 in
          if e <? 0
          then F64.round_q (m1 * 2 ^ (e1 - e) + m2 * 2 ^ (e2 - e)) (2 ^ (- e))
          else F64.round_q (m1 * 2 ^ e1 + m2 * 2 ^ e2) 1
      | _, _ => F64.Inf
      end in
    match f with
    | F64.Fin m e => if e <? 0 then - ((- m) / 2 ^ (- e)) else m * 2 ^ e
    | F64.Inf => - 2 ^ 63
    end.

(** [time.Duration(ms * float64(time.Millisecond))]. *)
Definition rttDuration (ms : F64.t) : GoTime.Duration :=
  F64.to_int64 (F64.mul ms (F64.of_Z GoTime.Millisecond)).

(** The arguments [pingChecker.Check] gives to the command [ping]. *)
Definition pingArgs (svc : Service) : list string :=
  let timeoutSec := ceilSeconds (Timeout svc) in
  let timeoutSec := if timeoutSec <? 1 then 1 else timeoutSec in
  if decide (GOOS w = "darwin")
  then ["-c"; "1"; "-t"; fmt_d timeoutSec; Target svc]
  else ["-c"; "1"; "-W"; fmt_d timeoutSec; Target svc].

(** [pingChecker.Check]. *)
Definition pingCheck (svc : Service) (executor : CommandExecutor) : CheckResult :=
  let start := time_Now w in
  let result := newResult svc start in
  let args := pingArgs svc in
  let '(stdout, _, err) := Run executor "ping" args in
  let result := with_ResponseTime result (time_Since w start) in
  match err with
  | Some err =>
      let result := with_Status result StatusDown in
      with_Error result ("ping " +:+ Target svc +:+ ": " +:+ err)
  | None =>
      match RttRegex.FindSubmatch stdout with
      | None =>
          let result := with_Status result StatusDown in
          with_Error result "could not parse RTT from ping output"
      | Some group =>
          let '(ms, _) := Strconv.ParseFloat group in
          let result := with_ResponseTime result (rttDuration ms) in
          with_Status result StatusUp
      end
  end.

(** [unixDockerClient.InspectContainer]. *)
Definition unixInspectContainer (timeout : GoTime.Duration) (name : string)
  : option ContainerState * option error :=
  let url := "http://localhost/containers/" +:+ name +:+ "/json" in
  match http_NewRequest w "GET" url with
  | Some err => (None, Some ("creating request: " +:+ err))
  | None =>
      let req := {| Method := "GET"; ReqURL := url; ReqHeader := ∅ |} in
      match http_Do w (UnixSocket dockerSockPath timeout) timeout req with
      | DoError err => (None, Some ("querying docker socket: " +:+ url_Error_msg err))
      | DoResp resp =>
          if StatusCode resp =? 404 then
            (None, Some ("container " +:+ fmt_q name +:+ " not found"))
          else if negb (StatusCode resp =? 200) then
            (None, Some ("docker API returned status " +:+ fmt_d (StatusCode resp)))
          else
            match json_Decode w (Body resp) with
            | Err err => (None, Some ("decoding docker response: " +:+ err))
            | Ok state => (Some state, None)
            end
      end
  end.

Definition InspectContainer (c : DockerClient) (name : string)
  : option ContainerState * option error :=
  match c with
  | unixDockerClient timeout => unixInspectContainer timeout name
  | customDockerClient inspect => inspect name
  end.

(** [dockerChecker.Check]; [state.Running] dereferences the pointer the
    client returned. *)
Definition dockerCheck (svc : Service) (client : DockerClient) : CheckOutcome :=
  let start := time_Now w in
  let result := newResult svc start in
  let '(state, err) := InspectContainer client (Target svc) in
  let result := with_ResponseTime result (time_Since w start) in
  match err with
  | Some err =>
      let result := with_Status result StatusDown in
      Returns (with_Error result err)
  | None =>
      match state with
      | None => Panics
      | Some state =>
          if negb (Running state) then
            let result := with_Status result StatusDown in
            Returns (with_Error result
                       ("container " +:+ fmt_q (Target svc) +:+ " is not running"))
          else Returns (with_Status result StatusUp)
      end
  end.

(** The method [Check] of the interface [Checker]. *)
Definition Check (c : Checker) : CheckOutcome :=
  match c with
  | httpChecker svc timeout => Returns (httpCheck svc timeout)
  | tcpChecker svc => Returns (tcpCheck svc)
  | pingChecker svc executor => Returns (pingCheck svc executor)
  | dockerChecker svc client => dockerCheck svc client
  end.

End Checkers.

Section Factory.
Context `{GoFmt}.

Definition newHTTPChecker (svc : Service) : Checker := httpChecker svc (Timeout svc).
Definition newTCPChecker (svc : Service) : Checker := tcpChecker svc.
Definition newPingChecker (svc : Service) : Checker := pingChecker svc osExecutor.
Definition newDockerChecker (svc : Service) : Checker :=
  dockerChecker svc (unixDockerClient (Timeout svc)).

Definition NewPingCheckerWithExecutor (svc : Service) (exec : CommandExecutor) : Checker :=
  pingChecker svc exec.
Definition NewDockerCheckerWithClient (svc : Service) (client : DockerClient) : Checker :=
  dockerChecker svc client.

(** [checker.New] (checker.go). *)
Definition New (svc : Service) : res Checker :=
  if decide (Type_ svc = "http") then Ok (newHTTPChecker svc)
  else if decide (Type_ svc = "tcp") then Ok (newTCPChecker svc)
  else if decide (Type_ svc = "ping") then Ok (newPingChecker svc)
  else if decide (Type_ svc = "docker") then Ok (newDockerChecker svc)
  else Err ("unknown checker type " +:+ fmt_q (Type_ svc)).

End Factory.

End Checker.

(** ** internal/storage/sqlite.go, the reading side *)
Module Storage.

Record Check : Type := {
  ID : Z;
  Service : string;
  Status : string;
  ResponseMs : Z;
  Error : string;
  CheckedAt : GoTime.Time
}.

(** The columns [row.Scan] fills, with [checked_at] still a string. *)
Record Row : Type := {
  rowID : Z;
  rowService : string;
  rowStatus : string;
  rowResponseMs : Z;
  rowError : string;
  rowCheckedAt : string
}.

(** The errors [scanCheck] can return; [sql.ErrNoRows] is compared by
    identity. *)
Inductive ScanError : Type :=
| ErrNoRows
| ScanFailure (msg : error).

Definition RFC3339 : string := "2006-01-02T15:04:05Z07:00".
Definition RFC3339Nano : string := "2006-01-02T15:04:05.999999999Z07:00".

Section DB.
Context `{GoFmt}.
(** [time.Parse(layout, value)]. *)
Variable time_Parse : string -> string -> res GoTime.Time.
(** The answer of the database to the query of [LatestCheck]: what
    [row.Scan] yields. *)
Variable QueryRow : string -> Row + ScanError.

Definition scanCheck (row : Row + ScanError) : option Check * option ScanError :=
  match row with
  | inr err => (None, Some err)
  | inl r =>
      let t :=
        match time_Parse RFC3339Nano (rowCheckedAt r) with
        | Ok t => Ok t
        | Err _ =>
            match time_Parse RFC3339 (rowCheckedAt r) with
            | Ok t => Ok t
            | Err err =>
                Err ("parsing checked_at " +:+ fmt_q (rowCheckedAt r) +:+ ": " +:+ err)
            end
        end in
      match t with
      | Err err => (None, Some (ScanFailure err))
      | Ok t =>
          (Some {| ID := rowID r; Service := rowService r; Status := rowStatus r;
                   ResponseMs := rowResponseMs r; Error := rowError r; CheckedAt := t |},
           None)
      end
  end.

Definition LatestCheck (service : string) : option Check * option error :=
  let '(c, err) := scanCheck (QueryRow service) in
  match err with
  | Some ErrNoRows => (None, None)
  | Some (ScanFailure msg) =>
      (None, Some ("querying latest check for " +:+ fmt_q service +:+ ": " +:+ msg))
  | None => (c, None)
  end.

(** The message of the error [row.Scan] returned. *)
Definition ScanError_msg (e : ScanError) : error :=
  match e with
  | ErrNoRows => "sql: no rows in result set"
  | ScanFailure msg => msg
  end.

(** The cursor [*sql.Rows] of a query: what [rows.Scan] answers for each
    row [rows.Next] delivers, and what [rows.Err] returns after the last. *)
Record Rows : Type := {
  delivered : list (Row + ScanError);
  rowsErr : option error
}.

(** The loop [for rows.Next()] of [scanChecks], with the slice [checks]
    built so far.  [scanCheck] returns a check whenever it returns no
    error, so the loop can dereference it. *)
Fixpoint scanLoop (checks : list Check) (rows : list (Row + ScanError))
  : res (list Check) :=
  match rows with
  | [] => Ok checks
  | row :: rest =>
      match scanCheck row with
      | (_, Some err) => Err ("scanning check row: " +:+ ScanError_msg err)
      | (c, None) => scanLoop (checks ++ option_list c) rest
      end
  end.

Definition scanChecks (rows : Rows) : list Check * option error :=
  match scanLoop [] (delivered rows) with
  | Err err => ([], Some err)
  | Ok checks =>
      match rowsErr rows with
      | Some err => ([], Some ("iterating check rows: " +:+ err))
      | None => (checks, None)
      end
  end.

(** The answers of the database to the queries of [AllLatest], of
    [ServiceHistory] (the count, then the page) and of [UptimePercent]
    (the count and the sum, which is NULL over no rows). *)
Variable QueryAllLatest : res Rows.
Variable QueryCount : string -> res Z.
Variable QueryHistory : string -> Z -> Z -> res Rows.
Variable QueryUptime : string -> Z -> res (Z * option Z).

Definition AllLatest : list Check * option error :=
  match QueryAllLatest with
  | Err err => ([], Some ("querying all latest: " +:+ err))
  | Ok rows => scanChecks rows
  end.

Definition ServiceHistory (service : string) (limit offset : Z)
  : list Check * Z * option error :=
  match QueryCount service with
  | Err err => ([], 0, Some ("counting checks for " +:+ fmt_q service +:+ ": " +:+ err))
  | Ok total =>
      match QueryHistory service limit offset with
      | Err err =>
          ([], 0, Some ("querying history for " +:+ fmt_q service +:+ ": " +:+ err))
      | Ok rows =>
          match scanChecks rows with
          | (_, Some err) => ([], 0, Some err)
          | (checks, None) => (checks, total, None)
          end
      end
  end.

(** [UptimePercent]; [upCount.Int64] is 0 when the sum is NULL. *)
Definition UptimePercent (service : string) (last : Z) : F64.t * option error :=
  match QueryUptime service last with
  | Err err =>
      (F64.Fin 0 0, Some ("calculating uptime for " +:+ fmt_q service +:+ ": " +:+ err))
  | Ok (total, upCount) =>
      if total =? 0 then (F64.Fin 0 0, None)
      else
        (F64.mul (F64.div (F64.of_Z (default 0 upCount)) (F64.of_Z total)) (F64.of_Z 100),
         None)
  end.

End DB.

End Storage.

(** ** internal/scheduler/scheduler.go *)
Module Scheduler.
Import Config Checker.

(** Values of the attributes of a log record. *)
Inductive LogValue : Type :=
| LStr (s : string)
| LDur (d : GoTime.Duration)
| LErr (e : error).

Inductive Level : Type := Info | Warn | Error.

(** The select statement of [runService] receives from one of two
    channels. *)
Inductive SelectCase : Type :=
| CtxDone
| TickerC.

(** What a service task does that other components can observe, in the
    order in which it does it. *)
Inductive Event (Chk : Type) : Type :=
| EvLatestCheck (service : string)
| EvCheck (c : Chk)
| EvInsertCheck (r : CheckResult)
| EvOnResult (r : CheckResult) (prev : option Checker.Status)
| EvLog (level : Level) (msg : string) (attrs : list (string * LogValue))
| EvNewTicker (d : GoTime.Duration)
| EvReceive (c : SelectCase)
| EvTickerStop
| EvWgAdd (n : Z)
| EvWgDone
| EvGo (svc : Service) (c : Chk).
Arguments EvLatestCheck {Chk}.
Arguments EvCheck {Chk}.
Arguments EvInsertCheck {Chk}.
Arguments EvOnResult {Chk}.
Arguments EvLog {Chk}.
Arguments EvNewTicker {Chk}.
Arguments EvReceive {Chk}.
Arguments EvTickerStop {Chk}.
Arguments EvWgAdd {Chk}.
Arguments EvWgDone {Chk}.
Arguments EvGo {Chk}.

(** How a goroutine stands after the receptions it was given: still
    waiting in the select, returned, or stopped by a panic. *)
Inductive TaskState : Type :=
| Waiting
| Exited
| Panicked.

Section Sched.
Context `{GoFmt}.
(** [W] is the state of everything the scheduler calls: the store, the
    network behind the checkers, the observer.  [Chk] is the type of the
    checkers the factory makes. *)
Variable W : Type.
Variable Chk : Type.

(** The interface [Store]. *)
Record Store : Type := {
  InsertCheck : CheckResult -> W -> option error * W;
  LatestCheck : string -> W -> (option Storage.Check * option error) * W
}.

Definition CheckerFactory := Service -> res Chk.

Record Scheduler : Type := {
  services : list Service;
  store : Store;
  factory : CheckerFactory;
  onResult : option (CheckResult -> option Checker.Status -> W -> W)
}.

(** The method [Check] of the checkers. *)
Variable Check : Chk -> W -> CheckResult * W.

Definition New (services : list Service) (store : Store) (factory : CheckerFactory)
  : Scheduler :=
  {| services := services; store := store; factory := factory; onResult := None |}.

Definition SetOnResult (s : Scheduler)
  (fn : option (CheckResult -> option Checker.Status -> W -> W)) : Scheduler :=
  {| services := services s; store := store s; factory := factory s; onResult := fn |}.

(** Computations of a task: they change the outside state and extend the
    trace of events. *)
Definition St : Type := W * list (Event Chk).
Definition M (A : Type) : Type := St -> A * St.

#[local] Instance M_ret : MRet M := fun A a st => (a, st).
#[local] Instance M_bind : MBind M :=
  fun A B k m st => let '(a, st') := m st in k a st'.

Definition emit (e : Event Chk) : M unit :=
  fun st => (tt, (st.1, st.2 ++ [e])).

(** A call into the outside: [f] gives the answer and the next state. *)
Definition call {A : Type} (e : Event Chk) (f : W -> A * W) : M A :=
  fun st => let '(a, w') := f st.1 in (a, (w', st.2 ++ [e])).

Definition log (level : Level) (msg : string) (attrs : list (string * LogValue)) : M unit :=
  emit (EvLog level msg attrs).

Definition runCheck (s : Scheduler) (svc : Service) (c : Chk) : M unit :=
  '(prev, err) ← call (EvLatestCheck (Name svc)) (LatestCheck (store s) (Name svc));
  match err with
  | Some err => log Warn "fetching previous check" [("service", LStr (Name svc)); ("error", LErr err)]
  | None => mret tt
  end;;
  result ← call (EvCheck c) (Check c);
  log Info "check result"
    [("service", LStr (Name svc)); ("status", LStr (Status_ result));
     ("response_time", LDur (ResponseTime result)); ("error", LStr (Checker.Error result))];;
  err ← call (EvInsertCheck result) (InsertCheck (store s) result);
  match err with
  | Some err => log Error "storing check result" [("service", LStr (Name svc)); ("error", LErr err)]
  | None => mret tt
  end;;
  match onResult s with
  | Some fn =>
      let prevStatus :=
        match prev with
        | Some p => Some (Storage.Status p : Checker.Status)
        | None => None
        end in
      call (EvOnResult result prevStatus) (fun w => (tt, fn result prevStatus w))
  | None => mret tt
  end.

(** The loop [for { select { ... } }], driven by the receptions the
    runtime chooses for the select statement, one per round. *)
Fixpoint selectLoop (s : Scheduler) (svc : Service) (c : Chk) (cases : list SelectCase)
  : M TaskState :=
  match cases with
  | [] => mret Waiting
  | CtxDone :: _ => emit (EvReceive CtxDone);; mret Exited
  | TickerC :: rest =>
      emit (EvReceive TickerC);;
      runCheck s svc c;;
      selectLoop s svc c rest
  end.

(** [runService]; [time.NewTicker] panics for an interval that is not
    positive, and the deferred calls run on return and on panic. *)
Definition runService (s : Scheduler) (svc : Service) (c : Chk) (cases : list SelectCase)
  : M TaskState :=
  runCheck s svc c;;
  if Interval svc <=? 0 then emit EvWgDone;; mret Panicked
  else
    emit (EvNewTicker (Interval svc));;
    st ← selectLoop s svc c cases;
    match st with
    | Exited => emit EvTickerStop;; emit EvWgDone;; mret Exited
    | _ => mret st
    end.

(** [Start]: the goroutines it spawns are returned; they run
    [runService ctx svc c]. *)
Fixpoint startLoop (s : Scheduler) (svcs : list Service) : M (list (Service * Chk)) :=
  match svcs with
  | [] => mret []
  | svc :: rest =>
      match factory s svc with
      | Err err =>
          log Error "creating checker" [("service", LStr (Name svc)); ("error", LErr err)];;
          startLoop s rest
      | Ok c =>
          emit (EvWgAdd 1);;
          emit (EvGo svc c);;
          tasks ← startLoop s rest;
          mret ((svc, c) :: tasks)
      end
  end.

Definition Start (s : Scheduler) : M (list (Service * Chk)) :=
  startLoop s (services s).

End Sched.

Arguments InsertCheck {W}.
Arguments LatestCheck {W}.
Arguments services {W Chk}.
Arguments store {W Chk}.
Arguments factory {W Chk}.
Arguments onResult {W Chk}.
Arguments New {W Chk}.
Arguments SetOnResult {W Chk}.
Arguments emit {W Chk}.
Arguments call {W Chk A}.
Arguments log {W Chk}.
Arguments runCheck {W Chk}.
Arguments selectLoop {W Chk}.
Arguments runService {W Chk}.
Arguments startLoop {W Chk}.
Arguments Start {W Chk}.

End Scheduler.

(** ** internal/alert *)
Module Alert.
Import Checker.

(** The state of an [Alerter]; its HTTP client and logger show only
    through the effects below. *)
Record Alerter : Type := {
  webhookURL : string;
  cooldown : GoTime.Duration;
  lastAlert : gmap string GoTime.Time
}.

Definition New (webhookURL : string) (cooldown : GoTime.Duration) : Alerter :=
  {| webhookURL := webhookURL; cooldown := cooldown; lastAlert := ∅ |}.

(** What a call of [Notify] does, in order: it takes and releases the
    mutex, writes an entry of [lastAlert], logs, and starts the goroutine
    [a.send(result, prevStatus)]. *)
Inductive Effect : Type :=
| Lock
| Unlock
| SetLastAlert (service : string) (t : GoTime.Time)
| LogInfo (msg : string) (service : string)
| GoSend (result : CheckResult) (prevStatus : string).

(** The clock of one call: what [time.Since] and [time.Now] read. *)
Record Clock : Type := {
  atSince : GoTime.Time;
  atNow : GoTime.Time
}.

Definition set_lastAlert (a : Alerter) (m : gmap string GoTime.Time) : Alerter :=
  {| webhookURL := webhookURL a; cooldown := cooldown a; lastAlert := m |}.

Definition Notify (a : Alerter) (clk : Clock) (result : CheckResult)
  (previousStatus : option Checker.Status) : Alerter * list Effect :=
  match previousStatus with
  | None => (a, [])
  | Some prev =>
      if decide (Status_ result = prev) then (a, [])
      else
        match lastAlert a !! ServiceName result with
        | Some last =>
            if GoTime.Sub (atSince clk) last <? cooldown a then
              (a, [Lock; Unlock;
                   LogInfo "alert suppressed by cooldown" (ServiceName result)])
            else
              (set_lastAlert a (<[ServiceName result := atNow clk]> (lastAlert a)),
               [Lock; SetLastAlert (ServiceName result) (atNow clk); Unlock;
                GoSend result prev])
        | None =>
            (set_lastAlert a (<[ServiceName result := atNow clk]> (lastAlert a)),
             [Lock; SetLastAlert (ServiceName result) (atNow clk); Unlock;
              GoSend result prev])
        end
  end.

(** The notifications a call dispatched. *)
Definition dispatched (effs : list Effect) : list (CheckResult * string) :=
  omap (fun e => match e with GoSend r p => Some (r, p) | _ => None end) effs.

(** A sequence of calls on the same alerter, one after the other. *)
Fixpoint NotifyAll (a : Alerter)
  (calls : list (Clock * CheckResult * option Checker.Status))
  : Alerter * list Effect :=
  match calls with
  | [] => (a, [])
  | (clk, result, prev) :: rest =>
      let '(a1, e1) := Notify a clk result prev in
      let '(a2, e2) := NotifyAll a1 rest in
      (a2, e1 ++ e2)
  end.

End Alert.

(** ** cmd/servprobe: the command [check] *)
Module Cmd.
Import Config Checker.

(** [d.Round(m)] of package time, on int64. *)
Definition wrap64 (z : Z) : Z := (z + 2 ^ 63) mod 2 ^ 64 - 2 ^ 63.

Definition lessThanHalf (x y : Z) : bool :=
  ((x mod 2 ^ 64 + x mod 2 ^ 64) mod 2 ^ 64 <? y mod 2 ^ 64).

Definition Round (d m : GoTime.Duration) : GoTime.Duration :=
  if m <=? 0 then d
  else
    let r := Z.rem d m in
    if d <? 0 then
      let r := - r in
      if lessThanHalf r m then wrap64 (d + r)
      else
        let d1 := wrap64 (d - m + r) in
        if d1 <? d then d1 else GoTime.minDuration
    else if lessThanHalf r m then d - r
    else
      let d1 := wrap64 (d + m - r) in
      if d <? d1 then d1 else GoTime.maxDuration.

(** A line given to the tab writer: its cells. *)
Definition Line := list string.

Record result : Type := {
  svc : Service;
  res_result : CheckResult
}.

Section RunChecks.
Context `{GoFmt}.
(** [Duration.String]. *)
Variable Duration_String : GoTime.Duration -> string.
(** The world the goroutine of the [i]-th service probes. *)
Variable world : nat -> World.

(** The body of the goroutine started for service [i]: the value it
    stores in [results[i]], unless the probe panics. *)
Definition checkOne (i : nat) (svc : Service) : option result :=
  match Checker.New svc with
  | Err err =>
      Some {| svc := svc;
              res_result :=
                {| ServiceName := Name svc;
                   Status_ := StatusDown;
                   ResponseTime := 0;
                   Checker.Error := "creating checker: " +:+ err;
                   CheckedAt := time_Now (world i) |} |}
  | Ok c =>
      match Checker.Check (world i) c with
      | Returns r => Some {| svc := svc; res_result := r |}
      | Panics => None
      end
  end.

(** The slice [results] after [wg.Wait()]: every goroutine wrote its own
    index. *)
Definition collect (svcs : list Service) : list (option result) :=
  imap checkOne svcs.

Definition formatRow (r : result) : Line :=
  let resp :=
    if 0 <? ResponseTime (res_result r)
    then Duration_String (Round (ResponseTime (res_result r)) GoTime.Millisecond)
    else "—" in
  [Name (svc r); Type_ (svc r); Status_ (res_result r); resp; Checker.Error (res_result r)].

(** The loop over [results]: the lines printed and the flag [allUp]. *)
Fixpoint report (rs : list result) (allUp : bool) : list Line * bool :=
  match rs with
  | [] => ([], allUp)
  | r :: rest =>
      let allUp := if decide (Status_ (res_result r) = StatusUp) then allUp else false in
      let '(lines, allUp) := report rest allUp in
      (formatRow r :: lines, allUp)
  end.

Definition header : Line := ["SERVICE"; "TYPE"; "STATUS"; "RESPONSE"; "ERROR"].

(** [runChecks]: the lines written to [out] and the error returned;
    [None] when a goroutine panicked. *)
Definition runChecks (cfg : Config) : option (list Line * option error) :=
  match mapM id (collect (Services cfg)) with
  | None => None
  | Some results =>
      let '(lines, allUp) := report results true in
      Some (header :: lines,
            if negb allUp then Some "one or more services are down" else None)
  end.

End RunChecks.

(** *** The command [status] *)
Section Status.
(** [Duration.String], and [t.Local().Format(layout)]. *)
Variable Duration_String : GoTime.Duration -> string.
Variable Local_Format : GoTime.Time -> string -> string.

(** The row of a stored check; the product [c.ResponseMs *
    int64(time.Millisecond)] wraps around in int64. *)
Definition statusRow (c : Storage.Check) : Line :=
  let resp :=
    if 0 <? Storage.ResponseMs c
    then Duration_String
           (Round (wrap64 (Storage.ResponseMs c * GoTime.Millisecond)) GoTime.Millisecond)
    else "—" in
  [Storage.Service c; Storage.Status c; resp;
   Local_Format (Storage.CheckedAt c) "2006-01-02 15:04:05"; Storage.Error c].

Definition statusHeader : Line := ["SERVICE"; "STATUS"; "RESPONSE"; "LAST CHECKED"; "ERROR"].

Definition noHistory : Line :=
  ["No check history. Run 'servprobe serve' or 'servprobe check' first."].

(** [executeStatus], given what [db.AllLatest] answers: the lines written
    to [out] and the error returned. *)
Definition executeStatus (allLatest : list Storage.Check * option error)
  : list Line * option error :=
  let '(checks, err) := allLatest in
  match err with
  | Some err => ([], Some ("querying status: " +:+ err))
  | None =>
      if (length checks =? 0)%nat then ([noHistory], None)
      else (statusHeader :: (statusRow <$> checks), None)
  end.

End Status.

End Cmd.

(** ** internal/server: the handlers of the JSON API *)
Module Server.

(** The interface [ServerStore]. *)
Record ServerStore : Type := {
  AllLatest : list Storage.Check * option error;
  LatestCheck : string -> option Storage.Check * option error;
  ServiceHistory : string -> Z -> Z -> list Storage.Check * Z * option error;
  UptimePercent : string -> Z -> F64.t * option error
}.

(** The calls a handler makes on the store, in order. *)
Inductive Query : Type :=
| QAllLatest
| QLatestCheck (service : string)
| QServiceHistory (service : string) (limit offset : Z)
| QUptimePercent (service : string) (last : Z).

Record Server : Type := {
  store : ServerStore;
  services : list Config.Service
}.

Definition New (store : ServerStore) (services : list Config.Service) : Server :=
  {| store := store; services := services |}.

Record serviceDetail : Type := {
  Name : string;
  Type_ : string;
  Target : string;
  Interval : string;
  Status : string;
  ResponseMs : Z;
  UptimePct : F64.t;
  LastChecked : option GoTime.Time
}.

(** What a handler passes to [writeJSON] as [data]. *)
Inductive Payload : Type :=
| Details (details : list serviceDetail)
| Detail (d : serviceDetail) (RecentChecks : list Storage.Check)
| History (Checks : list Storage.Check) (Total : Z).

Record envelope : Type := {
  Data : option Payload;
  Error : string
}.

(** An error record of the logger: the message and its attributes. *)
Definition LogRecord : Type := string * list (string * string).

(** What a handler did: the queries on the store, the records logged, and
    the status and body of the response. *)
Record Reply : Type := {
  queries : list Query;
  logged : list LogRecord;
  status : Z;
  body : envelope
}.

Definition writeJSON (qs : list Query) (status : Z) (data : Payload) : Reply :=
  {| queries := qs; logged := []; status := status;
     body := {| Data := Some data; Error := EmptyString |} |}.

Definition writeError (qs : list Query) (log : list LogRecord) (status : Z) (msg : string)
  : Reply :=
  {| queries := qs; logged := log; status := status;
     body := {| Data := None; Error := msg |} |}.

Definition StatusOK : Z := 200.
Definition StatusBadRequest : Z := 400.
Definition StatusNotFound : Z := 404.
Definition StatusInternalServerError : Z := 500.

(** [serviceIndex]: a later service replaces an earlier one of the same
    name. *)
Definition serviceIndex (s : Server) : gmap string Config.Service :=
  foldl (fun idx svc => <[Config.Name svc := svc]> idx) ∅ (services s).

Section Handlers.
(** [Duration.String]. *)
Variable Duration_String : GoTime.Duration -> string.

(** One round of the loop of [handleListServices] over the services: the
    queries it makes and the detail it appends. *)
Definition listDetail (s : Server) (byService : gmap string Storage.Check)
  (svc : Config.Service) : list Query * serviceDetail :=
  match byService !! Config.Name svc with
  | Some c =>
      ([QUptimePercent (Config.Name svc) 100],
       {| Name := Config.Name svc; Type_ := Config.Type_ svc;
          Target := Config.Target svc;
          Interval := Duration_String (Config.Interval svc);
          Status := Storage.Status c; ResponseMs := Storage.ResponseMs c;
          UptimePct := (UptimePercent (store s) (Config.Name svc) 100).1;
          LastChecked := Some (Storage.CheckedAt c) |})
  | None =>
      ([],
       {| Name := Config.Name svc; Type_ := Config.Type_ svc;
          Target := Config.Target svc;
          Interval := Duration_String (Config.Interval svc);
          Status := "unknown"; ResponseMs := 0; UptimePct := F64.Fin 0 0;
          LastChecked := None |})
  end.

Definition handleListServices (s : Server) : Reply :=
  let '(latestChecks, err) := AllLatest (store s) in
  match err with
  | Some err =>
      writeError [QAllLatest] [("AllLatest", [("error", err)])]
        StatusInternalServerError "internal error"
  | None =>
      let byService :=
        foldl (fun m c => <[Storage.Service c := c]> m) ∅ latestChecks in
      let rounds := listDetail s byService <$> services s in
      writeJSON (QAllLatest :: concat (fst <$> rounds)) StatusOK (Details (snd <$> rounds))
  end.

Definition handleGetService (s : Server) (name : string) : Reply :=
  match serviceIndex s !! name with
  | None => writeError [] [] StatusNotFound "service not found"
  | Some svc =>
      let '(latest, err) := LatestCheck (store s) name in
      match err with
      | Some err =>
          writeError [QLatestCheck name]
            [("LatestCheck", [("service", name); ("error", err)])]
            StatusInternalServerError "internal error"
      | None =>
          let '(history, _, err) := ServiceHistory (store s) name 10 0 in
          match err with
          | Some err =>
              writeError [QLatestCheck name; QServiceHistory name 10 0]
                [("ServiceHistory", [("service", name); ("error", err)])]
                StatusInternalServerError "internal error"
          | None =>
              let pct := (UptimePercent (store s) name 100).1 in
              let d :=
                match latest with
                | Some latest =>
                    {| Name := Config.Name svc; Type_ := Config.Type_ svc;
                       Target := Config.Target svc;
                       Interval := Duration_String (Config.Interval svc);
                       Status := Storage.Status latest;
                       ResponseMs := Storage.ResponseMs latest; UptimePct := pct;
                       LastChecked := Some (Storage.CheckedAt latest) |}
                | None =>
                    {| Name := Config.Name svc; Type_ := Config.Type_ svc;
                       Target := Config.Target svc;
                       Interval := Duration_String (Config.Interval svc);
                       Status := "unknown"; ResponseMs := 0; UptimePct := pct;
                       LastChecked := None |}
                end in
              writeJSON
                [QLatestCheck name; QServiceHistory name 10 0; QUptimePercent name 100]
                StatusOK (Detail d history)
          end
      end
  end.

Definition maxLimit : Z := 1000.

(** [handleGetServiceHistory]; [limitParam] and [offsetParam] are what
    [r.URL.Query().Get] returns for the two parameters, the empty string
    when the parameter is absent. *)
Definition handleGetServiceHistory (s : Server) (name : string) (limitParam offsetParam : string)
  : Reply :=
  match serviceIndex s !! name with
  | None => writeError [] [] StatusNotFound "service not found"
  | Some _ =>
      let limit :=
        if decide (limitParam = EmptyString) then Some 50
        else
          match Strconv.Atoi limitParam with
          | None => None
          | Some n =>
              if n <? 0 then None
              else Some (if maxLimit <? n then maxLimit else n)
          end in
      match limit with
      | None => writeError [] [] StatusBadRequest "invalid limit parameter"
      | Some limit =>
          let offset :=
            if decide (offsetParam = EmptyString) then Some 0
            else
              match Strconv.Atoi offsetParam with
              | None => None
              | Some n => if n <? 0 then None else Some n
              end in
          match offset with
          | None => writeError [] [] StatusBadRequest "invalid offset parameter"
          | Some offset =>
              let '(checks, total, err) := ServiceHistory (store s) name limit offset in
              match err with
              | Some err =>
                  writeError [QServiceHistory name limit offset]
                    [("ServiceHistory", [("service", name); ("error", err)])]
                    StatusInternalServerError "internal error"
              | None =>
                  writeJSON [QServiceHistory name limit offset] StatusOK
                    (History checks total)
              end
          end
      end
  end.

End Handlers.

End Server.

(** * Properties *)

(** An instance of the formatting verbs for the examples: [%q] puts the
    text between quotes, which is what strconv.Quote does for printable
    ASCII without quotes and backslashes, and [%d] prints in decimal. *)
Definition dquote : string := String (Ascii.ascii_of_nat 34) EmptyString.

Definition plainFmt : GoFmt :=
  {| fmt_q := fun s => dquote +:+ s +:+ dquote;
     fmt_d := fun z => NilZero.string_of_int (Z.to_int z) |}.

Lemma append_nonempty_l (a b : string) : a <> EmptyString -> a +:+ b <> EmptyString.
Proof. destruct a; [congruence | discriminate]. Qed.

(** ** time.ParseDuration on the texts of the README and on the edge of
    the Duration range *)
Example ParseDuration_30s : GoTime.ParseDuration "30s" = Some (30 * GoTime.Second).
Proof. vm_compute. reflexivity. Qed.

Example ParseDuration_mixed :
  GoTime.ParseDuration "1h2m3.5s4ms5µs6ns" = Some 3723504005006.
Proof. vm_compute. reflexivity. Qed.

Example ParseDuration_max :
  GoTime.ParseDuration "2562047h47m16.854775807s" = Some GoTime.maxDuration
  /\ GoTime.ParseDuration "2562047h47m16.854775808s" = None
  /\ GoTime.ParseDuration "-2562047h47m16.854775808s" = Some GoTime.minDuration.
Proof. vm_compute. repeat split. Qed.

Example ParseDuration_rejects :
  GoTime.ParseDuration "not-a-duration" = None
  /\ GoTime.ParseDuration "bad" = None
  /\ GoTime.ParseDuration "5" = None
  /\ GoTime.ParseDuration "" = None.
Proof. vm_compute. repeat split. Qed.

(** ** Config.Load *)
Section LoadProperties.
Import Config.
Context `{GoFmt}.
Variable ReadFile : string -> res string.
Variable yamlUnmarshal : string -> res rawConfig.

Definition typeEnum : list string := ["http"; "tcp"; "ping"; "docker"].

Lemma validTypes_enum (t : string) : map_bool validTypes t = true <-> t ∈ typeEnum.
Proof.
  unfold typeEnum. rewrite !elem_of_cons, elem_of_nil. split.
  - unfold map_bool, validTypes. rewrite !lookup_insert, lookup_empty.
    repeat case_decide; subst; simpl; intros Hx; try discriminate; auto 10.
  - intros [->|[->|[->|[->|[]]]]]; vm_compute; reflexivity.
Qed.

(** How a loaded duration comes from its text: the default when the text
    is empty, what time.ParseDuration made of it otherwise. *)
Definition duration_from (text : string) (dflt d : Duration) : Prop :=
  (text = EmptyString /\ d = dflt)
  \/ (text <> EmptyString /\ GoTime.ParseDuration text = Some d).

(** What [loadService] guarantees about the service it makes of [rs]. *)
Definition loaded_from (rs : rawService) (svc : Service) : Prop :=
  Name svc = rawName rs /\ Name svc <> EmptyString
  /\ Type_ svc = rawType rs /\ Type_ svc ∈ typeEnum
  /\ Target svc = rawTarget rs /\ Target svc <> EmptyString
  /\ duration_from (rawInterval rs) (30 * GoTime.Second) (Interval svc)
  /\ duration_from (rawTimeout rs) (5 * GoTime.Second) (Timeout svc).

Lemma loadService_ok i names rs svc :
  loadService i names rs = Ok svc ->
  loaded_from rs svc /\ map_bool names (rawName rs) = false.
Proof.
  unfold loadService, loaded_from, duration_from, parseDuration.
  destruct (decide (rawName rs = "")) as [|Hn]; [discriminate|].
  destruct (map_bool names (rawName rs)) eqn:Hdup; [discriminate|].
  destruct (decide (rawTarget rs = "")) as [|Ht]; [discriminate|].
  destruct (map_bool validTypes (rawType rs)) eqn:Hty; simpl; [|discriminate].
  apply validTypes_enum in Hty.
  destruct (decide (rawInterval rs = "")) as [Hi|Hi];
    destruct (decide (rawTimeout rs = "")) as [Hto|Hto]; simpl;
    repeat match goal with
    | |- context [GoTime.ParseDuration ?x] =>
        destruct (GoTime.ParseDuration x) eqn:?; simpl
    end;
    intros Heq; try discriminate; injection Heq as <-; simpl; naive_solver.
Qed.

Lemma loadServices_inv rss : forall i names acc svcs,
  loadServices i names acc rss = Ok svcs ->
  (forall n, n ∈ Name <$> acc -> map_bool names n = true) ->
  NoDup (Name <$> acc) ->
  exists new, svcs = acc ++ new
    /\ NoDup (Name <$> svcs) /\ Forall2 loaded_from rss new.
Proof.
  induction rss as [|rs rest IH]; intros i names acc svcs Hload Hnames Hnd; simpl in Hload.
  - injection Hload as <-. exists []. rewrite app_nil_r. auto.
  - destruct (loadService i names rs) as [svc|] eqn:Hone; simpl in Hload; [|discriminate].
    apply loadService_ok in Hone as [Hfrom Hfresh].
    apply IH in Hload as (new & -> & Hnd' & Hall).
    + exists (svc :: new). rewrite <- app_assoc in *. auto.
    + intros n. rewrite fmap_app, elem_of_app. simpl. rewrite list_elem_of_singleton.
      unfold map_bool. intros [Hin| ->].
      * destruct (decide (rawName rs = n)) as [->|Hne].
        -- by rewrite lookup_insert_eq.
        -- rewrite lookup_insert_ne by done. by apply Hnames.
      * destruct Hfrom as [-> _]. by rewrite lookup_insert_eq.
    + rewrite fmap_app. simpl. apply NoDup_app. split_and!; [done| |apply NoDup_singleton].
      intros n Hin. rewrite list_elem_of_singleton. intros ->.
      apply Hnames in Hin. destruct Hfrom as [Heq _]. rewrite Heq in Hin. congruence.
Qed.

(** C6, as the code has it.  Every service of a configuration that [Load]
    returns without error has a unique, non-empty name, a type among http,
    tcp, ping and docker, and a non-empty target; its interval is 30s when
    the text is omitted and otherwise the value time.ParseDuration gives
    for the text, and its timeout is 5s when omitted and otherwise the
    parsed value.  Nothing is said of the sign of a parsed duration. *)
Theorem Load_services_valid (path : string) (cfg : Config) :
  Load ReadFile yamlUnmarshal path = Ok cfg ->
  NoDup (Name <$> Services cfg)
  /\ Forall (fun svc => Name svc <> EmptyString /\ Type_ svc ∈ typeEnum
                        /\ Target svc <> EmptyString) (Services cfg)
  /\ exists data raw,
       ReadFile path = Ok data /\ yamlUnmarshal data = Ok raw
       /\ Forall2 (fun rs svc =>
                     duration_from (rawInterval rs) (30 * GoTime.Second) (Interval svc)
                     /\ duration_from (rawTimeout rs) (5 * GoTime.Second) (Timeout svc))
            (rawServices raw) (Services cfg).
Proof.
  unfold Load. intros Hload.
  destruct (ReadFile path) as [data|] eqn:Hread; [|discriminate].
  destruct (yamlUnmarshal data) as [raw|] eqn:Hyaml; [|discriminate].
  destruct (length (rawServices raw) =? 0)%nat; [discriminate|].
  destruct (loadServices 0 ∅ [] (rawServices raw)) as [svcs|] eqn:Hloop;
    simpl in Hload; [|discriminate].
  injection Hload as <-. simpl.
  apply loadServices_inv in Hloop as (new & -> & Hnd & Hall); simpl in *.
  - split; [done|]. split.
    + clear Hnd. induction Hall as [|rs svc rss new Hone _ IH]; constructor; [|done].
      destruct Hone as (_ & ? & _ & ? & _ & ? & _). auto.
    + exists data, raw. split_and!; [done..|].
      eapply Forall2_impl; [exact Hall|].
      intros rs svc (_ & _ & _ & _ & _ & _ & ? & ?). auto.
  - intros n Hin. by apply elem_of_nil in Hin.
  - constructor.
Qed.

(** *** What [Load] accepts *)

(** The duration a text stands for: the default when it is empty. *)
Definition durationOr (dflt : Duration) (text : string) : option Duration :=
  if decide (text = EmptyString) then Some dflt else GoTime.ParseDuration text.

(** The raw services that pass the checks of the loop, apart from the one
    on duplicates. *)
Definition acceptable (rs : rawService) : Prop :=
  rawName rs <> EmptyString /\ rawTarget rs <> EmptyString /\ rawType rs ∈ typeEnum
  /\ is_Some (durationOr (30 * GoTime.Second) (rawInterval rs))
  /\ is_Some (durationOr (5 * GoTime.Second) (rawTimeout rs)).

Definition accepted (raw : rawConfig) : Prop :=
  rawServices raw <> [] /\ Forall acceptable (rawServices raw)
  /\ NoDup (rawName <$> rawServices raw).

Lemma duration_from_Or (text : string) (dflt d : Duration) :
  duration_from text dflt d <-> durationOr dflt text = Some d.
Proof.
  unfold duration_from, durationOr. case_decide; split.
  - intros [[_ ->]|[? _]]; done.
  - intros [= <-]. by left.
  - intros [[? _]|[_ ?]]; done.
  - intros ?. by right.
Qed.

Lemma loaded_from_acceptable (rs : rawService) (svc : Service) :
  loaded_from rs svc -> acceptable rs.
Proof.
  intros (Hn & Hne & Ht & Hte & Hg & Hge & Hi & Ho). unfold acceptable.
  rewrite <- Hn, <- Ht, <- Hg. split_and!; try done.
  - apply duration_from_Or in Hi. by rewrite Hi.
  - apply duration_from_Or in Ho. by rewrite Ho.
Qed.

Lemma loadService_accepts (i : nat) (names : gmap string bool) (rs : rawService) :
  acceptable rs -> map_bool names (rawName rs) = false ->
  exists svc, loadService i names rs = Ok svc.
Proof.
  intros (Hn & Hg & Ht & [di Hi] & [dt Ho]) Hfresh. unfold loadService.
  rewrite decide_False by done. rewrite Hfresh. rewrite decide_False by done.
  apply validTypes_enum in Ht. rewrite Ht. simpl.
  unfold durationOr in Hi, Ho. unfold parseDuration.
  destruct (decide (rawInterval rs = "")); destruct (decide (rawTimeout rs = ""));
    rewrite ?Hi, ?Ho; simpl; eauto.
Qed.

Lemma loadServices_accepts (rss : list rawService) : forall i names acc,
  Forall acceptable rss -> NoDup (rawName <$> rss) ->
  (forall n, n ∈ rawName <$> rss -> map_bool names n = false) ->
  exists svcs, loadServices i names acc rss = Ok svcs.
Proof.
  induction rss as [|rs rest IH]; intros i names acc Hall Hnd Hfresh; simpl; [eauto|].
  apply Forall_cons in Hall as [Hrs Hall]. simpl in Hnd. apply NoDup_cons in Hnd as [Hnin Hnd].
  destruct (loadService_accepts i names rs Hrs) as [svc ->].
  { apply Hfresh. simpl. by left. }
  simpl. apply IH; [done..|].
  intros n Hin. unfold map_bool. rewrite lookup_insert_ne by (intros <-; done).
  apply Hfresh. simpl. by right.
Qed.

Lemma Forall2_loaded_names (rss : list rawService) (svcs : list Service) :
  Forall2 loaded_from rss svcs ->
  Name <$> svcs = rawName <$> rss /\ Type_ <$> svcs = rawType <$> rss
  /\ Target <$> svcs = rawTarget <$> rss.
Proof.
  induction 1 as [|rs svc rss svcs (Hn & _ & Ht & _ & Hg & _) _ (IH1 & IH2 & IH3)]; [done|].
  rewrite !fmap_cons. by rewrite Hn, Ht, Hg, IH1, IH2, IH3.
Qed.

(** What a successful [Load] was made of. *)
Lemma Load_inv (path : string) (cfg : Config) :
  Load ReadFile yamlUnmarshal path = Ok cfg ->
  exists data raw,
    ReadFile path = Ok data /\ yamlUnmarshal data = Ok raw
    /\ rawServices raw <> []
    /\ NoDup (Name <$> Services cfg)
    /\ Forall2 loaded_from (rawServices raw) (Services cfg)
    /\ Alerts cfg = rawAlerts raw
    /\ Address (Server cfg)
       = (if decide (Address (rawServer raw) = "") then ":8080" else Address (rawServer raw))
    /\ Path (Storage cfg)
       = (if decide (Path (rawStorage raw) = "") then "servprobe.db" else Path (rawStorage raw)).
Proof.
  unfold Load. intros Hload.
  destruct (ReadFile path) as [data|] eqn:Hread; [|discriminate].
  destruct (yamlUnmarshal data) as [raw|] eqn:Hyaml; [|discriminate].
  destruct (rawServices raw) as [|rs0 rss0] eqn:Hraw; [discriminate|].
  rewrite <- Hraw in *. replace (length (rawServices raw) =? 0)%nat with false in Hload
    by (by rewrite Hraw).
  destruct (loadServices 0 ∅ [] (rawServices raw)) as [svcs|] eqn:Hloop;
    simpl in Hload; [|discriminate].
  injection Hload as <-. simpl.
  apply loadServices_inv in Hloop as (new & -> & Hnd & Hall); simpl in *.
  - exists data, raw. split_and!; try done.
    + by rewrite Hraw.
    + by case_decide.
    + by case_decide.
  - intros n Hin. by apply elem_of_nil in Hin.
  - constructor.
Qed.

(** X1.  [Load] returns a configuration exactly when the file can be read
    and decoded and holds at least one service, every service has a name,
    a target, one of the four types and an interval and a timeout that are
    empty or parse as durations, and no two services share a name.  The
    configuration then has the services of the file in their order, with
    their names, types and targets. *)
Theorem Load_accepts_iff (path : string) :
  ((exists cfg, Load ReadFile yamlUnmarshal path = Ok cfg)
   <-> (exists data raw,
          ReadFile path = Ok data /\ yamlUnmarshal data = Ok raw /\ accepted raw))
  /\ (forall cfg data raw,
        Load ReadFile yamlUnmarshal path = Ok cfg ->
        ReadFile path = Ok data -> yamlUnmarshal data = Ok raw ->
        Name <$> Services cfg = rawName <$> rawServices raw
        /\ Type_ <$> Services cfg = rawType <$> rawServices raw
        /\ Target <$> Services cfg = rawTarget <$> rawServices raw).
Proof.
  split; [split|].
  - intros [cfg Hload].
    apply Load_inv in Hload as (data & raw & Hread & Hyaml & Hne & Hnd & Hall & _).
    exists data, raw. split; [done|]. split; [done|]. split; [done|]. split.
    + clear Hnd Hne. induction Hall as [|rs svc rss svcs Hone _ IH]; constructor; [|done].
      by eapply loaded_from_acceptable.
    + apply Forall2_loaded_names in Hall as (<- & _). done.
  - intros (data & raw & Hread & Hyaml & Hne & Hall & Hnd).
    unfold Load. rewrite Hread, Hyaml.
    destruct (rawServices raw) as [|rs0 rss0] eqn:Hraw; [done|]. rewrite <- Hraw in *.
    replace (length (rawServices raw) =? 0)%nat with false by (by rewrite Hraw).
    destruct (loadServices_accepts (rawServices raw) 0%nat ∅ [] Hall Hnd) as [svcs ->].
    { intros n _. unfold map_bool. by rewrite lookup_empty. }
    simpl. eauto.
  - intros cfg data raw Hload Hread Hyaml.
    apply Load_inv in Hload as (data' & raw' & Hread' & Hyaml' & _ & _ & Hall & _).
    rewrite Hread in Hread'. injection Hread' as <-.
    rewrite Hyaml in Hyaml'. injection Hyaml' as <-.
    by apply Forall2_loaded_names.
Qed.

End LoadProperties.

(** The example configuration of the README, after YAML decoding. *)
Definition readmeRaw : Config.rawConfig :=
  {| Config.rawServices :=
       [ {| Config.rawName := "api"; Config.rawType := "http";
            Config.rawTarget := "https://example.com/health";
            Config.rawInterval := "30s"; Config.rawTimeout := "5s";
            Config.rawExpectedStatus := 200; Config.rawHeaders := ∅ |};
         {| Config.rawName := "db"; Config.rawType := "tcp";
            Config.rawTarget := "db.example.com:5432";
            Config.rawInterval := "15s"; Config.rawTimeout := "";
            Config.rawExpectedStatus := 0; Config.rawHeaders := ∅ |} ];
     Config.rawAlerts :=
       {| Config.Webhook := {| Config.URL := "https://hooks.example.com/alert";
                               Config.Cooldown := 5 * GoTime.Minute |} |};
     Config.rawServer := {| Config.Address := "" |};
     Config.rawStorage := {| Config.Path := "" |} |}.

Lemma Load_services_valid_witness :
  exists cfg,
    @Config.Load plainFmt (fun _ => Ok EmptyString) (fun _ => Ok readmeRaw) "servprobe.yml"
      = Ok cfg
    /\ NoDup (Config.Name <$> Config.Services cfg)
    /\ (Config.Interval <$> Config.Services cfg) = [30 * GoTime.Second; 15 * GoTime.Second]
    /\ (Config.Timeout <$> Config.Services cfg) = [5 * GoTime.Second; 5 * GoTime.Second].
Proof.
  eexists. split; [vm_compute; reflexivity|].
  split; [|split; vm_compute; reflexivity].
  eapply (@Load_services_valid plainFmt (fun _ => Ok EmptyString) (fun _ => Ok readmeRaw)
            "servprobe.yml").
  vm_compute. reflexivity.
Defined.

(** A configuration whose only service asks for an interval of zero and a
    negative timeout. *)
Definition zeroIntervalRaw : Config.rawConfig :=
  {| Config.rawServices :=
       [ {| Config.rawName := "api"; Config.rawType := "http";
            Config.rawTarget := "https://example.com/health";
            Config.rawInterval := "0s"; Config.rawTimeout := "-5s";
            Config.rawExpectedStatus := 0; Config.rawHeaders := ∅ |} ];
     Config.rawAlerts :=
       {| Config.Webhook := {| Config.URL := ""; Config.Cooldown := 0 |} |};
     Config.rawServer := {| Config.Address := "" |};
     Config.rawStorage := {| Config.Path := "" |} |}.

(** C6 as stated fails: [Load] accepts the interval [0s] and the timeout
    [-5s], and returns a service whose interval and timeout are not
    positive. *)
Lemma Load_accepts_nonpositive_durations :
  exists cfg svc,
    @Config.Load plainFmt (fun _ => Ok EmptyString) (fun _ => Ok zeroIntervalRaw)
      "servprobe.yml" = Ok cfg
    /\ Config.Services cfg = [svc]
    /\ Config.Interval svc = 0
    /\ Config.Timeout svc = - 5 * GoTime.Second
    /\ ~ (0 < Config.Interval svc /\ 0 < Config.Timeout svc).
Proof.
  eexists. eexists. split; [vm_compute; reflexivity|].
  split; [reflexivity|]. simpl.
  split; [reflexivity|]. split; [reflexivity|]. lia.
Qed.

(** ** The regular expression of the ping checker *)
Section RegexProperties.
Import RttRegex.

Lemma sapp_nil_l (s : string) : EmptyString +:+ s = s.
Proof. reflexivity. Qed.

Lemma sapp_cons (c : ascii) (a b : string) : String c a +:+ b = String c (a +:+ b).
Proof. reflexivity. Qed.

Lemma sapp_nil_r (s : string) : s +:+ EmptyString = s.
Proof. induction s as [|c s IH]; [done|]. by rewrite sapp_cons, IH. Qed.

Lemma sapp_assoc (a b c : string) : (a +:+ b) +:+ c = a +:+ b +:+ c.
Proof. induction a as [|x a IH]; [done|]. by rewrite !sapp_cons, IH. Qed.

Lemma all_bytes_app p a b : all_bytes p a -> all_bytes p b -> all_bytes p (a +:+ b).
Proof.
  induction a as [|c a IH]; [done|]. rewrite sapp_cons. simpl. intros [? ?] ?. auto.
Qed.

(** [b] does not start with a byte that [p] accepts. *)
Definition stops (p : ascii -> bool) (b : string) : Prop :=
  match b with
  | String c _ => p c = false
  | EmptyString => True
  end.

Lemma span_spec p s : forall a b,
  span p s = (a, b) -> s = a +:+ b /\ all_bytes p a /\ stops p b.
Proof.
  induction s as [|c s IH]; simpl; intros a b Hs.
  - by injection Hs as <- <-.
  - destruct (p c) eqn:Hc.
    + destruct (span p s) as [a' b'] eqn:Hrec. injection Hs as <- <-.
      destruct (IH _ _ eq_refl) as (-> & ? & ?). rewrite sapp_cons. simpl. auto.
    + injection Hs as <- <-. simpl. auto.
Qed.

Lemma span_app p a b : all_bytes p a -> stops p b -> span p (a +:+ b) = (a, b).
Proof.
  induction a as [|c a IH]; intros Ha Hb.
  - rewrite sapp_nil_l. destruct b as [|c b]; [done|]. simpl in *. by rewrite Hb.
  - rewrite sapp_cons. simpl in *. destruct Ha as [-> Ha]. by rewrite IH.
Qed.

Lemma strip_prefix_spec p : forall s r, strip_prefix p s = Some r -> s = p +:+ r.
Proof.
  induction p as [|a p IH]; intros s r; simpl.
  - intros [= <-]. reflexivity.
  - destruct s as [|b s]; [discriminate|].
    case_decide; [|discriminate]. subst. intros Hr. rewrite sapp_cons. f_equal. auto.
Qed.

Lemma strip_prefix_app p s : strip_prefix p (p +:+ s) = Some s.
Proof.
  induction p as [|a p IH]; [by destruct s|].
  rewrite sapp_cons. simpl. by rewrite decide_True.
Qed.

Lemma space_not_digit c : is_space c = true -> is_digit c = false.
Proof. destruct c as [[] [] [] [] [] [] [] []]; vm_compute; congruence. Qed.

Lemma stops_digit_tail ws post :
  all_bytes is_space ws -> stops is_digit (ws +:+ "ms" +:+ post).
Proof.
  destruct ws as [|c ws]; [done|]. rewrite sapp_cons. simpl.
  intros [? _]. by apply space_not_digit.
Qed.

Lemma take_dot_nodot ws post :
  all_bytes is_space ws ->
  take_dot (ws +:+ "ms" +:+ post) = (EmptyString, ws +:+ "ms" +:+ post).
Proof.
  destruct ws as [|c ws]; [done|]. rewrite sapp_cons. simpl. intros [Hc _].
  case_decide; [|done]. subst. vm_compute in Hc. discriminate.
Qed.

(** At a position where the pattern can match, the preferred choices
    match, and group 1 is the same whatever choices are made. *)
Lemma match_here_complete d1 dot d2 ws post :
  d1 <> EmptyString -> all_bytes is_digit d1 ->
  dot = "." \/ dot = EmptyString ->
  all_bytes is_digit d2 -> all_bytes is_space ws ->
  match_here ("time=" +:+ d1 +:+ dot +:+ d2 +:+ ws +:+ "ms" +:+ post)
  = Some (d1 +:+ dot +:+ d2).
Proof.
  intros Hne Hd1 Hdot Hd2 Hws. unfold match_here.
  rewrite strip_prefix_app.
  pose proof (stops_digit_tail ws post Hws) as Hstop.
  assert (Hsp : span is_space (ws +:+ "ms" +:+ post) = (ws, "ms" +:+ post))
    by (by apply span_app).
  destruct Hdot as [-> | ->].
  - rewrite (span_app is_digit d1) by done. cbv beta iota.
    rewrite decide_False by done. rewrite sapp_cons, sapp_nil_l. simpl take_dot.
    cbv beta iota.
    rewrite (span_app is_digit d2) by done. cbv beta iota.
    rewrite Hsp. cbv beta iota. by rewrite strip_prefix_app.
  - rewrite sapp_nil_l, <- sapp_assoc.
    rewrite (span_app is_digit (d1 +:+ d2)) by (by try apply all_bytes_app).
    cbv beta iota.
    rewrite decide_False by (by apply append_nonempty_l).
    rewrite take_dot_nodot by done. cbv beta iota.
    pose proof (span_app is_digit EmptyString _ I Hstop) as Hd0.
    rewrite sapp_nil_l in Hd0. rewrite Hd0. cbv beta iota.
    rewrite Hsp. cbv beta iota. rewrite strip_prefix_app. by rewrite sapp_nil_r.
Qed.

Lemma match_here_sound s g : match_here s = Some g -> Matches s g.
Proof.
  unfold match_here. intros Hm.
  destruct (strip_prefix "time=" s) as [s1|] eqn:Hp; [|discriminate].
  apply strip_prefix_spec in Hp as ->.
  destruct (span is_digit s1) as [d1 s2] eqn:H1.
  apply span_spec in H1 as (-> & Hd1 & _).
  case_decide as Hne; [discriminate|].
  destruct (take_dot s2) as [dot s3] eqn:Hdot.
  destruct (span is_digit s3) as [d2 s4] eqn:H2.
  apply span_spec in H2 as (-> & Hd2 & _).
  destruct (span is_space s4) as [ws s5] eqn:H3.
  apply span_spec in H3 as (-> & Hws & _).
  destruct (strip_prefix "ms" s5) as [post|] eqn:H4; [|discriminate].
  apply strip_prefix_spec in H4 as ->. injection Hm as <-.
  exists EmptyString, d1, dot, d2, ws, post. rewrite sapp_nil_l.
  assert (Hd : (dot = "." \/ dot = EmptyString) /\ s2 = dot +:+ d2 +:+ ws +:+ "ms" +:+ post).
  { destruct s2 as [|c r]; simpl in Hdot.
    - injection Hdot as <- <-. auto.
    - case_decide; injection Hdot as <- <-; subst; auto. }
  destruct Hd as [Hd ->]. auto 10.
Qed.

Lemma FindSubmatch_sound s : forall g, FindSubmatch s = Some g -> Matches s g.
Proof.
  induction s as [|c s IH]; intros g; simpl.
  - discriminate.
  - destruct (match_here (String c s)) eqn:Hm.
    + intros [= <-]. by apply match_here_sound.
    + intros Hf. apply IH in Hf as (pre & d1 & dot & d2 & ws & post & -> & Hrest).
      exists (String c pre), d1, dot, d2, ws, post. by rewrite sapp_cons.
Qed.

Lemma FindSubmatch_here s g : match_here s = Some g -> FindSubmatch s = Some g.
Proof.
  intros Hm. destruct s as [|c s]; [vm_compute in Hm; discriminate|].
  unfold FindSubmatch; fold FindSubmatch. by rewrite Hm.
Qed.

Lemma FindSubmatch_complete s g : Matches s g -> exists g', FindSubmatch s = Some g'.
Proof.
  intros (pre & d1 & dot & d2 & ws & post & -> & Hne & Hd1 & Hdot & Hd2 & Hws & _).
  induction pre as [|c pre IH].
  - rewrite sapp_nil_l. exists (d1 +:+ dot +:+ d2).
    by apply FindSubmatch_here, match_here_complete.
  - rewrite sapp_cons. simpl. destruct (match_here _); eauto.
Qed.

(** [FindSubmatch] finds a match exactly on the texts that contain one. *)
Lemma FindSubmatch_None s : FindSubmatch s = None <-> ~ exists g, Matches s g.
Proof.
  split.
  - intros Hn [g Hg]. apply FindSubmatch_complete in Hg as [g' Hg']. congruence.
  - intros Hn. destruct (FindSubmatch s) as [g|] eqn:Hf; [|done].
    exfalso. apply Hn. exists g. by apply FindSubmatch_sound.
Qed.

End RegexProperties.

(** ** float64: how far a rounded value is from the exact one *)

(** The integer nearest to [num / den], ties to the even one: the
    mantissa [round_q] computes once the exponent is fixed. *)
Definition nearest (num den : Z) : Z :=
  let q := num / den in
  let r := num mod den in
  if 2 * r <? den then q
  else if den <? 2 * r then q + 1
  else if Z.even q then q else q + 1.

Lemma nearest_bound num den : 0 < den -> 2 * Z.abs (nearest num den * den - num) <= den.
Proof.
  intros Hd. unfold nearest.
  pose proof (Z.div_mod num den ltac:(lia)) as Hdm.
  pose proof (Z.mod_pos_bound num den Hd) as Hr.
  destruct (2 * (num mod den) <? den) eqn:H1; [apply Z.ltb_lt in H1; nia|].
  apply Z.ltb_ge in H1.
  destruct (den <? 2 * (num mod den)) eqn:H2; [apply Z.ltb_lt in H2; nia|].
  apply Z.ltb_ge in H2.
  destruct (Z.even (num / den)); nia.
Qed.

Lemma round_q_small (n d : Z) :
  0 < n -> 0 < d -> n < 2 ^ 51 * d ->
  exists e, e < 0 /\ -1074 <= e
    /\ F64.round_q n d = F64.Fin (nearest (n * 2 ^ (- e)) d) e
    /\ (e = -1074 \/ 2 ^ 51 * d <= n * 2 ^ (- e)).
Proof.
  intros Hn Hd Hlt. unfold F64.round_q.
  destruct (n <=? 0) eqn:Hn0; [apply Z.leb_le in Hn0; lia|].
  destruct (Z.log2_spec n Hn) as [Ha1 Ha2].
  destruct (Z.log2_spec d Hd) as [Hb1 Hb2].
  pose proof (Z.log2_nonneg n) as Ha0. pose proof (Z.log2_nonneg d) as Hb0.
  set (a := Z.log2 n) in *. set (b := Z.log2 d) in *.
  rewrite <- Z.add_1_r in Ha2, Hb2.
  assert (Hk : a - b <= 51).
  { destruct (Z_le_gt_dec (a - b) 51) as [|Hgt]; [done|exfalso].
    assert (2 ^ (52 + b) <= 2 ^ a) by (apply Z.pow_le_mono_r; lia).
    rewrite Z.pow_add_r in H by lia. rewrite Z.pow_add_r in Hb2 by lia. lia. }
  set (k := a - b) in *.
  set (e1 := Z.max (k - 52) (-1074)).
  assert (He1 : e1 < 0) by lia.
  assert (He1b : -1074 <= e1) by lia.
  destruct (e1 <? 0) eqn:He1'; [|apply Z.ltb_ge in He1'; lia].
  set (q1 := n * 2 ^ (- e1) / d).
  set (e := if q1 <? 2 ^ 52 then Z.max (e1 - 1) (-1074) else e1).
  assert (He : e < 0 /\ -1074 <= e /\ e <= e1) by (unfold e; destruct (q1 <? 2 ^ 52); lia).
  destruct He as (He & Heb & Hee).
  destruct (e <? 0) eqn:He'; [|apply Z.ltb_ge in He'; lia].
  exists e. split; [done|]. split; [done|]. split.
  - replace ((971 <? e) || (e =? 971) && _) with false; [reflexivity|].
    symmetry. apply Bool.orb_false_iff. split; [apply Z.ltb_ge; lia|].
    apply Bool.andb_false_iff. left. apply Z.eqb_neq. lia.
  - destruct (Z.eq_dec e (-1074)) as [|Hne]; [by left|right].
    assert (Hek : e <= k - 52) by lia.
    assert (Hpow : 2 ^ (52 - k) <= 2 ^ (- e)) by (apply Z.pow_le_mono_r; lia).
    assert (Hab : 2 ^ (52 - k) * 2 ^ a = 2 ^ 51 * 2 ^ (b + 1)).
    { rewrite <- !Z.pow_add_r by lia. f_equal. lia. }
    nia.
Qed.

Lemma nearest_nonneg num den : 0 <= num -> 0 < den -> 0 <= nearest num den.
Proof.
  intros Hn Hd. unfold nearest.
  pose proof (Z.div_pos num den Hn Hd).
  repeat match goal with |- context [if ?c then _ else _] => destruct c end; lia.
Qed.

Lemma pow2_pos e : 0 < 2 ^ e \/ e < 0.
Proof. destruct (Z_lt_dec e 0); [by right|left]. apply Z.pow_pos_nonneg; lia. Qed.

(** The response time of a ping of [n / D] milliseconds, below 2^50ns, is
    less than 2ns away from it: two roundings to float64 and one
    truncation. *)
Lemma rtt_accuracy (n D : Z) :
  0 <= n -> 0 < D -> n * 10 ^ 6 < 2 ^ 50 * D ->
  let r := Checker.rttDuration (F64.round_q n D) in
  n * 10 ^ 6 - 2 * D < r * D < n * 10 ^ 6 + D.
Proof.
  intros Hn HD Hlt. unfold Checker.rttDuration.
  change (F64.of_Z GoTime.Millisecond) with (F64.Fin (10 ^ 6 * 2 ^ 33) (-33)).
  destruct (Z.eq_dec n 0) as [->|Hn0].
  { change (F64.round_q 0 D) with (F64.Fin 0 0).
    replace (F64.to_int64 _) with 0 by (vm_compute; reflexivity). lia. }
  destruct (round_q_small n D ltac:(lia) HD ltac:(lia)) as (e1 & He1 & He1b & -> & Hbig).
  set (E1 := 2 ^ (- e1)) in *.
  assert (HE1pos : 0 < E1) by (apply Z.pow_pos_nonneg; lia).
  pose proof (nearest_bound (n * E1) D HD) as HA.
  pose proof (nearest_nonneg (n * E1) D ltac:(nia) HD) as Hq1.
  set (q1 := nearest (n * E1) D) in *.
  assert (HE1 : 2 * 10 ^ 6 < E1).
  { destruct Hbig as [-> | Hbig].
    - unfold E1. change (- -1074) with 1074.
      assert (2 ^ 21 <= 2 ^ 1074) by (apply Z.pow_le_mono_r; lia). lia.
    - nia. }
  unfold F64.mul. destruct (e1 + -33 <? 0) eqn:Hneg; [|apply Z.ltb_ge in Hneg; lia].
  replace (2 ^ (- (e1 + -33))) with (E1 * 2 ^ 33)
    by (unfold E1; rewrite <- Z.pow_add_r by lia; f_equal; lia).
  destruct (Z.eq_dec q1 0) as [Hz|Hq1nz].
  - rewrite Hz. change (F64.round_q (0 * _) _) with (F64.Fin 0 0).
    change (F64.to_int64 (F64.Fin 0 0)) with 0. nia.
  - destruct (round_q_small (q1 * (10 ^ 6 * 2 ^ 33)) (E1 * 2 ^ 33)
                ltac:(nia) ltac:(nia) ltac:(nia)) as (e2 & He2 & He2b & -> & _).
    set (E2 := 2 ^ (- e2)) in *.
    assert (HE2 : 2 <= E2).
    { unfold E2. change 2 with (2 ^ 1) at 1. apply Z.pow_le_mono_r; lia. }
    pose proof (nearest_bound (q1 * (10 ^ 6 * 2 ^ 33) * E2) (E1 * 2 ^ 33) ltac:(nia)) as HB.
    set (q2 := nearest (q1 * (10 ^ 6 * 2 ^ 33) * E2) (E1 * 2 ^ 33)) in *.
    unfold F64.to_int64, F64.trunc.
    destruct (e2 <? 0) eqn:He2'; [|apply Z.ltb_ge in He2'; lia].
    fold E2.
    pose proof (Z.div_mod q2 E2 ltac:(lia)) as Hdm.
    pose proof (Z.mod_pos_bound q2 E2 ltac:(lia)) as Hmod.
    set (r := q2 / E2) in *.
    assert (HB1 : 2 * (q2 * E1) <= 2 * (q1 * 10 ^ 6 * E2) + E1) by nia.
    assert (HB2 : 2 * (q1 * 10 ^ 6 * E2) <= 2 * (q2 * E1) + E1) by nia.
    assert (HA1 : 2 * (q1 * D) <= 2 * (n * E1) + D) by lia.
    assert (HA2 : 2 * (n * E1) <= 2 * (q1 * D) + D) by lia.
    assert (HC1 : E2 * r <= q2) by lia.
    assert (HC2 : q2 + 1 <= E2 * r + E2) by lia.
    assert (Hkey : 10 ^ 6 * E2 + E1 < 2 * (E1 * E2)) by nia.
    clear HB HA Hdm Hmod Hbig He2' Hneg.
    assert (Hres : n * 10 ^ 6 - 2 * D < r * D < n * 10 ^ 6 + D).
    { assert (HEE : 0 < E1 * E2) by nia.
      pose proof (Z.mul_le_mono_nonneg_l _ _ (4 * (D * E1)) ltac:(nia) HC1) as U1.
      pose proof (Z.mul_le_mono_nonneg_l _ _ (2 * D) ltac:(lia) HB1) as U2.
      pose proof (Z.mul_le_mono_nonneg_l _ _ (2 * (10 ^ 6 * E2)) ltac:(nia) HA1) as U3.
      pose proof (Z.mul_le_mono_nonneg_l _ _ (4 * (D * E1)) ltac:(nia) HC2) as L1.
      pose proof (Z.mul_le_mono_nonneg_l _ _ (2 * D) ltac:(lia) HB2) as L2.
      pose proof (Z.mul_le_mono_nonneg_l _ _ (2 * (10 ^ 6 * E2)) ltac:(nia) HA2) as L3.
      pose proof (proj1 (Z.mul_lt_mono_pos_l (2 * D) _ _ ltac:(lia)) Hkey) as K.
      change (10 ^ 6) with 1000000 in *.
      split.
      - apply Z.mul_lt_mono_pos_r with (p := 4 * (E1 * E2)); [lia|]. lia.
      - apply Z.mul_lt_mono_pos_r with (p := 4 * (E1 * E2)); [lia|]. lia. }
    destruct (r <? 2 ^ 63) eqn:Hr; [done|].
    apply Z.ltb_ge in Hr. nia.
Qed.

Lemma nearest_exact (a d : Z) : 0 < d -> nearest (a * d) d = a.
Proof.
  intros Hd. unfold nearest. rewrite Z.div_mul, Z.mod_mul by lia.
  destruct (2 * 0 <? d) eqn:Hlt; [done|]. apply Z.ltb_ge in Hlt. lia.
Qed.

(** A whole number of milliseconds below 2^50ns is converted exactly. *)
Lemma rtt_exact_whole (n : Z) :
  0 <= n -> n * 10 ^ 6 < 2 ^ 50 ->
  Checker.rttDuration (F64.round_q n 1) = n * 10 ^ 6.
Proof.
  intros Hn Hlt. unfold Checker.rttDuration.
  change (F64.of_Z GoTime.Millisecond) with (F64.Fin (10 ^ 6 * 2 ^ 33) (-33)).
  destruct (Z.eq_dec n 0) as [->|Hn0]; [vm_compute; reflexivity|].
  destruct (round_q_small n 1 ltac:(lia) ltac:(lia) ltac:(lia)) as (e1 & He1 & _ & -> & _).
  set (E1 := 2 ^ (- e1)) in *.
  assert (HE1 : 0 < E1) by (apply Z.pow_pos_nonneg; lia).
  replace (n * E1) with ((n * E1) * 1) by lia. rewrite nearest_exact by lia.
  unfold F64.mul. destruct (e1 + -33 <? 0) eqn:Hneg; [|apply Z.ltb_ge in Hneg; lia].
  replace (2 ^ (- (e1 + -33))) with (E1 * 2 ^ 33)
    by (unfold E1; rewrite <- Z.pow_add_r by lia; f_equal; lia).
  destruct (round_q_small (n * E1 * (10 ^ 6 * 2 ^ 33)) (E1 * 2 ^ 33)
              ltac:(nia) ltac:(nia) ltac:(nia)) as (e2 & He2 & _ & -> & _).
  set (E2 := 2 ^ (- e2)) in *.
  assert (HE2 : 0 < E2) by (apply Z.pow_pos_nonneg; lia).
  replace (n * E1 * (10 ^ 6 * 2 ^ 33) * E2) with ((n * 10 ^ 6 * E2) * (E1 * 2 ^ 33)) by ring.
  rewrite nearest_exact by nia.
  unfold F64.to_int64, F64.trunc.
  destruct (e2 <? 0) eqn:He2'; [|apply Z.ltb_ge in He2'; lia].
  fold E2. rewrite Z.div_mul by lia.
  destruct (n * 10 ^ 6 <? 2 ^ 63) eqn:Hr; [done|]. apply Z.ltb_ge in Hr. lia.
Qed.

(** *** The timeout of a ping in whole seconds *)

Lemma nearest_le (a c d : Z) : 0 < d -> a <= c * d -> nearest a d <= c.
Proof.
  intros Hd Hle. unfold nearest.
  pose proof (Z.div_mod a d ltac:(lia)) as Hdm.
  pose proof (Z.mod_pos_bound a d Hd) as Hr.
  assert (Hq : a / d <= c) by nia.
  destruct (2 * (a mod d) <? d) eqn:H1; [done|]. apply Z.ltb_ge in H1.
  assert (a / d < c) by nia.
  destruct (d <? 2 * (a mod d)); [lia|]. destruct (Z.even (a / d)); lia.
Qed.

Lemma pow2_ge_1 (e : Z) : e <= 0 -> 1 <= 2 ^ (- e).
Proof. intros He. change 1 with (2 ^ 0). apply Z.pow_le_mono_r; lia. Qed.

(** The conversion of an integer below 2^51 is exact. *)
Lemma of_Z_exact (n : Z) :
  0 <= n -> n < 2 ^ 51 ->
  exists e, e <= 0 /\ F64.of_Z n = F64.Fin (n * 2 ^ (- e)) e /\ (0 < n -> e < 0).
Proof.
  intros Hn Hlt. unfold F64.of_Z.
  destruct (Z.eq_dec n 0) as [->|Hn0]; [exists 0; split_and!; [done|done|lia]|].
  destruct (round_q_small n 1 ltac:(lia) ltac:(lia) ltac:(lia)) as (e & He & _ & -> & _).
  exists e. split; [lia|]. split; [|done].
  replace (n * 2 ^ (- e)) with ((n * 2 ^ (- e)) * 1) at 1 by lia.
  by rewrite nearest_exact.
Qed.

(** The float64 nearest to [a / 10^9] for a number of nanoseconds below a
    second: a mantissa [q] over [2^-e] with at least 51 binary digits
    after the point. *)
Lemma div_nanoseconds (a : Z) :
  0 < a -> a < 10 ^ 9 ->
  exists q e,
    F64.div (F64.of_Z a) (F64.of_Z (10 ^ 9)) = F64.Fin q e
    /\ e < 0 /\ 2 ^ 51 <= 2 ^ (- e)
    /\ 2 * Z.abs (q * 10 ^ 9 - a * 2 ^ (- e)) <= 10 ^ 9.
Proof.
  intros Ha Hlt.
  destruct (of_Z_exact a ltac:(lia) ltac:(lia)) as (ea & Hea & -> & _).
  change (F64.of_Z (10 ^ 9)) with (F64.Fin (10 ^ 9 * 2 ^ 23) (-23)).
  set (Ea := 2 ^ (- ea)).
  assert (HEa : 1 <= Ea) by (by apply pow2_ge_1).
  assert (Hgen : forall K, 0 < K ->
            exists q e, F64.round_q (a * K) (10 ^ 9 * K) = F64.Fin q e
              /\ e < 0 /\ 2 ^ 51 <= 2 ^ (- e)
              /\ 2 * Z.abs (q * 10 ^ 9 - a * 2 ^ (- e)) <= 10 ^ 9).
  { intros K HK.
    destruct (round_q_small (a * K) (10 ^ 9 * K) ltac:(nia) ltac:(nia) ltac:(nia))
      as (e & He & Heb & -> & Hbig).
    exists (nearest (a * K * 2 ^ (- e)) (10 ^ 9 * K)), e.
    split; [done|]. split; [done|].
    set (E := 2 ^ (- e)) in *.
    assert (HE : 0 < E) by (apply Z.pow_pos_nonneg; lia).
    split.
    - destruct Hbig as [-> | Hbig].
      + unfold E. apply Z.pow_le_mono_r; lia.
      + assert (a * K * E <= 10 ^ 9 * K * E) by (apply Z.mul_le_mono_nonneg_r; nia).
        apply Z.mul_le_mono_pos_l with (p := 10 ^ 9 * K); [nia|lia].
    - pose proof (nearest_bound (a * K * E) (10 ^ 9 * K) ltac:(nia)) as Hb.
      set (q := nearest (a * K * E) (10 ^ 9 * K)) in *.
      replace (q * (10 ^ 9 * K) - a * K * E) with ((q * 10 ^ 9 - a * E) * K) in Hb by ring.
      rewrite Z.abs_mul, (Z.abs_eq K) in Hb by lia. nia. }
  unfold F64.div. destruct (ea - -23 <? 0) eqn:Hneg.
  - apply Z.ltb_lt in Hneg.
    replace (10 ^ 9 * 2 ^ 23 * 2 ^ (- (ea - -23))) with (10 ^ 9 * Ea).
    + apply Hgen. lia.
    + unfold Ea. replace (- ea) with (23 + - (ea - -23)) by lia.
      rewrite Z.pow_add_r by lia. ring.
  - apply Z.ltb_ge in Hneg.
    replace (a * Ea * 2 ^ (ea - -23)) with (a * 2 ^ 23).
    + apply Hgen. lia.
    + unfold Ea. rewrite <- Z.mul_assoc, <- Z.pow_add_r by lia. do 2 f_equal. lia.
Qed.

(** The ceiling of a float64 with a negative exponent. *)
Lemma ceil_between (q E c : Z) :
  0 < E -> (c - 1) * E < q -> q <= c * E -> - ((- q) / E) = c.
Proof.
  intros HE Hlo Hhi.
  pose proof (Z.div_mod (- q) E ltac:(lia)) as Hdm.
  pose proof (Z.mod_pos_bound (- q) E HE) as Hr. nia.
Qed.

(** [math.Ceil(d.Seconds())] is the ceiling of [d / 10^9] for a positive
    duration below 2^22 seconds. *)
Lemma ceil_div_nanoseconds (sec nsec : Z) :
  0 <= nsec < 10 ^ 9 ->
  (10 ^ 9 * sec + nsec + 10 ^ 9 - 1) / 10 ^ 9 = (if decide (nsec = 0) then sec else sec + 1).
Proof.
  intros Hn. symmetry. case_decide.
  - apply Z.div_unique with (r := 10 ^ 9 - 1); lia.
  - apply Z.div_unique with (r := nsec - 1); lia.
Qed.

Lemma ceilSeconds_exact (d : Z) :
  0 < d -> d < 2 ^ 22 * 10 ^ 9 ->
  Checker.ceilSeconds d = (d + 10 ^ 9 - 1) / 10 ^ 9.
Proof.
  intros Hd Hlt. unfold Checker.ceilSeconds.
  destruct (d <=? 0) eqn:Hd0; [apply Z.leb_le in Hd0; lia|].
  change GoTime.Second with (10 ^ 9).
  pose proof (Z.div_mod d (10 ^ 9) ltac:(lia)) as Hdm.
  pose proof (Z.mod_pos_bound d (10 ^ 9) ltac:(lia)) as Hmod.
  set (sec := d / 10 ^ 9) in *. set (nsec := d mod 10 ^ 9) in *.
  assert (Hsec : 0 <= sec < 2 ^ 22) by nia.
  replace (d + 10 ^ 9 - 1) with (10 ^ 9 * sec + nsec + 10 ^ 9 - 1) by lia.
  rewrite ceil_div_nanoseconds by done.
  destruct (of_Z_exact sec ltac:(lia) ltac:(lia)) as (e1 & He1 & -> & Hz1).
  set (E1 := 2 ^ (- e1)).
  assert (HE1 : 1 <= E1) by (by apply pow2_ge_1).
  destruct (decide (nsec = 0)) as [Hn0|Hn0].
  - (* a whole number of seconds *)
    rewrite Hn0. change (F64.div (F64.of_Z 0) (F64.of_Z (10 ^ 9))) with (F64.Fin 0 0).
    assert (He1' : e1 < 0) by (apply Hz1; lia).
    cbv beta iota. rewrite Z.min_l by lia.
    destruct (e1 <? 0) eqn:Hneg; [|apply Z.ltb_ge in Hneg; lia].
    replace (sec * E1 * 2 ^ (e1 - e1) + 0 * 2 ^ (0 - e1)) with (sec * E1)
      by (rewrite Z.sub_diag; change (2 ^ 0) with 1; lia).
    fold E1.
    destruct (round_q_small (sec * E1) E1 ltac:(nia) ltac:(lia) ltac:(nia))
      as (e3 & He3 & _ & -> & _).
    destruct (e3 <? 0) eqn:Hneg3; [|apply Z.ltb_ge in Hneg3; lia].
    set (E3 := 2 ^ (- e3)).
    assert (HE3 : 0 < E3) by (apply Z.pow_pos_nonneg; lia).
    replace (sec * E1 * E3) with ((sec * E3) * E1) by ring.
    rewrite nearest_exact by lia. apply ceil_between; lia.
  - (* a fraction of a second is left *)
    destruct (div_nanoseconds nsec ltac:(lia) ltac:(lia)) as (q2 & e2 & -> & He2 & HE2 & Hq2).
    set (E2 := 2 ^ (- e2)) in *.
    assert (Hq2lo : E2 - 5 * 10 ^ 8 <= q2 * 10 ^ 9) by nia.
    assert (Hq2hi : q2 < E2) by nia.
    assert (Hq2pos : 0 < q2) by nia.
    cbv beta iota. set (e := Z.min e1 e2).
    assert (He : e < 0 /\ e <= e1 /\ e <= e2) by lia. destruct He as (He & Hee1 & Hee2).
    destruct (e <? 0) eqn:Hneg; [|apply Z.ltb_ge in Hneg; lia].
    set (E := 2 ^ (- e)). set (A1 := 2 ^ (e1 - e)). set (A2 := 2 ^ (e2 - e)).
    assert (HA1 : E1 * A1 = E)
      by (unfold E1, A1, E; rewrite <- Z.pow_add_r by lia; f_equal; lia).
    assert (HA2 : E2 * A2 = E)
      by (unfold E2, A2, E; rewrite <- Z.pow_add_r by lia; f_equal; lia).
    assert (HA2pos : 0 < A2) by (apply Z.pow_pos_nonneg; lia).
    assert (HEpos : 0 < E) by (apply Z.pow_pos_nonneg; lia).
    replace (sec * E1 * A1 + q2 * A2) with (sec * E + q2 * A2) by (rewrite <- HA1; ring).
    set (N := sec * E + q2 * A2).
    assert (Hq2A2 : 0 < q2 * A2) by (apply Z.mul_pos_pos; lia).
    assert (Hq2A2' : q2 * A2 < E2 * A2) by (apply Z.mul_lt_mono_pos_r; lia).
    assert (HsecE : 0 <= sec * E) by (apply Z.mul_nonneg_nonneg; lia).
    assert (HsecE' : (sec + 1) * E <= 2 ^ 22 * E) by (apply Z.mul_le_mono_nonneg_r; lia).
    assert (HNlo : sec * E < N) by (unfold N; lia).
    assert (HNhi : N < (sec + 1) * E) by (unfold N; lia).
    destruct (round_q_small N E ltac:(lia) ltac:(lia) ltac:(lia))
      as (e3 & He3 & _ & -> & Hbig).
    destruct (e3 <? 0) eqn:Hneg3; [|apply Z.ltb_ge in Hneg3; lia].
    set (E3 := 2 ^ (- e3)) in *.
    assert (HE3pos : 0 < E3) by (apply Z.pow_pos_nonneg; lia).
    assert (HE3 : 2 ^ 29 < E3).
    { destruct Hbig as [He3' | Hbig].
      - unfold E3. rewrite He3'. apply Z.pow_lt_mono_r; lia.
      - assert (HNE3 : N * E3 < 2 ^ 22 * E * E3) by (apply Z.mul_lt_mono_pos_r; lia).
        apply Z.mul_lt_mono_pos_l with (p := 2 ^ 22 * E); lia. }
    pose proof (nearest_bound (N * E3) E HEpos) as Hb.
    assert (HNE3le : N * E3 <= (sec + 1) * E3 * E).
    { assert (N * E3 <= (sec + 1) * E * E3) by (apply Z.mul_le_mono_nonneg_r; lia). lia. }
    pose proof (nearest_le (N * E3) ((sec + 1) * E3) E HEpos HNE3le) as Hup.
    set (q3 := nearest (N * E3) E) in *.
    apply ceil_between; [lia| |done].
    replace (sec + 1 - 1) with sec by lia.
    assert (Hkey : E2 < 2 * (q2 * E3)).
    { apply Z.mul_lt_mono_pos_r with (p := 10 ^ 9); [lia|].
      assert (H1 : (E2 - 5 * 10 ^ 8) * (2 * E3) <= q2 * 10 ^ 9 * (2 * E3))
        by (apply Z.mul_le_mono_nonneg_r; lia).
      assert (H2 : (E2 - 5 * 10 ^ 8) * (2 * (2 ^ 29 + 1)) <= (E2 - 5 * 10 ^ 8) * (2 * E3))
        by (apply Z.mul_le_mono_nonneg_l; lia).
      lia. }
    apply Z.mul_lt_mono_pos_r with (p := 2 * E); [lia|].
    assert (H3 : A2 * E2 < A2 * (2 * (q2 * E3))) by (apply Z.mul_lt_mono_pos_l; lia).
    unfold N in Hb. lia.
Qed.

(** ** The checkers *)
Section CheckerProperties.
Import Config Checker.
Context `{GoFmt}.

Lemma append_nonempty_r (a b : string) : b <> EmptyString -> a +:+ b <> EmptyString.
Proof. destruct a; [by rewrite sapp_nil_l | discriminate]. Qed.

Lemma url_Error_msg_nonempty (e : url_Error) : url_Error_msg e <> EmptyString.
Proof. unfold url_Error_msg. apply append_nonempty_r. by apply append_nonempty_l. Qed.

Lemma Up_not_Down : StatusUp <> StatusDown.
Proof. discriminate. Qed.

(** The variant a checker belongs to, by the name of its service type. *)
Definition variant (c : Checker) : string :=
  match c with
  | httpChecker _ _ => "http"
  | tcpChecker _ => "tcp"
  | pingChecker _ _ => "ping"
  | dockerChecker _ _ => "docker"
  end.

Lemma New_known (svc : Service) :
  Type_ svc ∈ typeEnum -> exists c, New svc = Ok c /\ variant c = Type_ svc.
Proof.
  unfold typeEnum, New. rewrite !elem_of_cons, elem_of_nil.
  intros [Ht|[Ht|[Ht|[Ht|[]]]]]; rewrite Ht; simpl; eauto.
Qed.

Lemma New_unknown (svc : Service) :
  Type_ svc ∉ typeEnum -> New svc = Err ("unknown checker type " +:+ fmt_q (Type_ svc)).
Proof.
  unfold typeEnum, New. rewrite !elem_of_cons, elem_of_nil. intros Hn.
  repeat case_decide; try done; exfalso; apply Hn; auto 10.
Qed.

(** *** HTTP *)

(** [expected_status], with 0 standing for 200. *)
Definition expectedStatus (svc : Service) : Z :=
  if ExpectedStatus svc =? 0 then 200 else ExpectedStatus svc.

Definition httpRequest (svc : Service) : Request :=
  {| Method := "GET"; ReqURL := Target svc; ReqHeader := Headers svc |}.

(** The request is constructed, the transport succeeds, and the status
    code is the expected one. *)
Definition http_succeeds (w : World) (svc : Service) (timeout : GoTime.Duration) : Prop :=
  http_NewRequest w "GET" (Target svc) = None
  /\ exists resp,
       http_Do w DefaultTransport timeout (httpRequest svc) = DoResp resp
       /\ StatusCode resp = expectedStatus svc.

(** The two ways an HTTP check ends. *)
Lemma httpCheck_cases (w : World) (svc : Service) (timeout : GoTime.Duration) :
  let r := httpCheck w svc timeout in
  (http_succeeds w svc timeout
   /\ Status_ r = StatusUp /\ Checker.Error r = EmptyString)
  \/ (~ http_succeeds w svc timeout
      /\ Status_ r = StatusDown /\ Checker.Error r <> EmptyString).
Proof.
  unfold httpCheck, http_succeeds, expectedStatus, httpRequest.
  destruct (http_NewRequest w "GET" (Target svc)) as [err|]; simpl.
  - right. split; [intros [? _]; discriminate|].
    split; [done|]. by apply append_nonempty_l.
  - destruct (http_Do w DefaultTransport timeout _) as [resp|err]; simpl.
    + destruct (StatusCode resp =? _) eqn:Hcode; simpl.
      * apply Z.eqb_eq in Hcode. left. split_and!; eauto.
      * apply Z.eqb_neq in Hcode. right.
        split; [intros [_ (resp' & [= <-] & ?)]; done|].
        split; [done|]. by apply append_nonempty_l.
    + right. split; [intros [_ (resp' & ? & _)]; discriminate|].
      split; [done|]. apply url_Error_msg_nonempty.
Qed.

(** C9.  An HTTP check is Up exactly when the request is constructed, the
    transport succeeds and the status code of the response is
    [expected_status], 0 read as 200; it is Down with a non-empty error in
    every other case, and Up comes with an empty error. *)
Theorem httpCheck_up_iff (w : World) (svc : Service) (timeout : GoTime.Duration) :
  let r := httpCheck w svc timeout in
  (Status_ r = StatusUp <-> http_succeeds w svc timeout)
  /\ (Status_ r = StatusUp /\ Checker.Error r = EmptyString
      \/ Status_ r = StatusDown /\ Checker.Error r <> EmptyString).
Proof.
  intros r. destruct (httpCheck_cases w svc timeout) as [(Hs & Hup & He)|(Hn & Hdown & He)];
    fold r in Hup || fold r in Hdown; fold r in He.
  - split; [|by left]. split; [done|]. by intros _.
  - split; [|by right]. split; [|done].
    rewrite Hdown. intros Hup. exfalso. by apply Up_not_Down.
Qed.

(** *** The failure modes of the four variants *)
Inductive Fails (w : World) : Checker -> Prop :=
| fails_http_request svc timeout err :
    http_NewRequest w "GET" (Target svc) = Some err ->
    Fails w (httpChecker svc timeout)
| fails_http_transport svc timeout err :
    http_Do w DefaultTransport timeout (httpRequest svc) = DoError err ->
    Fails w (httpChecker svc timeout)
| fails_http_status svc timeout resp :
    http_Do w DefaultTransport timeout (httpRequest svc) = DoResp resp ->
    StatusCode resp <> expectedStatus svc ->
    Fails w (httpChecker svc timeout)
| fails_tcp_dial svc err :
    net_Dial w (Timeout svc) "tcp" (Target svc) = Some err ->
    Fails w (tcpChecker svc)
| fails_ping_command svc executor stdout stderr err :
    Run w executor "ping" (pingArgs w svc) = (stdout, stderr, Some err) ->
    Fails w (pingChecker svc executor)
| fails_ping_output svc executor stdout stderr :
    Run w executor "ping" (pingArgs w svc) = (stdout, stderr, None) ->
    (~ exists g, RttRegex.Matches stdout g) ->
    Fails w (pingChecker svc executor)
| fails_docker_client svc client state err :
    InspectContainer w client (Target svc) = (state, Some err) ->
    Fails w (dockerChecker svc client)
| fails_docker_stopped svc client state :
    InspectContainer w client (Target svc) = (Some state, None) ->
    Running state = false ->
    Fails w (dockerChecker svc client).

(** What [dockerChecker.Check] relies on in an injected client: an error
    has a message, and success comes with a state. *)
Definition client_contract (c : Checker) : Prop :=
  match c with
  | dockerChecker _ (customDockerClient inspect) =>
      forall name,
        match inspect name with
        | (_, Some err) => err <> EmptyString
        | (None, None) => False
        | (Some _, None) => True
        end
  | _ => True
  end.

Lemma unixInspectContainer_contract (w : World) timeout name :
  match unixInspectContainer w timeout name with
  | (_, Some err) => err <> EmptyString
  | (None, None) => False
  | (Some _, None) => True
  end.
Proof.
  unfold unixInspectContainer.
  destruct (http_NewRequest w "GET" _); [by apply append_nonempty_l|].
  destruct (http_Do w _ _ _) as [resp|err]; [|by apply append_nonempty_l].
  destruct (StatusCode resp =? 404); [by apply append_nonempty_l|].
  destruct (StatusCode resp =? 200); simpl; [|by apply append_nonempty_l].
  destruct (json_Decode w (Body resp)); [done|by apply append_nonempty_l].
Qed.

Lemma InspectContainer_contract (w : World) svc client :
  client_contract (dockerChecker svc client) ->
  forall name,
    match InspectContainer w client name with
    | (_, Some err) => err <> EmptyString
    | (None, None) => False
    | (Some _, None) => True
    end.
Proof.
  destruct client as [timeout|inspect]; simpl; intros Hc name; [|apply Hc].
  apply unixInspectContainer_contract.
Qed.

Lemma New_client_contract (svc : Service) (c : Checker) :
  New svc = Ok c -> client_contract c.
Proof.
  unfold New. repeat case_decide; intros [= <-]; exact I.
Qed.

(** [Check] returns for a checker that keeps the contract. *)
Lemma Check_total (w : World) (c : Checker) :
  client_contract c -> exists r, Check w c = Returns r.
Proof.
  intros Hc. destruct c as [svc timeout|svc|svc executor|svc client]; simpl; eauto.
  unfold dockerCheck.
  pose proof (InspectContainer_contract w svc client Hc (Target svc)) as Hi.
  destruct (InspectContainer w client (Target svc)) as [[state|] [err|]];
    try done; eauto.
  destruct (Running state); simpl; eauto.
Qed.

(** *** Ping *)

Lemma decimal_of_group (s g : string) :
  RttRegex.Matches s g -> exists n k, Strconv.decimal g = Some (n, k).
Proof.
  intros (pre & d1 & dot & d2 & ws & post & _ & Hne & Hd1 & Hdot & Hd2 & _ & ->).
  unfold Strconv.decimal. destruct Hdot as [-> | ->].
  - rewrite (span_app is_digit d1) by done. cbv beta iota.
    rewrite decide_False by done. rewrite sapp_cons, sapp_nil_l.
    pose proof (span_app is_digit d2 EmptyString Hd2 I) as Hs.
    rewrite sapp_nil_r in Hs. rewrite Hs. cbv beta iota.
    rewrite decide_True by done. eauto.
  - rewrite sapp_nil_l.
    pose proof (span_app is_digit (d1 +:+ d2) EmptyString
                  (all_bytes_app _ _ _ Hd1 Hd2) I) as Hs.
    rewrite sapp_nil_r in Hs. rewrite Hs. cbv beta iota.
    rewrite decide_False by (by apply append_nonempty_l). eauto.
Qed.

Lemma digits_nonneg (s : string) :
  RttRegex.all_bytes is_digit s -> forall acc, 0 <= acc -> 0 <= Strconv.digits acc s.
Proof.
  induction s as [|c s IH]; simpl; [done|]. intros [Hc Hs] acc Hacc.
  apply IH; [done|]. unfold is_digit in Hc. unfold digit_val.
  apply andb_true_iff in Hc as [Hlo _]. apply Z.leb_le in Hlo. lia.
Qed.

Lemma decimal_nonneg (g : string) (n k : Z) :
  Strconv.decimal g = Some (n, k) -> 0 <= n /\ 0 <= k.
Proof.
  unfold Strconv.decimal.
  destruct (RttRegex.span is_digit g) as [d1 r] eqn:H1.
  apply span_spec in H1 as (_ & Hd1 & _).
  case_decide; [discriminate|].
  destruct r as [|c r']; [intros [= <- <-]; split; [by apply digits_nonneg|done]|].
  destruct (decide (c = "."%char)) as [->|Hc].
  - destruct (RttRegex.span is_digit r') as [d2 r''] eqn:H2.
    apply span_spec in H2 as (_ & Hd2 & _).
    case_decide; [|discriminate]. intros [= <- <-]. split; [|lia].
    apply digits_nonneg; [done|]. by apply digits_nonneg.
  - intros Hd. exfalso. revert Hd.
    destruct c as [[] [] [] [] [] [] [] []]; try discriminate. by destruct Hc.
Qed.

(** The three ways a ping check ends, by what the command returned. *)
Lemma pingCheck_cases (w : World) (svc : Service) (executor : CommandExecutor) :
  let r := pingCheck w svc executor in
  match Run w executor "ping" (pingArgs w svc) with
  | (_, _, Some _) => Status_ r = StatusDown /\ Checker.Error r <> EmptyString
  | (stdout, _, None) =>
      match RttRegex.FindSubmatch stdout with
      | Some g =>
          Status_ r = StatusUp /\ Checker.Error r = EmptyString
          /\ ResponseTime r = rttDuration (Strconv.ParseFloat g).1
      | None => Status_ r = StatusDown /\ Checker.Error r <> EmptyString
      end
  end.
Proof.
  unfold pingCheck.
  destruct (Run w executor "ping" (pingArgs w svc)) as [[stdout stderr] [err|]]; simpl.
  - split; [done|]. by apply append_nonempty_l.
  - destruct (RttRegex.FindSubmatch stdout) as [g|]; simpl; [|done].
    by destruct (Strconv.ParseFloat g).
Qed.

(** C8, as the code has it.  When the command returns an error the result
    is Down with a non-empty error, whatever it printed.  When it returns
    without error and its output contains a match of the pattern, the
    result is Up with an empty error, and the response time is the number
    of group 1 of the leftmost match, read as float64 milliseconds and
    converted to a Duration; the elapsed time on the clock does not enter,
    and for a round-trip time below 2^50ns the response time is less than
    2ns away from the number the output names, and equal to it when the
    number has no fraction.  When it returns without
    error and the output contains no match, the result is Down with a
    non-empty error. *)
Theorem pingCheck_rtt (w : World) (svc : Service) (executor : CommandExecutor) :
  let r := pingCheck w svc executor in
  (forall stdout stderr err,
     Run w executor "ping" (pingArgs w svc) = (stdout, stderr, Some err) ->
     Status_ r = StatusDown /\ Checker.Error r <> EmptyString)
  /\ (forall stdout stderr,
        Run w executor "ping" (pingArgs w svc) = (stdout, stderr, None) ->
        (exists g, RttRegex.Matches stdout g) ->
        exists g n k,
          RttRegex.FindSubmatch stdout = Some g /\ RttRegex.Matches stdout g
          /\ Strconv.decimal g = Some (n, k)
          /\ Status_ r = StatusUp /\ Checker.Error r = EmptyString
          /\ ResponseTime r = rttDuration (F64.round_q n (10 ^ k))
          /\ (n * 10 ^ 6 < 2 ^ 50 * 10 ^ k ->
              n * 10 ^ 6 - 2 * 10 ^ k < ResponseTime r * 10 ^ k < n * 10 ^ 6 + 10 ^ k)
          /\ (k = 0 -> n * 10 ^ 6 < 2 ^ 50 -> ResponseTime r = n * 10 ^ 6))
  /\ (forall stdout stderr,
        Run w executor "ping" (pingArgs w svc) = (stdout, stderr, None) ->
        (~ exists g, RttRegex.Matches stdout g) ->
        Status_ r = StatusDown /\ Checker.Error r <> EmptyString).
Proof.
  intros r. pose proof (pingCheck_cases w svc executor) as Hcases. fold r in Hcases.
  split; [|split].
  - intros stdout stderr err Hrun. by rewrite Hrun in Hcases.
  - intros stdout stderr Hrun [g0 Hg0]. rewrite Hrun in Hcases.
    apply FindSubmatch_complete in Hg0 as [g Hg]. rewrite Hg in Hcases.
    pose proof (FindSubmatch_sound _ _ Hg) as Hm.
    destruct (decimal_of_group _ _ Hm) as (n & k & Hdec).
    destruct (decimal_nonneg _ _ _ Hdec) as [Hn Hk].
    destruct Hcases as (Hup & He & Hrt).
    unfold Strconv.ParseFloat in Hrt. rewrite Hdec in Hrt. simpl in Hrt.
    exists g, n, k. split_and!; try done.
    + intros Hsmall. rewrite Hrt. apply rtt_accuracy; [done| |done].
      by apply Z.pow_pos_nonneg.
    + intros -> Hsmall. rewrite Hrt. by apply rtt_exact_whole.
  - intros stdout stderr Hrun Hno. rewrite Hrun in Hcases.
    apply FindSubmatch_None in Hno. by rewrite Hno in Hcases.
Qed.

(** *** All four variants *)

(** C7.  A checker whose client keeps the contract (every checker the
    factory makes does) returns a result from [Check] and does not panic;
    the error of the result is empty exactly when its status is Up; the
    status is Down exactly when one of the failure modes occurred, and Up
    otherwise. *)
Theorem Check_error_iff_up (w : World) (c : Checker) :
  (forall svc, New svc = Ok c -> client_contract c)
  /\ (client_contract c ->
      exists r,
        Check w c = Returns r
        /\ (Checker.Error r = EmptyString <-> Status_ r = StatusUp)
        /\ (Fails w c -> Status_ r = StatusDown /\ Checker.Error r <> EmptyString)
        /\ (~ Fails w c -> Status_ r = StatusUp)).
Proof.
  split; [intros svc; apply New_client_contract|].
  intros Hc. destruct c as [svc timeout|svc|svc executor|svc client]; simpl.
  - (* http *)
    eexists. split; [reflexivity|].
    assert (Hf : Fails w (httpChecker svc timeout) <-> ~ http_succeeds w svc timeout).
    { split.
      - intros Hf [Hreq (resp & Hdo & Hcode)]. inversion Hf; subst; congruence.
      - intros Hn. destruct (http_NewRequest w "GET" (Target svc)) as [err|] eqn:Hreq.
        + eapply fails_http_request; eauto.
        + destruct (http_Do w DefaultTransport timeout (httpRequest svc)) as [resp|err] eqn:Hdo.
          * eapply fails_http_status; eauto. intros Hcode. apply Hn.
            unfold http_succeeds. rewrite Hreq. eauto.
          * eapply fails_http_transport; eauto. }
    destruct (httpCheck_cases w svc timeout) as [(Hs & Hup & He)|(Hn & Hdown & He)].
    + split; [by rewrite He, Hup|]. split; [|done].
      intros Hfail. apply Hf in Hfail. done.
    + split; [split; [done|rewrite Hdown; discriminate]|]. split; [done|].
      intros Hnf. exfalso. apply Hnf, Hf. done.
  - (* tcp *)
    eexists. split; [reflexivity|]. unfold tcpCheck.
    destruct (net_Dial w (Timeout svc) "tcp" (Target svc)) as [err|] eqn:Hdial; simpl.
    + assert (He : "dial tcp " +:+ Target svc +:+ ": " +:+ err <> EmptyString)
        by (by apply append_nonempty_l).
      split; [split; [done|discriminate]|]. split; [done|].
      intros Hn. exfalso. apply Hn. eapply fails_tcp_dial; eauto.
    + split; [done|]. split; [|done]. intros Hf. inversion Hf; subst. congruence.
  - (* ping *)
    eexists. split; [reflexivity|].
    pose proof (pingCheck_cases w svc executor) as Hcases. simpl in Hcases.
    destruct (Run w executor "ping" (pingArgs w svc)) as [[stdout stderr] [err|]] eqn:Hrun.
    + destruct Hcases as [Hd He].
      split; [split; [done|rewrite Hd; discriminate]|]. split; [done|].
      intros Hn. exfalso. apply Hn. eapply fails_ping_command; eauto.
    + destruct (RttRegex.FindSubmatch stdout) as [g|] eqn:Hfind.
      * destruct Hcases as (Hup & He & _).
        split; [by rewrite He, Hup|]. split; [|done].
        intros Hf. inversion Hf; subst; rewrite Hrun in *; simplify_eq.
        exfalso. eauto using FindSubmatch_sound.
      * destruct Hcases as [Hd He]. apply FindSubmatch_None in Hfind.
        split; [split; [done|rewrite Hd; discriminate]|]. split; [done|].
        intros Hn. exfalso. apply Hn. eapply fails_ping_output; eauto.
  - (* docker *)
    unfold dockerCheck.
    pose proof (InspectContainer_contract w svc client Hc (Target svc)) as Hi.
    destruct (InspectContainer w client (Target svc)) as [state [err|]] eqn:Hins.
    + assert (He : err <> EmptyString) by (by destruct state).
      eexists. split; [reflexivity|]. simpl.
      split; [split; [done|discriminate]|]. split; [done|].
      intros Hn. exfalso. apply Hn. eapply fails_docker_client; eauto.
    + destruct state as [state|]; [|done].
      destruct (Running state) eqn:Hrun; simpl.
      * eexists. split; [reflexivity|]. simpl. split; [done|]. split; [|done].
        intros Hf. inversion Hf; subst; rewrite Hins in *; simplify_eq. congruence.
      * eexists. split; [reflexivity|]. simpl.
        assert (He : "container " +:+ fmt_q (Target svc) +:+ " is not running" <> EmptyString)
          by (by apply append_nonempty_l).
        split; [split; [done|discriminate]|]. split; [done|].
        intros Hn. exfalso. apply Hn. eapply fails_docker_stopped; eauto.
Qed.

(** *** What every result carries *)

(** The service a checker was made for. *)
Definition service_of (c : Checker) : Service :=
  match c with
  | httpChecker svc _ => svc
  | tcpChecker svc => svc
  | pingChecker svc _ => svc
  | dockerChecker svc _ => svc
  end.

Lemma New_service_of (svc : Service) (c : Checker) : New svc = Ok c -> service_of c = svc.
Proof. unfold New. repeat case_decide; intros [= <-]; reflexivity. Qed.

(** X2.  The result a checker returns names the service the checker was
    made for (the configured one, for a checker of the factory), is stamped
    with the time at which the probe started, and has the status Up or
    Down, never another text.  Its response time is the time elapsed on
    the clock since the start, except for a ping that is Up, whose
    response time is read from the output of the command. *)
Theorem Check_result_fields (w : World) (c : Checker) (r : CheckResult) :
  Check w c = Returns r ->
  ServiceName r = Name (service_of c)
  /\ (forall svc, New svc = Ok c -> ServiceName r = Name svc)
  /\ CheckedAt r = time_Now w
  /\ (Status_ r = StatusUp \/ Status_ r = StatusDown)
  /\ (variant c <> "ping" \/ Status_ r = StatusDown ->
      ResponseTime r = time_Since w (time_Now w)).
Proof.
  intros Hr.
  assert (Hgoal : ServiceName r = Name (service_of c)
                  /\ CheckedAt r = time_Now w
                  /\ (Status_ r = StatusUp \/ Status_ r = StatusDown)
                  /\ (variant c <> "ping" \/ Status_ r = StatusDown ->
                      ResponseTime r = time_Since w (time_Now w))).
  { destruct c as [svc timeout|svc|svc executor|svc client]; simpl in Hr.
    - injection Hr as <-. unfold httpCheck.
      destruct (http_NewRequest w "GET" (Target svc)); simpl; [by auto|].
      destruct (http_Do w DefaultTransport timeout _) as [resp|err]; simpl; [|by auto].
      destruct (StatusCode resp =? _); simpl; by auto.
    - injection Hr as <-. unfold tcpCheck.
      destruct (net_Dial w (Timeout svc) "tcp" (Target svc)); simpl; by auto.
    - injection Hr as <-. unfold pingCheck.
      destruct (Run w executor "ping" (pingArgs w svc)) as [[stdout stderr] [err|]]; simpl;
        [by auto|].
      destruct (RttRegex.FindSubmatch stdout) as [g|]; simpl; [|by auto].
      destruct (Strconv.ParseFloat g). simpl. split_and!; try done; [by left|].
      intros [Hv|Hd]; [done|discriminate].
    - unfold dockerCheck in Hr.
      destruct (InspectContainer w client (Target svc)) as [state [err|]].
      + injection Hr as <-. simpl. by auto.
      + destruct state as [state|]; [|discriminate].
        destruct (Running state); simpl in Hr; injection Hr as <-; simpl; by auto. }
  destruct Hgoal as (Hname & Hat & Hst & Hrt). split_and!; try done.
  intros svc Hnew. apply New_service_of in Hnew. by rewrite Hname, Hnew.
Qed.

(** X3.  The command ping is run for one packet with the timeout of the
    service rounded up to whole seconds, and with one second when the
    timeout is zero or negative; the option is [-t] on darwin and [-W]
    elsewhere.  The rounding is exact for every timeout below 2^22
    seconds; it goes through float64, and for longer timeouts the fraction
    of a second can be lost. *)
Theorem pingArgs_timeout (w : World) (svc : Service) :
  Timeout svc < 2 ^ 22 * GoTime.Second ->
  pingArgs w svc
  = ["-c"; "1"; (if decide (GOOS w = "darwin") then "-t" else "-W");
     fmt_d (Z.max 1 ((Timeout svc + GoTime.Second - 1) / GoTime.Second)); Target svc].
Proof.
  intros Hlt. unfold pingArgs. change GoTime.Second with (10 ^ 9) in *.
  set (d := Timeout svc) in *.
  assert (Hsec : (if ceilSeconds d <? 1 then 1 else ceilSeconds d)
                 = Z.max 1 ((d + 10 ^ 9 - 1) / 10 ^ 9)).
  { destruct (Z_le_gt_dec d 0) as [Hle|Hgt].
    - assert (Hq : ceilSeconds d <= 0).
      { unfold ceilSeconds. rewrite (proj2 (Z.leb_le d 0)) by done.
        change GoTime.Second with (10 ^ 9).
        pose proof (Z.quot_le_mono d 0 (10 ^ 9) ltac:(lia) Hle) as Hq.
        by rewrite Z.quot_0_l in Hq. }
      assert (Hc : (d + 10 ^ 9 - 1) / 10 ^ 9 < 1)
        by (apply Z.div_lt_upper_bound; lia).
      rewrite (proj2 (Z.ltb_lt _ 1)) by lia. lia.
    - rewrite ceilSeconds_exact by lia.
      assert (Hc : 1 <= (d + 10 ^ 9 - 1) / 10 ^ 9)
        by (apply Z.div_le_lower_bound; lia).
      rewrite (proj2 (Z.ltb_ge _ 1)) by lia. lia. }
  rewrite Hsec. by case_decide.
Qed.

(** *** Docker through the socket of the daemon *)

Definition dockerURL (name : string) : string :=
  "http://localhost/containers/" +:+ name +:+ "/json".

(** The daemon answers the inspection of the container [name] with
    [resp]. *)
Definition docker_answers (w : World) (timeout : GoTime.Duration) (name : string)
  (resp : Response) : Prop :=
  http_NewRequest w "GET" (dockerURL name) = None
  /\ http_Do w (UnixSocket dockerSockPath timeout) timeout
       {| Method := "GET"; ReqURL := dockerURL name; ReqHeader := ∅ |} = DoResp resp.

(** X4.  A Docker check through the client of the repository returns a
    result and never panics.  The result is Up exactly when the daemon
    answers the inspection of the target with status 200 and a body that
    decodes to a running container.  An answer with status 404 is reported
    as the container not found and any other status than 200 with its
    number, without decoding the body; a body that does not decode and a
    container that does not run are reported as such. *)
Theorem dockerCheck_unix (w : World) (svc : Service) (timeout : GoTime.Duration) :
  exists r,
    dockerCheck w svc (unixDockerClient timeout) = Returns r
    /\ (Status_ r = StatusUp
        <-> exists resp,
              docker_answers w timeout (Target svc) resp /\ StatusCode resp = 200
              /\ json_Decode w (Body resp) = Ok {| Running := true |})
    /\ (forall resp,
          docker_answers w timeout (Target svc) resp ->
          (StatusCode resp = 404 ->
           Checker.Error r = "container " +:+ fmt_q (Target svc) +:+ " not found")
          /\ (StatusCode resp <> 404 -> StatusCode resp <> 200 ->
              Checker.Error r = "docker API returned status " +:+ fmt_d (StatusCode resp))
          /\ (StatusCode resp = 200 -> forall err,
              json_Decode w (Body resp) = Err err ->
              Checker.Error r = "decoding docker response: " +:+ err)
          /\ (StatusCode resp = 200 ->
              json_Decode w (Body resp) = Ok {| Running := false |} ->
              Checker.Error r
              = "container " +:+ fmt_q (Target svc) +:+ " is not running")).
Proof.
  unfold dockerCheck, InspectContainer, unixInspectContainer, docker_answers.
  fold (dockerURL (Target svc)).
  destruct (http_NewRequest w "GET" (dockerURL (Target svc))) as [err|]; simpl.
  { eexists. split; [reflexivity|]. simpl. split.
    - split; [discriminate|]. intros (resp & [? _] & _). discriminate.
    - intros resp [? _]. discriminate. }
  destruct (http_Do w _ timeout _) as [resp|err]; simpl.
  2:{ eexists. split; [reflexivity|]. simpl. split.
      - split; [discriminate|]. intros (resp & [_ ?] & _). discriminate.
      - intros resp [_ ?]. discriminate. }
  destruct (StatusCode resp =? 404) eqn:H404; simpl.
  { apply Z.eqb_eq in H404. eexists. split; [reflexivity|]. simpl. split.
    - split; [discriminate|]. intros (resp' & [_ [= <-]] & ? & _). lia.
    - intros resp' [_ [= <-]]. split_and!; intros; first [done | lia | congruence]. }
  apply Z.eqb_neq in H404.
  destruct (StatusCode resp =? 200) eqn:H200; simpl.
  2:{ apply Z.eqb_neq in H200. eexists. split; [reflexivity|]. simpl. split.
      - split; [discriminate|]. intros (resp' & [_ [= <-]] & ? & _). lia.
      - intros resp' [_ [= <-]]. split_and!; intros; first [done | lia | congruence]. }
  apply Z.eqb_eq in H200.
  destruct (json_Decode w (Body resp)) as [[running]|err] eqn:Hdec; simpl.
  - destruct running; simpl.
    + eexists. split; [reflexivity|]. simpl. split.
      * split; [|done]. intros _. exists resp. done.
      * intros resp' [_ [= <-]]. split_and!; intros; first [done | lia | congruence].
    + eexists. split; [reflexivity|]. simpl. split.
      * split; [discriminate|]. intros (resp' & [_ [= <-]] & _ & Hd).
        rewrite Hdec in Hd. discriminate.
      * intros resp' [_ [= <-]]. split_and!; intros; first [done | lia | congruence].
  - eexists. split; [reflexivity|]. simpl. split.
    + split; [discriminate|]. intros (resp' & [_ [= <-]] & _ & Hd).
      rewrite Hdec in Hd. discriminate.
    + intros resp' [_ [= <-]]. split_and!; intros; first [done | lia | congruence].
Qed.

End CheckerProperties.

(** ** The checkers on the inputs of the test suite *)

(** A world in which every operation succeeds: the network answers 200,
    the container runs, and 42ms pass on the clock during a probe. *)
Definition calmWorld : Checker.World :=
  {| Checker.time_Now := 0;
     Checker.time_Since := fun _ => 42 * GoTime.Millisecond;
     Checker.GOOS := "linux";
     Checker.http_NewRequest := fun _ _ => None;
     Checker.http_Do := fun _ _ _ =>
       Checker.DoResp {| Checker.StatusCode := 200; Checker.Body := EmptyString |};
     Checker.net_Dial := fun _ _ _ => None;
     Checker.cmd_Output := fun _ _ => (EmptyString, None);
     Checker.json_Decode := fun _ => Ok {| Checker.Running := true |} |}.

Definition pingService : Config.Service :=
  {| Config.Name := "test-ping"; Config.Type_ := "ping"; Config.Target := "127.0.0.1";
     Config.Interval := 0; Config.Timeout := 5 * GoTime.Second;
     Config.ExpectedStatus := 0; Config.Headers := ∅ |}.

(** The executor of the tests: it returns what it was made with. *)
Definition mockExecutor (stdout : string) (err : option error) : Checker.CommandExecutor :=
  Checker.customExecutor (fun _ _ => (stdout, EmptyString, err)).

Definition pingOf (stdout : string) (err : option error) : Checker.CheckResult :=
  @Checker.pingCheck plainFmt calmWorld pingService (mockExecutor stdout err).

Example pingArgs_linux :
  @Checker.pingArgs plainFmt calmWorld pingService = ["-c"; "1"; "-W"; "5"; "127.0.0.1"].
Proof. vm_compute. reflexivity. Qed.

Example ping_rtt_integer :
  let r := pingOf "64 bytes from 127.0.0.1: icmp_seq=1 ttl=64 time=5 ms" None in
  Checker.Status_ r = Checker.StatusUp
  /\ Checker.ResponseTime r = 5 * GoTime.Millisecond.
Proof. vm_compute. split; reflexivity. Qed.

Example ping_rtt_decimal :
  let r := pingOf "64 bytes from 127.0.0.1: icmp_seq=1 ttl=64 time=12.345 ms" None in
  Checker.Status_ r = Checker.StatusUp /\ Checker.ResponseTime r = 12345000.
Proof. vm_compute. split; reflexivity. Qed.

Example ping_rtt_leftmost :
  let r := pingOf "time=0.123 ms, then time=7 ms" None in
  Checker.Status_ r = Checker.StatusUp /\ Checker.ResponseTime r = 123000.
Proof. vm_compute. split; reflexivity. Qed.

Example ping_malformed :
  let r := pingOf "some unexpected output without time field" None in
  Checker.Status_ r = Checker.StatusDown
  /\ Checker.Error r = "could not parse RTT from ping output"
  /\ Checker.ResponseTime r = 42 * GoTime.Millisecond.
Proof. vm_compute. repeat split. Qed.

Example ping_failed :
  let r := pingOf "PING 192.0.2.1 (192.0.2.1) 56(84) bytes of data." (Some "exit status 1") in
  Checker.Status_ r = Checker.StatusDown
  /\ Checker.Error r = "ping 127.0.0.1: exit status 1".
Proof. vm_compute. repeat split. Qed.

Lemma pingCheck_rtt_witness :
  let stdout := "64 bytes from 127.0.0.1: icmp_seq=1 ttl=64 time=12.345 ms" in
  let r := pingOf stdout None in
  exists g n k,
    RttRegex.FindSubmatch stdout = Some g /\ RttRegex.Matches stdout g
    /\ Strconv.decimal g = Some (n, k)
    /\ Checker.Status_ r = Checker.StatusUp /\ Checker.Error r = EmptyString
    /\ Checker.ResponseTime r = Checker.rttDuration (F64.round_q n (10 ^ k))
    /\ (n * 10 ^ 6 < 2 ^ 50 * 10 ^ k ->
        n * 10 ^ 6 - 2 * 10 ^ k < Checker.ResponseTime r * 10 ^ k < n * 10 ^ 6 + 10 ^ k)
    /\ (k = 0 -> n * 10 ^ 6 < 2 ^ 50 -> Checker.ResponseTime r = n * 10 ^ 6).
Proof.
  intros stdout r.
  apply (proj1 (proj2 (@pingCheck_rtt plainFmt calmWorld pingService
                         (mockExecutor stdout None))) stdout EmptyString).
  - reflexivity.
  - exists "12.345". apply FindSubmatch_sound. vm_compute. reflexivity.
Defined.

(** C8 as stated fails twice.  A command that printed a round-trip time
    and then returned an error gives Down, although its output matches the
    pattern.  And the output [time=1.001 ms] gives 1000999ns, one
    nanosecond less than the 1.001ms it names: the product of the float64
    nearest to 1.001 and 1e6 lies below 1001000 and is truncated. *)
Lemma pingCheck_matching_output_not_up :
  (let stdout := "64 bytes from 127.0.0.1: icmp_seq=1 ttl=64 time=5 ms" in
   let r := pingOf stdout (Some "signal: killed") in
   (exists g, RttRegex.Matches stdout g)
   /\ Checker.Status_ r = Checker.StatusDown
   /\ Checker.Status_ r <> Checker.StatusUp)
  /\ (let stdout := "64 bytes from 127.0.0.1: icmp_seq=1 ttl=64 time=1.001 ms" in
      let r := pingOf stdout None in
      RttRegex.FindSubmatch stdout = Some "1.001"
      /\ Checker.Status_ r = Checker.StatusUp
      /\ Checker.ResponseTime r = 1000999
      /\ 1000 * Checker.ResponseTime r <> 1001 * GoTime.Millisecond).
Proof.
  split.
  - split; [|split; [vm_compute; reflexivity | vm_compute; discriminate]].
    exists "5". apply FindSubmatch_sound. vm_compute. reflexivity.
  - split; [vm_compute; reflexivity|]. split; [vm_compute; reflexivity|].
    split; [vm_compute; reflexivity|]. vm_compute. discriminate.
Qed.

Definition httpService : Config.Service :=
  {| Config.Name := "myapi"; Config.Type_ := "http";
     Config.Target := "https://example.com/health";
     Config.Interval := 30 * GoTime.Second; Config.Timeout := 5 * GoTime.Second;
     Config.ExpectedStatus := 0; Config.Headers := ∅ |}.

(** The network answers every request with the status [code]. *)
Definition answering (code : Z) : Checker.World :=
  {| Checker.time_Now := 0;
     Checker.time_Since := fun _ => 42 * GoTime.Millisecond;
     Checker.GOOS := "linux";
     Checker.http_NewRequest := fun _ _ => None;
     Checker.http_Do := fun _ _ _ =>
       Checker.DoResp {| Checker.StatusCode := code; Checker.Body := EmptyString |};
     Checker.net_Dial := fun _ _ _ => None;
     Checker.cmd_Output := fun _ _ => (EmptyString, None);
     Checker.json_Decode := fun _ => Ok {| Checker.Running := false |} |}.

Example http_default_expected_200 :
  Checker.Status_ (@Checker.httpCheck plainFmt (answering 200) httpService 5) = Checker.StatusUp
  /\ Checker.ResponseTime (@Checker.httpCheck plainFmt (answering 200) httpService 5)
     = 42 * GoTime.Millisecond.
Proof. vm_compute. split; reflexivity. Qed.

Example http_unexpected_503 :
  let r := @Checker.httpCheck plainFmt (answering 503) httpService 5 in
  Checker.Status_ r = Checker.StatusDown
  /\ Checker.Error r = "expected status 200, got 503".
Proof. vm_compute. split; reflexivity. Qed.

Example docker_stopped :
  @Checker.Check plainFmt (answering 200)
    (Checker.dockerChecker pingService (Checker.unixDockerClient 5))
  = Checker.Returns
      {| Checker.ServiceName := "test-ping"; Checker.Status_ := Checker.StatusDown;
         Checker.ResponseTime := 42 * GoTime.Millisecond;
         Checker.Error := "container " +:+ dquote +:+ "127.0.0.1" +:+ dquote +:+ " is not running";
         Checker.CheckedAt := 0 |}.
Proof. vm_compute. reflexivity. Qed.

Example docker_not_found :
  exists r,
    @Checker.Check plainFmt (answering 404)
      (Checker.dockerChecker pingService (Checker.unixDockerClient 5)) = Checker.Returns r
    /\ Checker.Status_ r = Checker.StatusDown
    /\ Checker.Error r = "container " +:+ dquote +:+ "127.0.0.1" +:+ dquote +:+ " not found".
Proof. eexists. vm_compute. repeat split. Qed.

(** An injected Docker client that answers neither a state nor an error
    makes [Check] panic; [client_contract] excludes it. *)
Example docker_nil_state_panics :
  @Checker.Check plainFmt calmWorld
    (Checker.NewDockerCheckerWithClient pingService
       (Checker.customDockerClient (fun _ => (None, None)))) = Checker.Panics.
Proof. reflexivity. Qed.

Lemma Check_error_iff_up_witness :
  let c := Checker.dockerChecker pingService (Checker.unixDockerClient (5 * GoTime.Second)) in
  exists r,
    @Checker.Check plainFmt (answering 200) c = Checker.Returns r
    /\ (Checker.Error r = EmptyString <-> Checker.Status_ r = Checker.StatusUp)
    /\ (@Fails plainFmt (answering 200) c ->
        Checker.Status_ r = Checker.StatusDown /\ Checker.Error r <> EmptyString)
    /\ (~ @Fails plainFmt (answering 200) c -> Checker.Status_ r = Checker.StatusUp).
Proof.
  intros c. apply (proj2 (@Check_error_iff_up plainFmt (answering 200) c)). exact I.
Defined.

(** The result of a TCP probe in the calm world. *)
Lemma Check_result_fields_witness :
  let svc :=
    {| Config.Name := "db"; Config.Type_ := "tcp"; Config.Target := "db.example.com:5432";
       Config.Interval := 15 * GoTime.Second; Config.Timeout := 5 * GoTime.Second;
       Config.ExpectedStatus := 0; Config.Headers := ∅ |} in
  let r :=
    {| Checker.ServiceName := "db"; Checker.Status_ := Checker.StatusUp;
       Checker.ResponseTime := 42 * GoTime.Millisecond; Checker.Error := EmptyString;
       Checker.CheckedAt := 0 |} in
  @Checker.New plainFmt svc = Ok (Checker.tcpChecker svc)
  /\ Checker.ServiceName r = Config.Name (service_of (Checker.tcpChecker svc))
  /\ (forall svc', @Checker.New plainFmt svc' = Ok (Checker.tcpChecker svc) ->
      Checker.ServiceName r = Config.Name svc')
  /\ Checker.CheckedAt r = Checker.time_Now calmWorld
  /\ (Checker.Status_ r = Checker.StatusUp \/ Checker.Status_ r = Checker.StatusDown)
  /\ (variant (Checker.tcpChecker svc) <> "ping" \/ Checker.Status_ r = Checker.StatusDown ->
      Checker.ResponseTime r
      = Checker.time_Since calmWorld (Checker.time_Now calmWorld)).
Proof.
  intros svc r. split; [reflexivity|].
  apply (@Check_result_fields plainFmt calmWorld (Checker.tcpChecker svc) r).
  reflexivity.
Defined.

(** A timeout of two and a half seconds gives ping three seconds, on
    darwin with the option [-t]. *)
Lemma pingArgs_timeout_witness :
  let svc :=
    {| Config.Name := "gw"; Config.Type_ := "ping"; Config.Target := "192.0.2.1";
       Config.Interval := 30 * GoTime.Second; Config.Timeout := 2500 * GoTime.Millisecond;
       Config.ExpectedStatus := 0; Config.Headers := ∅ |} in
  let darwin :=
    {| Checker.time_Now := 0; Checker.time_Since := fun _ => 0; Checker.GOOS := "darwin";
       Checker.http_NewRequest := fun _ _ => None;
       Checker.http_Do := fun _ _ _ =>
         Checker.DoResp {| Checker.StatusCode := 200; Checker.Body := EmptyString |};
       Checker.net_Dial := fun _ _ _ => None;
       Checker.cmd_Output := fun _ _ => (EmptyString, None);
       Checker.json_Decode := fun _ => Ok {| Checker.Running := true |} |} in
  @Checker.pingArgs plainFmt darwin svc = ["-c"; "1"; "-t"; "3"; "192.0.2.1"].
Proof.
  intros svc darwin.
  rewrite (@pingArgs_timeout plainFmt darwin svc); [reflexivity|].
  vm_compute. reflexivity.
Defined.

(** Beyond the range of the theorem the fraction is lost: 2^24 seconds and
    a nanosecond are rounded down to 2^24 seconds. *)
Example ceilSeconds_loses_fraction :
  Checker.ceilSeconds (2 ^ 24 * GoTime.Second + 1) = 2 ^ 24.
Proof. vm_compute. reflexivity. Qed.

(** ** The scheduler *)
Section SchedulerProperties.
Import Config Checker Scheduler.
Context `{GoFmt}.
Variable W : Type.
Variable Chk : Type.
Variable Check : Chk -> W -> CheckResult * W.

Abbreviation Sched := (Scheduler.Scheduler W Chk).
Abbreviation Ev := (Scheduler.Event Chk).

(** The four steps of a probe, among the events of a task. *)
Definition is_step (e : Ev) : bool :=
  match e with
  | EvLatestCheck _ | EvCheck _ | EvInsertCheck _ | EvOnResult _ _ => true
  | _ => false
  end.

Definition is_probe (e : Ev) : bool :=
  match e with
  | EvCheck _ => true
  | _ => false
  end.

(** Waiting for the ticker or for cancellation. *)
Definition is_wait (e : Ev) : bool :=
  match e with
  | EvNewTicker _ | EvReceive _ => true
  | _ => false
  end.

Definition steps (tr : list Ev) : list Ev := filter (fun e => is_step e = true) tr.
Definition probes (tr : list Ev) : nat := length (filter (fun e => is_probe e = true) tr).
Definition waits (tr : list Ev) : list Ev := filter (fun e => is_wait e = true) tr.

(** The convention of Go that storage.DB.LatestCheck follows: with an
    error comes a nil result. *)
Definition nil_on_error (st : Scheduler.Store W) : Prop :=
  forall name w prev err w',
    Scheduler.LatestCheck st name w = ((prev, Some err), w') -> prev = None.

(** What one probe appends to the trace, and the state it leaves. *)
Definition probe_events (s : Sched) (svc : Service) (c : Chk) (w : W) : list Ev * W :=
  let '((prev, rerr), w1) := Scheduler.LatestCheck (store s) (Name svc) w in
  let '(result, w2) := Check c w1 in
  let '(ierr, w3) := Scheduler.InsertCheck (store s) result w2 in
  let prevStatus := Storage.Status <$> prev in
  ([EvLatestCheck (Name svc)]
   ++ match rerr with
      | Some err =>
          [EvLog Warn "fetching previous check"
             [("service", LStr (Name svc)); ("error", LErr err)]]
      | None => []
      end
   ++ [EvCheck c;
       EvLog Info "check result"
         [("service", LStr (Name svc)); ("status", LStr (Status_ result));
          ("response_time", LDur (ResponseTime result));
          ("error", LStr (Checker.Error result))];
       EvInsertCheck result]
   ++ match ierr with
      | Some err =>
          [EvLog Error "storing check result"
             [("service", LStr (Name svc)); ("error", LErr err)]]
      | None => []
      end
   ++ match onResult s with
      | Some _ => [EvOnResult result prevStatus]
      | None => []
      end,
   match onResult s with
   | Some fn => fn result prevStatus w3
   | None => w3
   end).

Ltac run_monad :=
  unfold mbind, Scheduler.M_bind, mret, Scheduler.M_ret, Scheduler.call, Scheduler.log,
    Scheduler.emit; simpl.

Lemma runCheck_run (s : Sched) svc c w tr :
  runCheck Check s svc c (w, tr)
  = (tt, ((probe_events s svc c w).2, tr ++ (probe_events s svc c w).1)).
Proof.
  unfold runCheck, probe_events. run_monad.
  destruct (Scheduler.LatestCheck (store s) (Name svc) w) as [[prev rerr] w1]. simpl.
  destruct rerr; simpl;
    (destruct (Check c w1) as [result w2]; simpl;
     destruct (Scheduler.InsertCheck (store s) result w2) as [ierr w3]; simpl;
     destruct ierr, (onResult s); simpl; rewrite <- ?app_assoc; reflexivity).
Qed.

Lemma probe_events_counts (s : Sched) svc c w :
  probes (probe_events s svc c w).1 = 1%nat
  /\ waits (probe_events s svc c w).1 = []
  /\ EvReceive CtxDone ∉ (probe_events s svc c w).1.
Proof.
  unfold probe_events.
  destruct (Scheduler.LatestCheck (store s) (Name svc) w) as [[prev rerr] w1].
  destruct (Check c w1) as [result w2].
  destruct (Scheduler.InsertCheck (store s) result w2) as [ierr w3].
  destruct rerr, ierr, (onResult s); simpl;
    (split; [reflexivity|split; [reflexivity|]]);
    rewrite ?elem_of_cons, elem_of_nil; intuition discriminate.
Qed.

(** C2.  A probe reads the stored result of the service, then invokes the
    checker, then persists the new result, then invokes the callback if one
    is registered, in this order and each on the state the step before
    left; no failure of the read or of the insert removes or reorders a
    step.  The callback receives the result of the checker and the status
    of the stored result, which is absent when nothing was stored and,
    for a store that returns nil with an error, when the read failed. *)
Theorem runCheck_steps (s : Sched) (svc : Service) (c : Chk) (w : W) (tr : list Ev) :
  nil_on_error (store s) ->
  let '((prev, rerr), w1) := Scheduler.LatestCheck (store s) (Name svc) w in
  let '(result, w2) := Check c w1 in
  let '(ierr, w3) := Scheduler.InsertCheck (store s) result w2 in
  let prevStatus := Storage.Status <$> prev in
  let '(_, (w', tr')) := runCheck Check s svc c (w, tr) in
  steps tr'
  = steps tr ++ [EvLatestCheck (Name svc); EvCheck c; EvInsertCheck result]
      ++ match onResult s with
         | Some _ => [EvOnResult result prevStatus]
         | None => []
         end
  /\ w' = match onResult s with
          | Some fn => fn result prevStatus w3
          | None => w3
          end
  /\ (rerr <> None -> prevStatus = None)
  /\ (prev = None -> prevStatus = None).
Proof.
  intros Hnil. rewrite runCheck_run. unfold probe_events.
  destruct (Scheduler.LatestCheck (store s) (Name svc) w) as [[prev rerr] w1] eqn:Hread.
  destruct (Check c w1) as [result w2].
  destruct (Scheduler.InsertCheck (store s) result w2) as [ierr w3].
  simpl. split; [|split; [reflexivity|split]].
  - unfold steps. rewrite filter_app. f_equal.
    destruct rerr, ierr, (onResult s); reflexivity.
  - destruct rerr as [err|]; [|done]. intros _.
    by rewrite (Hnil _ _ _ _ _ Hread).
  - by intros ->.
Qed.

Lemma selectLoop_ticks_then_done (s : Sched) svc c rest : forall n w tr,
  exists w' evs,
    selectLoop Check s svc c (replicate n TickerC ++ CtxDone :: rest) (w, tr)
    = (Exited, (w', tr ++ evs ++ [EvReceive CtxDone]))
    /\ selectLoop Check s svc c (replicate n TickerC ++ [CtxDone]) (w, tr)
       = (Exited, (w', tr ++ evs ++ [EvReceive CtxDone]))
    /\ probes evs = n /\ EvReceive CtxDone ∉ evs.
Proof.
  induction n as [|n IH]; intros w tr.
  - exists w, []. simpl. run_monad. split_and!; try done. apply not_elem_of_nil.
  - simpl. run_monad. rewrite !runCheck_run.
    destruct (IH (probe_events s svc c w).2
                 ((tr ++ [EvReceive TickerC]) ++ (probe_events s svc c w).1))
      as (w' & evs & -> & -> & Hn & Hnot).
    destruct (probe_events_counts s svc c w) as (Hp & _ & Hnd).
    exists w', ([EvReceive TickerC] ++ (probe_events s svc c w).1 ++ evs).
    rewrite <- !app_assoc. split_and!; try done.
    + unfold probes in *. rewrite !filter_app, !length_app, Hp, Hn. reflexivity.
    + rewrite !elem_of_app, elem_of_cons, elem_of_nil. intuition discriminate.
Qed.

Lemma selectLoop_extends (s : Sched) svc c : forall cases l w0 st w' tr',
  selectLoop Check s svc c cases (w0, l) = (st, (w', tr')) ->
  exists more, tr' = l ++ more.
Proof.
  induction cases as [|[|] cases IH]; intros l w0 st w' tr'; simpl; run_monad.
  - intros [= <- <- <-]. exists []. by rewrite app_nil_r.
  - intros [= <- <- <-]. eauto.
  - rewrite runCheck_run. intros Hl. apply IH in Hl as [more ->].
    rewrite <- !app_assoc. eauto.
Qed.

(** C3.  A service task runs one probe on entry, before it creates the
    ticker or waits; and with a positive interval, once the task receives
    the cancellation signal after [n] ticks it has run [n + 1] probes, it
    returns, and what it does is the same whatever the channels would have
    delivered later: the reception is the last thing before the deferred
    calls, and no probe follows it. *)
Theorem runService_immediate_then_cancel (s : Sched) (svc : Service) (c : Chk) (w : W) :
  (forall cases, exists first more,
      (runCheck Check s svc c (w, [])).2.2 = first
      /\ probes first = 1%nat /\ waits first = []
      /\ (runService Check s svc c cases (w, [])).2.2 = first ++ more)
  /\ (0 < Interval svc -> forall n rest,
        let run :=
          runService Check s svc c (replicate n TickerC ++ CtxDone :: rest) (w, []) in
        run.1 = Exited
        /\ run = runService Check s svc c (replicate n TickerC ++ [CtxDone]) (w, [])
        /\ exists before,
             run.2.2 = before ++ [EvReceive CtxDone; EvTickerStop; EvWgDone]
             /\ probes before = S n /\ EvReceive CtxDone ∉ before).
Proof.
  destruct (probe_events_counts s svc c w) as (Hp & Hw & Hnd).
  split.
  - intros cases. exists (probe_events s svc c w).1.
    unfold runService. run_monad. rewrite runCheck_run. simpl.
    destruct (Interval svc <=? 0); simpl.
    + exists [EvWgDone]. auto.
    + destruct (selectLoop Check s svc c cases _) as [st [w' tr']] eqn:Hloop.
      assert (Hpre : exists more, tr' = (probe_events s svc c w).1 ++ more).
      { apply selectLoop_extends in Hloop as [more ->]. rewrite <- app_assoc. eauto. }
      destruct Hpre as [more ->].
      destruct st; simpl; rewrite <- ?app_assoc; eauto.
  - intros Hpos n rest. unfold runService. run_monad. rewrite !runCheck_run. simpl.
    destruct (Interval svc <=? 0) eqn:Hle; [apply Z.leb_le in Hle; lia|].
    cbn [fst snd].
    destruct (selectLoop_ticks_then_done s svc c rest n (probe_events s svc c w).2
                ((probe_events s svc c w).1 ++ [EvNewTicker (Interval svc)]))
      as (w' & evs & -> & -> & Hn & Hnot).
    simpl. split_and!; try done.
    exists ((probe_events s svc c w).1 ++ [EvNewTicker (Interval svc)] ++ evs).
    rewrite <- !app_assoc. simpl. split_and!; try done.
    + change (EvNewTicker (Interval svc) :: evs) with ([EvNewTicker (Interval svc)] ++ evs).
      unfold probes in *. rewrite !filter_app, !length_app, Hp, Hn. simpl. lia.
    + rewrite !elem_of_app, elem_of_cons. intuition discriminate.
Qed.

(** *** A task over any sequence of receptions *)

(** The ticks a task receives before the first cancellation signal. *)
Fixpoint ticksBeforeDone (cases : list SelectCase) : nat :=
  match cases with
  | TickerC :: rest => S (ticksBeforeDone rest)
  | _ => 0%nat
  end.

(** Whether the cancellation signal is among the receptions. *)
Definition cancelled (cases : list SelectCase) : bool :=
  existsb (fun c => match c with CtxDone => true | TickerC => false end) cases.

Definition count (p : Ev -> bool) (tr : list Ev) : nat :=
  length (filter (fun e => p e = true) tr).

Definition is_read (e : Ev) : bool :=
  match e with EvLatestCheck _ => true | _ => false end.
Definition is_done (e : Ev) : bool :=
  match e with EvWgDone => true | _ => false end.
Definition is_stop (e : Ev) : bool :=
  match e with EvTickerStop => true | _ => false end.

(** The results handed to the store and to the callback, in order. *)
Definition inserted (tr : list Ev) : list CheckResult :=
  omap (fun e => match e with EvInsertCheck r => Some r | _ => None end) tr.
Definition reported (tr : list Ev) : list CheckResult :=
  omap (fun e => match e with EvOnResult r _ => Some r | _ => None end) tr.

(** What is counted in a trace. *)
Record Tally : Type := {
  nProbes : nat;
  nReads : nat;
  nDone : nat;
  nStop : nat;
  toStore : list CheckResult;
  toCallback : list CheckResult
}.

Definition tally (tr : list Ev) : Tally :=
  {| nProbes := count is_probe tr; nReads := count is_read tr;
     nDone := count is_done tr; nStop := count is_stop tr;
     toStore := inserted tr; toCallback := reported tr |}.

Definition tally_add (a b : Tally) : Tally :=
  {| nProbes := nProbes a + nProbes b; nReads := nReads a + nReads b;
     nDone := nDone a + nDone b; nStop := nStop a + nStop b;
     toStore := toStore a ++ toStore b; toCallback := toCallback a ++ toCallback b |}.

Lemma tally_app (a b : list Ev) : tally (a ++ b) = tally_add (tally a) (tally b).
Proof.
  unfold tally, tally_add, count, inserted, reported. simpl.
  by rewrite !filter_app, !length_app, !omap_app.
Qed.

Definition tally_zero : Tally :=
  {| nProbes := 0; nReads := 0; nDone := 0; nStop := 0; toStore := []; toCallback := [] |}.

(** The deferred calls of a task that returns. *)
Definition tally_return : Tally :=
  {| nProbes := 0; nReads := 0; nDone := 1; nStop := 1; toStore := []; toCallback := [] |}.

(** The tally of the probes that stored the results [rs]. *)
Definition probes_tally (s : Sched) (rs : list CheckResult) : Tally :=
  {| nProbes := length rs; nReads := length rs; nDone := 0; nStop := 0;
     toStore := rs;
     toCallback := match onResult s with Some _ => rs | None => [] end |}.

Lemma probe_events_tally (s : Sched) svc c w :
  exists r, tally (probe_events s svc c w).1 = probes_tally s [r].
Proof.
  unfold probe_events.
  destruct (Scheduler.LatestCheck (store s) (Name svc) w) as [[prev rerr] w1].
  destruct (Check c w1) as [result w2].
  destruct (Scheduler.InsertCheck (store s) result w2) as [ierr w3].
  exists result. unfold probes_tally.
  destruct rerr, ierr, (onResult s); reflexivity.
Qed.

Lemma probes_tally_app (s : Sched) (rs1 rs2 : list CheckResult) :
  tally_add (probes_tally s rs1) (probes_tally s rs2) = probes_tally s (rs1 ++ rs2).
Proof.
  unfold tally_add, probes_tally. simpl. rewrite !length_app.
  destruct (onResult s); by rewrite ?app_nil_r.
Qed.

Lemma selectLoop_tally (s : Sched) svc c : forall cases w tr,
  exists evs rs,
    (selectLoop Check s svc c cases (w, tr)).2.2 = tr ++ evs
    /\ (selectLoop Check s svc c cases (w, tr)).1
       = (if cancelled cases then Exited else Waiting)
    /\ tally evs = probes_tally s rs /\ length rs = ticksBeforeDone cases.
Proof.
  induction cases as [|[|] cases IH]; intros w tr; simpl; run_monad.
  - exists [], []. rewrite app_nil_r. split_and!; try done.
    unfold probes_tally. by destruct (onResult s).
  - exists [EvReceive CtxDone], []. split_and!; try done.
    unfold probes_tally. by destruct (onResult s).
  - rewrite runCheck_run.
    destruct (IH (probe_events s svc c w).2
                ((tr ++ [EvReceive TickerC]) ++ (probe_events s svc c w).1))
      as (evs & rs & -> & -> & Ht & Hlen).
    destruct (probe_events_tally s svc c w) as [r Hr].
    exists ([EvReceive TickerC] ++ (probe_events s svc c w).1 ++ evs), (r :: rs).
    rewrite <- !app_assoc. split_and!; try done.
    + rewrite !tally_app, Hr, Ht.
      change (r :: rs) with ([r] ++ rs). rewrite <- probes_tally_app.
      unfold tally_add, probes_tally. simpl. done.
    + simpl. by rewrite Hlen.
Qed.

(** [runService] in terms of its first probe and of the loop. *)
Lemma runService_run (s : Sched) svc c cases w :
  runService Check s svc c cases (w, [])
  = (let pe := probe_events s svc c w in
     if Interval svc <=? 0 then (Panicked, (pe.2, pe.1 ++ [EvWgDone]))
     else
       let loop := selectLoop Check s svc c cases
                     (pe.2, pe.1 ++ [EvNewTicker (Interval svc)]) in
       match loop.1 with
       | Exited => (Exited, (loop.2.1, loop.2.2 ++ [EvTickerStop; EvWgDone]))
       | _ => loop
       end).
Proof.
  unfold runService. run_monad. rewrite runCheck_run. cbn [fst snd].
  destruct (Interval svc <=? 0); simpl; [done|].
  destruct (selectLoop Check s svc c cases _) as [st [w' tr']]. simpl.
  destruct st; simpl; by rewrite <- ?app_assoc.
Qed.

(** X5.  A service task over any receptions of its select statement.  With
    a positive interval it has run one probe plus one for every tick
    received before the first cancellation signal, it has returned if the
    signal was among the receptions and is waiting otherwise, and it has
    called [wg.Done] and stopped the ticker once if it returned and not at
    all otherwise.  With an interval that is not positive it runs its first
    probe, panics in [time.NewTicker] and calls [wg.Done] once.  In either
    case every probe read the store once and handed one result to the
    store, and the callback, when one is registered, received the same
    results in the same order. *)
Theorem runService_lifecycle (s : Sched) (svc : Service) (c : Chk)
  (cases : list SelectCase) (w : W) :
  let run := runService Check s svc c cases (w, []) in
  let t := tally run.2.2 in
  run.1 = (if Interval svc <=? 0 then Panicked
           else if cancelled cases then Exited else Waiting)
  /\ nProbes t = (if Interval svc <=? 0 then 1%nat else S (ticksBeforeDone cases))
  /\ nReads t = nProbes t /\ length (toStore t) = nProbes t
  /\ toCallback t = match onResult s with Some _ => toStore t | None => [] end
  /\ nDone t = match run.1 with Waiting => 0%nat | _ => 1%nat end
  /\ nStop t = match run.1 with Exited => 1%nat | _ => 0%nat end.
Proof.
  intros run t. subst t run. rewrite runService_run. cbv zeta.
  destruct (probe_events_tally s svc c w) as [r Hr].
  destruct (Interval svc <=? 0).
  - cbn [fst snd]. rewrite tally_app, Hr. simpl. split_and!; try done.
    by destruct (onResult s).
  - destruct (selectLoop_tally s svc c cases (probe_events s svc c w).2
                ((probe_events s svc c w).1 ++ [EvNewTicker (Interval svc)]))
      as (evs & rs & Htr & Hst & Ht & Hlen).
    destruct (selectLoop Check s svc c cases _) as [st [w' tr']].
    cbn [fst snd] in *. subst st tr'.
    destruct (cancelled cases); cbn [fst snd]; rewrite <- ?app_assoc, !tally_app, Hr, Ht;
      change (tally [EvNewTicker (Interval svc)]) with tally_zero;
      change (tally [EvTickerStop; EvWgDone]) with tally_return;
      simpl; rewrite ?app_nil_r, ?Nat.add_0_r, Hlen; (split_and!; try done);
      by destruct (onResult s).
Qed.

(** *** Start *)

(** The goroutine [Start] spawns for a service, if its checker can be
    made. *)
Definition schedulable (s : Sched) (svc : Service) : option (Service * Chk) :=
  match factory s svc with
  | Ok c => Some (svc, c)
  | Err _ => None
  end.

(** The goroutines started in a trace. *)
Definition spawned (tr : list Ev) : list (Service * Chk) :=
  omap (fun e => match e with EvGo svc c => Some (svc, c) | _ => None end) tr.

Lemma spawned_app (a b : list Ev) : spawned (a ++ b) = spawned a ++ spawned b.
Proof. apply omap_app. Qed.

Lemma startLoop_run (s : Sched) : forall svcs w tr,
  exists evs,
    startLoop s svcs (w, tr) = (omap (schedulable s) svcs, (w, tr ++ evs))
    /\ spawned evs = omap (schedulable s) svcs.
Proof.
  induction svcs as [|svc rest IH]; intros w tr; simpl.
  - exists []. by rewrite app_nil_r.
  - destruct (factory s svc) as [c|err] eqn:Hf; run_monad.
    + assert (Hs : schedulable s svc = Some (svc, c)) by (unfold schedulable; by rewrite Hf).
      rewrite Hs.
      destruct (IH w ((tr ++ [EvWgAdd 1]) ++ [EvGo svc c])) as (evs & -> & Hsp).
      exists ([EvWgAdd 1; EvGo svc c] ++ evs). rewrite <- !app_assoc. simpl.
      split; [done|]. unfold spawned in *. simpl. by rewrite Hsp.
    + assert (Hs : schedulable s svc = None) by (unfold schedulable; by rewrite Hf).
      rewrite Hs.
      destruct (IH w (tr ++ [EvLog Error "creating checker"
                               [("service", LStr (Name svc)); ("error", LErr err)]]))
        as (evs & -> & Hsp).
      eexists (_ :: evs). rewrite <- !app_assoc. simpl. split; [done|].
      unfold spawned in *. simpl. by rewrite Hsp.
Qed.

(** C4.  The factory makes a checker of the variant named by the type for
    http, tcp, ping and docker, and returns the error "unknown checker
    type" for every other type.  [Start] spawns one task for each service
    whose factory call succeeds, in the order of the configuration, and
    none for a service whose call fails: a failure takes nothing away from
    the other services. *)
Theorem Start_skips_failed_factory (s : Sched) (w : W) (tr : list Ev) :
  (forall svc,
     (Type_ svc ∈ typeEnum /\ (exists c, Checker.New svc = Ok c /\ variant c = Type_ svc))
     \/ ((Type_ svc ∉ typeEnum)
         /\ Checker.New svc = Err ("unknown checker type " +:+ fmt_q (Type_ svc))))
  /\ (let '(tasks, (w', tr')) := Start s (w, tr) in
      tasks = omap (schedulable s) (services s)
      /\ spawned tr' = spawned tr ++ tasks
      /\ w' = w
      /\ forall svc c, (svc, c) ∈ tasks <-> svc ∈ services s /\ factory s svc = Ok c).
Proof.
  split.
  - intros svc. destruct (decide (Type_ svc ∈ typeEnum)) as [Hin|Hout].
    + left. split; [done|]. by apply New_known.
    + right. split; [done|]. by apply New_unknown.
  - unfold Start. destruct (startLoop_run s (services s) w tr) as (evs & -> & Hsp).
    split; [done|]. split; [by rewrite spawned_app, Hsp|]. split; [done|].
    intros svc c. rewrite list_elem_of_omap. unfold schedulable. split.
    + intros (svc' & Hin & Hs). destruct (factory s svc') eqn:Hf; [|done].
      injection Hs as <- <-. done.
    + intros [Hin Hf]. exists svc. by rewrite Hf.
Qed.

End SchedulerProperties.

Arguments steps {Chk}.
Arguments probes {Chk}.
Arguments waits {Chk}.
Arguments spawned {Chk}.
Arguments nil_on_error {W}.
Arguments schedulable {W Chk}.

(** ** The store of the repository keeps the convention *)
Lemma Storage_LatestCheck_nil_on_error `{GoFmt}
  (time_Parse : string -> string -> res GoTime.Time)
  (QueryRow : string -> Storage.Row + Storage.ScanError)
  (service : string) (prev : option Storage.Check) (err : error) :
  Storage.LatestCheck time_Parse QueryRow service = (prev, Some err) -> prev = None.
Proof.
  unfold Storage.LatestCheck.
  destruct (Storage.scanCheck time_Parse (QueryRow service)) as [c [[|msg]|]];
    intros [= <- ?]; reflexivity.
Qed.

(** ** A small system for the examples: a table of checks behind
    storage.DB, a checker that answers a fixed result, and an observer that
    records what it is called with *)
Record Sys : Type := {
  table : list Checker.CheckResult;
  locked : bool;
  diskFull : bool;
  seen : list (Checker.CheckResult * option Checker.Status)
}.

Definition rowOf (r : Checker.CheckResult) : Storage.Row :=
  {| Storage.rowID := 1; Storage.rowService := Checker.ServiceName r;
     Storage.rowStatus := Checker.Status_ r;
     Storage.rowResponseMs := Z.quot (Checker.ResponseTime r) GoTime.Millisecond;
     Storage.rowError := Checker.Error r;
     Storage.rowCheckedAt := "2026-01-02T15:04:05Z" |}.

Definition queryOf (w : Sys) (service : string) : Storage.Row + Storage.ScanError :=
  if locked w then inr (Storage.ScanFailure "database is locked")
  else
    match List.find (fun r => bool_decide (Checker.ServiceName r = service)) (table w) with
    | Some r => inl (rowOf r)
    | None => inr Storage.ErrNoRows
    end.

Definition sysStore : Scheduler.Store Sys :=
  {| Scheduler.LatestCheck := fun service w =>
       (@Storage.LatestCheck plainFmt (fun _ _ => Ok 0) (queryOf w) service, w);
     Scheduler.InsertCheck := fun r w =>
       if diskFull w then (Some "inserting check: database or disk is full", w)
       else (None, {| table := r :: table w; locked := locked w;
                      diskFull := diskFull w; seen := seen w |}) |}.

Definition observe (r : Checker.CheckResult) (prev : option Checker.Status) (w : Sys) : Sys :=
  {| table := table w; locked := locked w; diskFull := diskFull w;
     seen := (r, prev) :: seen w |}.

(** The checker of the scheduler tests: its result is fixed. *)
Definition mockCheck (c : Checker.CheckResult) (w : Sys) : Checker.CheckResult * Sys := (c, w).

Definition apiDown : Checker.CheckResult :=
  {| Checker.ServiceName := "myapi"; Checker.Status_ := Checker.StatusDown;
     Checker.ResponseTime := 3 * GoTime.Millisecond;
     Checker.Error := "connection refused"; Checker.CheckedAt := 100 |}.

Definition apiUp : Checker.CheckResult :=
  {| Checker.ServiceName := "myapi"; Checker.Status_ := Checker.StatusUp;
     Checker.ResponseTime := 10 * GoTime.Millisecond;
     Checker.Error := EmptyString; Checker.CheckedAt := 50 |}.

Definition sysScheduler : Scheduler.Scheduler Sys Checker.CheckResult :=
  Scheduler.SetOnResult
    (Scheduler.New [httpService] sysStore (fun _ => Ok apiDown))
    (Some observe).

Definition healthy : Sys :=
  {| table := [apiUp]; locked := false; diskFull := false; seen := [] |}.
Definition broken : Sys :=
  {| table := [apiUp]; locked := true; diskFull := true; seen := [] |}.

Lemma sysStore_nil_on_error : nil_on_error sysStore.
Proof.
  intros name w prev err w'. simpl. intros [= Hl _].
  by apply Storage_LatestCheck_nil_on_error in Hl.
Defined.

(** On a healthy store the probe reads the Up that was stored, inserts the
    Down it measured and hands both to the observer. *)
Example runCheck_healthy :
  Scheduler.runCheck mockCheck sysScheduler httpService apiDown (healthy, [])
  = (tt,
     ({| table := [apiDown; apiUp]; locked := false; diskFull := false;
         seen := [(apiDown, Some Checker.StatusUp)] |},
      [Scheduler.EvLatestCheck "myapi";
       Scheduler.EvCheck apiDown;
       Scheduler.EvLog Scheduler.Info "check result"
         [("service", Scheduler.LStr "myapi"); ("status", Scheduler.LStr "down");
          ("response_time", Scheduler.LDur 3000000);
          ("error", Scheduler.LStr "connection refused")];
       Scheduler.EvInsertCheck apiDown;
       Scheduler.EvOnResult apiDown (Some Checker.StatusUp)])).
Proof. vm_compute. reflexivity. Qed.

(** With the database locked and the disk full the same four steps happen,
    and the observer is told that there is no previous status. *)
Lemma runCheck_steps_witness :
  let s := sysScheduler in
  let '((prev, rerr), w1) :=
    Scheduler.LatestCheck (Scheduler.store s) (Config.Name httpService) broken in
  let '(result, w2) := mockCheck apiDown w1 in
  let '(ierr, w3) := Scheduler.InsertCheck (Scheduler.store s) result w2 in
  let '(_, (w', tr')) := Scheduler.runCheck mockCheck s httpService apiDown (broken, []) in
  rerr <> None /\ ierr <> None
  /\ steps tr'
     = [Scheduler.EvLatestCheck "myapi"; Scheduler.EvCheck apiDown;
        Scheduler.EvInsertCheck apiDown; Scheduler.EvOnResult apiDown None]
  /\ w' = observe apiDown None broken.
Proof.
  pose proof (runCheck_steps Sys Checker.CheckResult mockCheck sysScheduler
                httpService apiDown broken [] sysStore_nil_on_error) as Hw.
  vm_compute in Hw. vm_compute.
  destruct Hw as (Hsteps & Hw' & _ & _).
  split; [discriminate|]. split; [discriminate|]. split; assumption.
Defined.

Lemma runService_immediate_then_cancel_witness :
  let run :=
    Scheduler.runService mockCheck sysScheduler httpService apiDown
      (replicate 2 Scheduler.TickerC ++ Scheduler.CtxDone :: [Scheduler.TickerC])
      (healthy, []) in
  run.1 = Scheduler.Exited
  /\ run = Scheduler.runService mockCheck sysScheduler httpService apiDown
             (replicate 2 Scheduler.TickerC ++ [Scheduler.CtxDone]) (healthy, [])
  /\ exists before,
       run.2.2 = before ++ [Scheduler.EvReceive Scheduler.CtxDone;
                            Scheduler.EvTickerStop; Scheduler.EvWgDone]
       /\ probes before = 3%nat /\ Scheduler.EvReceive Scheduler.CtxDone ∉ before.
Proof.
  apply (proj2 (runService_immediate_then_cancel Sys Checker.CheckResult mockCheck
                  sysScheduler httpService apiDown healthy)).
  vm_compute. reflexivity.
Defined.

(** The trace of a task that is cancelled after one tick. *)
Example runService_one_tick :
  let run :=
    Scheduler.runService mockCheck (Scheduler.New [httpService] sysStore (fun _ => Ok apiUp))
      httpService apiUp [Scheduler.TickerC; Scheduler.CtxDone] (healthy, []) in
  run.1 = Scheduler.Exited
  /\ steps run.2.2
     = [Scheduler.EvLatestCheck "myapi"; Scheduler.EvCheck apiUp; Scheduler.EvInsertCheck apiUp;
        Scheduler.EvLatestCheck "myapi"; Scheduler.EvCheck apiUp; Scheduler.EvInsertCheck apiUp]
  /\ waits run.2.2
     = [Scheduler.EvNewTicker (30 * GoTime.Second); Scheduler.EvReceive Scheduler.TickerC;
        Scheduler.EvReceive Scheduler.CtxDone]
  /\ table run.2.1 = [apiUp; apiUp; apiUp].
Proof. vm_compute. repeat split. Qed.

(** A task whose service has the interval 0 that [Load] accepts runs its
    first probe and then stops in the panic of time.NewTicker. *)
Example runService_zero_interval_panics :
  let svc :=
    {| Config.Name := "api"; Config.Type_ := "http";
       Config.Target := "https://example.com/health";
       Config.Interval := 0; Config.Timeout := - 5 * GoTime.Second;
       Config.ExpectedStatus := 200; Config.Headers := ∅ |} in
  let run :=
    Scheduler.runService mockCheck sysScheduler svc apiDown
      [Scheduler.TickerC; Scheduler.CtxDone] (healthy, []) in
  run.1 = Scheduler.Panicked /\ probes run.2.2 = 1%nat /\ waits run.2.2 = [].
Proof. vm_compute. repeat split. Qed.

(** ** The alert dispatcher *)
Section AlertProperties.
Import Checker Alert.

(** C1.  [Notify] dispatches nothing and leaves the alerter as it is when
    the previous status is absent, when it equals the status of the result,
    and when the statuses differ but the last alert of the service is less
    than the cooldown ago.  In the remaining case, a transition with no
    earlier alert or with one at least the cooldown ago, it records the
    current time for the service and then starts one goroutine that sends
    the notification. *)
Theorem Notify_decision (a : Alerter) (clk : Clock) (result : CheckResult)
  (previousStatus : option Checker.Status) :
  let '(a', effs) := Notify a clk result previousStatus in
  (previousStatus = None -> a' = a /\ dispatched effs = [])
  /\ (previousStatus = Some (Status_ result) -> a' = a /\ dispatched effs = [])
  /\ (forall prev last,
        previousStatus = Some prev -> prev <> Status_ result ->
        lastAlert a !! ServiceName result = Some last ->
        GoTime.Sub (atSince clk) last < cooldown a ->
        a' = a /\ dispatched effs = [])
  /\ (forall prev,
        previousStatus = Some prev -> prev <> Status_ result ->
        (lastAlert a !! ServiceName result = None
         \/ exists last, lastAlert a !! ServiceName result = Some last
                         /\ cooldown a <= GoTime.Sub (atSince clk) last) ->
        lastAlert a' = <[ServiceName result := atNow clk]> (lastAlert a)
        /\ webhookURL a' = webhookURL a /\ cooldown a' = cooldown a
        /\ dispatched effs = [(result, prev)]
        /\ effs = [Lock; SetLastAlert (ServiceName result) (atNow clk); Unlock;
                   GoSend result prev]).
Proof.
  unfold Notify. destruct previousStatus as [prev|].
  - destruct (decide (Status_ result = prev)) as [Heq|Hne].
    + split_and!.
      * discriminate.
      * done.
      * intros prev' last [= <-] Hne. congruence.
      * intros prev' [= <-] Hne. congruence.
    + destruct (lastAlert a !! ServiceName result) as [last|] eqn:Hlast.
      * destruct (GoTime.Sub (atSince clk) last <? cooldown a) eqn:Hcool.
        -- apply Z.ltb_lt in Hcool. split_and!.
           ++ discriminate.
           ++ done.
           ++ done.
           ++ intros prev' [= <-] _ [Hnone|(last' & [= <-] & Hge)]; [discriminate|lia].
        -- apply Z.ltb_ge in Hcool. split_and!.
           ++ discriminate.
           ++ intros [= ->]. congruence.
           ++ intros prev' last' [= <-] _ [= <-] Hlt. lia.
           ++ intros prev' [= <-] _ _. done.
      * split_and!.
        -- discriminate.
        -- intros [= ->]. congruence.
        -- discriminate.
        -- intros prev' [= <-] _ _. done.
  - split_and!; done.
Qed.

Lemma Notify_frame (a : Alerter) clk result prev (other : string) :
  other <> ServiceName result ->
  lastAlert (Notify a clk result prev).1 !! other = lastAlert a !! other.
Proof.
  intros Hne. unfold Notify.
  destruct prev as [prev|]; [|done].
  destruct (decide (Status_ result = prev)); [done|].
  destruct (lastAlert a !! ServiceName result) as [last|]; simpl.
  - destruct (GoTime.Sub (atSince clk) last <? cooldown a); simpl; [done|].
    by rewrite lookup_insert_ne.
  - by rewrite lookup_insert_ne.
Qed.

Lemma Notify_cooldown (a : Alerter) clk result prev :
  cooldown (Notify a clk result prev).1 = cooldown a.
Proof.
  unfold Notify. destruct prev as [prev|]; [|done].
  destruct (decide (Status_ result = prev)); [done|].
  destruct (lastAlert a !! ServiceName result) as [last|]; simpl; [|done].
  by destruct (GoTime.Sub (atSince clk) last <? cooldown a).
Qed.

(** What [Notify] dispatches depends on the alerter only through the
    cooldown and the entry of the service of the result. *)
Lemma Notify_dispatch_local (a b : Alerter) clk result prev :
  cooldown a = cooldown b ->
  lastAlert a !! ServiceName result = lastAlert b !! ServiceName result ->
  dispatched (Notify a clk result prev).2 = dispatched (Notify b clk result prev).2.
Proof.
  intros Hc Hl. unfold Notify. rewrite Hc, Hl.
  destruct prev as [prev|]; [|done].
  destruct (decide (Status_ result = prev)); [done|].
  destruct (lastAlert b !! ServiceName result) as [last|]; simpl; [|done].
  by destruct (GoTime.Sub (atSince clk) last <? cooldown b).
Qed.

(** C5.  For two results of different services: a call of [Notify] for the
    first, whether it dispatches or suppresses, leaves the entry of the
    second service in the cooldown map as it was, and a following call for
    the second dispatches what it would have dispatched without the first.
    So on a new alerter two transitions of different services, whatever the
    clock reads, produce one notification each. *)
Theorem Notify_per_service (a : Alerter) (clk1 clk2 : Clock) (r1 r2 : CheckResult)
  (p1 p2 : option Checker.Status) :
  ServiceName r1 <> ServiceName r2 ->
  lastAlert (Notify a clk1 r1 p1).1 !! ServiceName r2 = lastAlert a !! ServiceName r2
  /\ dispatched (NotifyAll a [(clk1, r1, p1); (clk2, r2, p2)]).2
     = dispatched (Notify a clk1 r1 p1).2 ++ dispatched (Notify a clk2 r2 p2).2
  /\ (forall url cd s1 s2,
        p1 = Some s1 -> s1 <> Status_ r1 -> p2 = Some s2 -> s2 <> Status_ r2 ->
        dispatched (NotifyAll (New url cd) [(clk1, r1, p1); (clk2, r2, p2)]).2
        = [(r1, s1); (r2, s2)]).
Proof.
  intros Hne.
  assert (Hframe : forall a0, lastAlert (Notify a0 clk1 r1 p1).1 !! ServiceName r2
                              = lastAlert a0 !! ServiceName r2)
    by (intros a0; apply Notify_frame; congruence).
  assert (Hseq : forall a0,
             dispatched (NotifyAll a0 [(clk1, r1, p1); (clk2, r2, p2)]).2
             = dispatched (Notify a0 clk1 r1 p1).2 ++ dispatched (Notify a0 clk2 r2 p2).2).
  { intros a0. simpl.
    destruct (Notify a0 clk1 r1 p1) as [a1 e1] eqn:H1.
    destruct (Notify a1 clk2 r2 p2) as [a2 e2] eqn:H2. simpl.
    unfold dispatched. rewrite omap_app, app_nil_r. f_equal.
    change (omap _ e2) with (dispatched (a2, e2).2). rewrite <- H2.
    apply Notify_dispatch_local.
    - change a1 with (a1, e1).1. rewrite <- H1. apply Notify_cooldown.
    - change a1 with (a1, e1).1. rewrite <- H1. apply Hframe. }
  split; [apply Hframe|]. split; [apply Hseq|].
  intros url cd s1 s2 -> Hs1 -> Hs2. rewrite Hseq. unfold Notify, New. simpl.
  rewrite !decide_False by congruence. rewrite !lookup_empty. reflexivity.
Qed.

(** *** Sequences of calls *)

Abbreviation Call := (Clock * CheckResult * option Checker.Status)%type.

(** The clocks of successive calls never run backwards from [t0]: within
    a call [time.Since] reads the clock before [time.Now] does. *)
Fixpoint monotone (t0 : GoTime.Time) (calls : list Call) : Prop :=
  match calls with
  | [] => True
  | (clk, _, _) :: rest =>
      t0 <= atSince clk /\ atSince clk <= atNow clk /\ monotone (atNow clk) rest
  end.

(** No alert was recorded after [t0]. *)
Definition recorded_by (t0 : GoTime.Time) (a : Alerter) : Prop :=
  forall service last, lastAlert a !! service = Some last -> last <= t0.

(** The entries of [lastAlert] written, in order. *)
Definition stamps (effs : list Effect) : list (string * GoTime.Time) :=
  omap (fun e => match e with SetLastAlert s t => Some (s, t) | _ => None end) effs.

(** The calls that report a change of status, with the previous status. *)
Definition transitions (calls : list Call) : list (CheckResult * string) :=
  omap (fun '(_, result, prev) =>
          match prev with
          | Some p => if decide (Status_ result = p) then None else Some (result, p)
          | None => None
          end) calls.

(** One call: it stays silent, or it records the time and dispatches. *)
Lemma Notify_cases (a : Alerter) (clk : Clock) (result : CheckResult)
  (prev : option Checker.Status) :
  (Notify a clk result prev).1 = a
  /\ stamps (Notify a clk result prev).2 = []
  /\ dispatched (Notify a clk result prev).2 = []
  /\ (forall last, lastAlert a !! ServiceName result = Some last ->
      cooldown a <= GoTime.Sub (atSince clk) last -> transitions [(clk, result, prev)] = [])
  /\ (lastAlert a !! ServiceName result = None -> transitions [(clk, result, prev)] = [])
  \/ exists p,
       prev = Some p /\ Status_ result <> p
       /\ Notify a clk result prev
          = (set_lastAlert a (<[ServiceName result := atNow clk]> (lastAlert a)),
             [Lock; SetLastAlert (ServiceName result) (atNow clk); Unlock; GoSend result p])
       /\ (forall last, lastAlert a !! ServiceName result = Some last ->
           cooldown a <= GoTime.Sub (atSince clk) last).
Proof.
  unfold Notify, transitions. destruct prev as [p|]; simpl; [|left; done].
  destruct (decide (Status_ result = p)) as [Heq|Hne]; [left; done|].
  destruct (lastAlert a !! ServiceName result) as [last|] eqn:Hlast.
  - destruct (GoTime.Sub (atSince clk) last <? cooldown a) eqn:Hcool.
    + apply Z.ltb_lt in Hcool. left. split_and!; try done.
      intros last' [= <-] Hge. lia.
    + apply Z.ltb_ge in Hcool. right. exists p. split_and!; try done.
      by intros last' [= <-].
  - right. exists p. split_and!; done.
Qed.

Lemma Sub_elapsed (t last : GoTime.Time) : last <= t -> GoTime.Sub t last <= t - last.
Proof. unfold GoTime.Sub, GoTime.minDuration, GoTime.maxDuration. lia. Qed.

Lemma Sub_nonneg (t last : GoTime.Time) : last <= t -> 0 <= GoTime.Sub t last.
Proof. unfold GoTime.Sub, GoTime.minDuration, GoTime.maxDuration. lia. Qed.

(** Every entry written is at least the cooldown after the entry it
    replaces, starting from the map [m]. *)
Fixpoint spaced (cd : GoTime.Duration) (m : gmap string GoTime.Time)
  (l : list (string * GoTime.Time)) : Prop :=
  match l with
  | [] => True
  | (s, t) :: rest =>
      (forall last, m !! s = Some last -> last <= t /\ cd <= t - last)
      /\ spaced cd (<[s := t]> m) rest
  end.

Lemma NotifyAll_spaced (calls : list Call) : forall (a : Alerter) (t0 : GoTime.Time),
  recorded_by t0 a -> monotone t0 calls ->
  spaced (cooldown a) (lastAlert a) (stamps (NotifyAll a calls).2).
Proof.
  induction calls as [|[[clk result] prev] rest IH]; intros a t0 Hrec Hmono; simpl; [done|].
  destruct Hmono as (H0 & H1 & Hmono).
  destruct (Notify_cases a clk result prev) as [(Ha & Hst & _)|(p & _ & _ & Hn & Hcool)].
  - destruct (Notify a clk result prev) as [a1 e1]. simpl in Ha, Hst. subst a1.
    specialize (IH a (atNow clk)). destruct (NotifyAll a rest) as [a2 e2]. simpl in *.
    unfold stamps in *. rewrite omap_app, Hst. simpl. apply IH; [|done].
    intros s last Hs. apply Hrec in Hs. lia.
  - rewrite Hn.
    specialize (IH (set_lastAlert a (<[ServiceName result := atNow clk]> (lastAlert a)))
                  (atNow clk)).
    destruct (NotifyAll _ rest) as [a2 e2]. simpl in *. split.
    + intros last Hlast. pose proof (Hrec _ _ Hlast) as Hle.
      pose proof (Hcool _ Hlast) as Hcd.
      pose proof (Sub_elapsed (atSince clk) last ltac:(lia)). lia.
    + apply IH; [|done]. intros s last. simpl.
      destruct (decide (ServiceName result = s)) as [<-|Hne].
      * rewrite lookup_insert_eq. intros [= <-]. lia.
      * rewrite lookup_insert_ne by done. intros Hs. apply Hrec in Hs. lia.
Qed.

Lemma spaced_lookup (cd : GoTime.Duration) (l : list (string * GoTime.Time)) :
  forall m j s t last,
    spaced cd m l -> l !! j = Some (s, t) -> m !! s = Some last ->
    last <= t /\ cd <= t - last.
Proof.
  induction l as [|[s' t'] rest IH]; intros m j s t last Hsp Hj Hm; [done|].
  destruct Hsp as [Hhd Hsp]. destruct j as [|j]; simpl in Hj.
  - injection Hj as -> ->. by apply Hhd.
  - destruct (decide (s' = s)) as [->|Hne].
    + destruct (Hhd _ Hm) as [Hle Hcd].
      destruct (IH _ j s t t' Hsp Hj) as [Hle' Hcd']; [by rewrite lookup_insert_eq|]. lia.
    + apply (IH _ j s t last Hsp Hj). by rewrite lookup_insert_ne.
Qed.

Lemma spaced_pairwise (cd : GoTime.Duration) (l : list (string * GoTime.Time)) :
  forall m i j s t1 t2,
    spaced cd m l -> (i < j)%nat -> l !! i = Some (s, t1) -> l !! j = Some (s, t2) ->
    t1 <= t2 /\ cd <= t2 - t1.
Proof.
  induction l as [|[s' t'] rest IH]; intros m i j s t1 t2 Hsp Hij Hi Hj; [done|].
  destruct Hsp as [Hhd Hsp]. destruct j as [|j]; [lia|]. simpl in Hj.
  destruct i as [|i]; simpl in Hi.
  - injection Hi as -> ->.
    apply (spaced_lookup cd rest _ j s t2 t1 Hsp Hj). by rewrite lookup_insert_eq.
  - apply (IH _ i j s t1 t2 Hsp); [lia|done..].
Qed.

Lemma NotifyAll_stamps (calls : list Call) : forall (a : Alerter),
  (stamps (NotifyAll a calls).2).*1
  = (fun d => ServiceName d.1) <$> dispatched (NotifyAll a calls).2.
Proof.
  induction calls as [|[[clk result] prev] rest IH]; intros a; simpl; [done|].
  destruct (Notify_cases a clk result prev) as [(Ha & Hst & Hd & _)|(p & _ & _ & Hn & _)].
  - destruct (Notify a clk result prev) as [a1 e1]. simpl in Ha, Hst, Hd.
    specialize (IH a1). destruct (NotifyAll a1 rest) as [a2 e2]. simpl in *.
    unfold stamps, dispatched in *. by rewrite !omap_app, Hst, Hd.
  - rewrite Hn.
    specialize (IH (set_lastAlert a (<[ServiceName result := atNow clk]> (lastAlert a)))).
    destruct (NotifyAll _ rest) as [a2 e2]. simpl in *. f_equal. exact IH.
Qed.

(** X6.  On an alerter that has recorded nothing after [t0], and with
    clocks that do not run backwards, every notification dispatched by a
    sequence of calls comes with one write of the time of the call into
    the cooldown map, in the same order; and any two notifications of the
    same service are at least the cooldown apart, the later one after the
    earlier. *)
Theorem NotifyAll_rate_limit (a : Alerter) (t0 : GoTime.Time) (calls : list Call) :
  recorded_by t0 a -> monotone t0 calls ->
  let effs := (NotifyAll a calls).2 in
  (stamps effs).*1 = (fun d => ServiceName d.1) <$> dispatched effs
  /\ forall i j service t1 t2,
       (i < j)%nat ->
       stamps effs !! i = Some (service, t1) -> stamps effs !! j = Some (service, t2) ->
       t1 <= t2 /\ cooldown a <= t2 - t1.
Proof.
  intros Hrec Hmono effs. split; [apply NotifyAll_stamps|].
  intros i j service t1 t2. eapply spaced_pairwise. by eapply NotifyAll_spaced.
Qed.

Lemma transitions_cons (c : Call) (rest : list Call) :
  transitions (c :: rest) = transitions [c] ++ transitions rest.
Proof.
  unfold transitions. destruct c as [[clk result] [p|]]; simpl; [|done].
  by case_decide.
Qed.

Lemma transitions_change (clk : Clock) (result : CheckResult) (p : Checker.Status) :
  Status_ result <> p -> transitions [(clk, result, Some p)] = [(result, p)].
Proof. intros Hne. unfold transitions. simpl. by rewrite decide_False. Qed.

Lemma NotifyAll_cons (a : Alerter) (c : Call) (rest : list Call) :
  (NotifyAll a (c :: rest)).2
  = (Notify a c.1.1 c.1.2 c.2).2 ++ (NotifyAll (Notify a c.1.1 c.1.2 c.2).1 rest).2.
Proof.
  destruct c as [[clk result] prev]. simpl.
  destruct (Notify a clk result prev) as [a1 e1]. simpl.
  by destruct (NotifyAll a1 rest).
Qed.

Lemma dispatched_app (e1 e2 : list Effect) :
  dispatched (e1 ++ e2) = dispatched e1 ++ dispatched e2.
Proof. apply omap_app. Qed.

Lemma NotifyAll_sublist (calls : list Call) : forall (a : Alerter),
  sublist (dispatched (NotifyAll a calls).2) (transitions calls).
Proof.
  induction calls as [|[[clk result] prev] rest IH]; intros a; [done|].
  rewrite NotifyAll_cons, transitions_cons, dispatched_app. cbn [fst snd].
  destruct (Notify_cases a clk result prev) as [(_ & _ & Hd & _)|(p & -> & Hne & Hn & _)].
  - rewrite Hd. simpl. by apply sublist_inserts_l.
  - rewrite Hn, transitions_change by done. cbn [fst snd]. simpl. by apply sublist_skip.
Qed.

Lemma NotifyAll_no_cooldown (calls : list Call) : forall (a : Alerter) (t0 : GoTime.Time),
  cooldown a <= 0 -> recorded_by t0 a -> monotone t0 calls ->
  dispatched (NotifyAll a calls).2 = transitions calls.
Proof.
  induction calls as [|[[clk result] prev] rest IH]; intros a t0 Hcd Hrec Hmono; [done|].
  destruct Hmono as (H0 & H1 & Hmono).
  rewrite NotifyAll_cons, transitions_cons, dispatched_app. cbn [fst snd].
  destruct (Notify_cases a clk result prev)
    as [(Ha & _ & Hd & Hsome & Hnone)|(p & -> & Hne & Hn & _)].
  - assert (Ht : transitions [(clk, result, prev)] = []).
    { destruct (lastAlert a !! ServiceName result) as [last|] eqn:Hlast; [|by apply Hnone].
      apply (Hsome last); [done|]. pose proof (Hrec _ _ Hlast).
      pose proof (Sub_nonneg (atSince clk) last ltac:(lia)). lia. }
    rewrite Ht, Hd, Ha. simpl. apply (IH a (atNow clk)); [done| |done].
    intros s last Hs. apply Hrec in Hs. lia.
  - rewrite Hn, transitions_change by done. cbn [fst snd]. simpl. f_equal.
    apply (IH _ (atNow clk)); [done| |done]. intros s last. simpl.
    destruct (decide (ServiceName result = s)) as [<-|Hne'].
    + rewrite lookup_insert_eq. intros [= <-]. lia.
    + rewrite lookup_insert_ne by done. intros Hs. apply Hrec in Hs. lia.
Qed.

(** X7.  A sequence of calls dispatches notifications only for calls that
    report a change of status, in the order of the calls, each with the
    result and the previous status of its call.  When the cooldown is zero
    or negative, as it is when the configuration names none, and the
    clocks do not run backwards, every such call is notified. *)
Theorem NotifyAll_transitions (a : Alerter) (calls : list Call) :
  sublist (dispatched (NotifyAll a calls).2) (transitions calls)
  /\ (forall t0,
        cooldown a <= 0 -> recorded_by t0 a -> monotone t0 calls ->
        dispatched (NotifyAll a calls).2 = transitions calls).
Proof.
  split; [apply NotifyAll_sublist|].
  intros t0. apply NotifyAll_no_cooldown.
Qed.

End AlertProperties.

(** ** The alert dispatcher on the cases of its test suite *)
Definition makeResult (service : string) (status : Checker.Status) : Checker.CheckResult :=
  {| Checker.ServiceName := service; Checker.Status_ := status;
     Checker.ResponseTime := 10 * GoTime.Millisecond; Checker.Error := EmptyString;
     Checker.CheckedAt := 0 |}.

Definition at_ (t : GoTime.Time) : Alert.Clock := {| Alert.atSince := t; Alert.atNow := t |}.

Definition hourly : Alert.Alerter := Alert.New "https://hooks.example.com/alert" GoTime.Hour.

Example alert_up_to_down :
  Alert.dispatched
    (Alert.Notify hourly (at_ 5) (makeResult "api" Checker.StatusDown) (Some Checker.StatusUp)).2
  = [(makeResult "api" Checker.StatusDown, "up")].
Proof. vm_compute. reflexivity. Qed.

Example alert_same_state :
  Alert.NotifyAll hourly
    [(at_ 5, makeResult "api" Checker.StatusUp, Some Checker.StatusUp);
     (at_ 6, makeResult "api" Checker.StatusDown, Some Checker.StatusDown)]
  = (hourly, []).
Proof. vm_compute. reflexivity. Qed.

Example alert_first_check :
  Alert.Notify hourly (at_ 5) (makeResult "api" Checker.StatusDown) None = (hourly, []).
Proof. reflexivity. Qed.

(** Two transitions of one service, 50ms apart: the second is suppressed
    and the time of the first stays recorded. *)
Example alert_cooldown_suppresses :
  let run :=
    Alert.NotifyAll hourly
      [(at_ 5, makeResult "api" Checker.StatusDown, Some Checker.StatusUp);
       (at_ (5 + 50 * GoTime.Millisecond), makeResult "api" Checker.StatusUp,
        Some Checker.StatusDown)] in
  Alert.dispatched run.2 = [(makeResult "api" Checker.StatusDown, "up")]
  /\ Alert.lastAlert run.1 !! "api" = Some 5.
Proof. vm_compute. split; reflexivity. Qed.

(** After the cooldown has passed the next transition is sent again. *)
Example alert_cooldown_elapsed :
  let run :=
    Alert.NotifyAll hourly
      [(at_ 5, makeResult "api" Checker.StatusDown, Some Checker.StatusUp);
       (at_ (5 + GoTime.Hour), makeResult "api" Checker.StatusUp, Some Checker.StatusDown)] in
  Alert.dispatched run.2
  = [(makeResult "api" Checker.StatusDown, "up"); (makeResult "api" Checker.StatusUp, "down")]
  /\ Alert.lastAlert run.1 !! "api" = Some (5 + GoTime.Hour).
Proof. vm_compute. split; reflexivity. Qed.

Lemma Notify_decision_witness :
  let a := (Alert.Notify hourly (at_ 5) (makeResult "api" Checker.StatusDown)
              (Some Checker.StatusUp)).1 in
  let result := makeResult "api" Checker.StatusUp in
  let clk := at_ (5 + 50 * GoTime.Millisecond) in
  (let '(a', effs) := Alert.Notify a clk result (Some Checker.StatusDown) in
   a' = a /\ Alert.dispatched effs = [])
  /\ (let '(a', effs) := Alert.Notify hourly clk result (Some Checker.StatusDown) in
      Alert.lastAlert a' = <[ "api" := 5 + 50 * GoTime.Millisecond ]> ∅
      /\ Alert.dispatched effs = [(result, Checker.StatusDown)]).
Proof.
  intros a result clk. split.
  - pose proof (Notify_decision a clk result (Some Checker.StatusDown)) as Hd.
    destruct (Alert.Notify a clk result (Some Checker.StatusDown)) as [a' effs].
    destruct Hd as (_ & _ & Hsuppress & _).
    apply (Hsuppress Checker.StatusDown 5); [reflexivity | discriminate | .. ].
    + vm_compute. reflexivity.
    + vm_compute. reflexivity.
  - pose proof (Notify_decision hourly clk result (Some Checker.StatusDown)) as Hd.
    destruct (Alert.Notify hourly clk result (Some Checker.StatusDown)) as [a' effs].
    destruct Hd as (_ & _ & _ & Hsend).
    destruct (Hsend Checker.StatusDown) as (Hl & _ & _ & Hdisp & _);
      [reflexivity | discriminate | left; reflexivity | ].
    split; assumption.
Defined.

Lemma Notify_per_service_witness :
  let r1 := makeResult "svc1" Checker.StatusDown in
  let r2 := makeResult "svc2" Checker.StatusDown in
  Alert.dispatched
    (Alert.NotifyAll hourly
       [(at_ 5, r1, Some Checker.StatusUp);
        (at_ (5 + 50 * GoTime.Millisecond), r2, Some Checker.StatusUp)]).2
  = [(r1, Checker.StatusUp); (r2, Checker.StatusUp)].
Proof.
  intros r1 r2.
  apply (proj2 (proj2 (Notify_per_service hourly (at_ 5) (at_ (5 + 50 * GoTime.Millisecond))
                         r1 r2 (Some Checker.StatusUp) (Some Checker.StatusUp)
                         ltac:(discriminate))));
    (reflexivity || discriminate).
Defined.

(** Three transitions of one service: 50ms after the first the second is
    suppressed, an hour after the first the third is sent. *)
Definition flapping : list (Alert.Clock * Checker.CheckResult * option Checker.Status) :=
  [(at_ 5, makeResult "api" Checker.StatusDown, Some Checker.StatusUp);
   (at_ (5 + 50 * GoTime.Millisecond), makeResult "api" Checker.StatusUp,
    Some Checker.StatusDown);
   (at_ (5 + GoTime.Hour), makeResult "api" Checker.StatusDown, Some Checker.StatusUp)].

Lemma New_recorded_by (url : string) (cd : GoTime.Duration) (t0 : GoTime.Time) :
  recorded_by t0 (Alert.New url cd).
Proof. intros service last. simpl. by rewrite lookup_empty. Qed.

Lemma NotifyAll_rate_limit_witness :
  let effs := (Alert.NotifyAll hourly flapping).2 in
  stamps effs = [("api", 5); ("api", 5 + GoTime.Hour)]
  /\ (stamps effs).*1 = (fun d => Checker.ServiceName d.1) <$> Alert.dispatched effs
  /\ forall i j service t1 t2,
       (i < j)%nat ->
       stamps effs !! i = Some (service, t1) -> stamps effs !! j = Some (service, t2) ->
       t1 <= t2 /\ GoTime.Hour <= t2 - t1.
Proof.
  intros effs. split; [vm_compute; reflexivity|].
  apply (NotifyAll_rate_limit hourly 0 flapping).
  - apply New_recorded_by.
  - vm_compute. repeat split; discriminate.
Defined.

(** Without a cooldown the three transitions are all sent. *)
Lemma NotifyAll_transitions_witness :
  Alert.dispatched (Alert.NotifyAll (Alert.New "https://hooks.example.com/alert" 0) flapping).2
  = [(makeResult "api" Checker.StatusDown, "up"); (makeResult "api" Checker.StatusUp, "down");
     (makeResult "api" Checker.StatusDown, "up")].
Proof.
  rewrite (proj2 (NotifyAll_transitions (Alert.New "https://hooks.example.com/alert" 0)
                    flapping) 0).
  - vm_compute. reflexivity.
  - simpl. lia.
  - apply New_recorded_by.
  - vm_compute. repeat split; discriminate.
Defined.

(** ** The command check *)
Section CmdProperties.
Import Config Checker Cmd.
Context `{GoFmt}.
Variable Duration_String : GoTime.Duration -> string.
Variable world : nat -> World.

Definition is_up (r : Cmd.result) : bool :=
  bool_decide (Status_ (res_result r) = StatusUp).

Lemma report_spec (rs : list Cmd.result) : forall allUp,
  report Duration_String rs allUp
  = (formatRow Duration_String <$> rs, allUp && forallb is_up rs).
Proof.
  induction rs as [|r rs IH]; intros allUp; simpl.
  - by rewrite andb_true_r.
  - rewrite IH. unfold is_up at 2.
    destruct (decide (Status_ (res_result r) = StatusUp)) as [Hup|Hdown].
    + by rewrite bool_decide_eq_true_2.
    + rewrite bool_decide_eq_false_2 by done. simpl. by rewrite andb_false_r.
Qed.


(** What the goroutine of service [i] stores: the result of the probe, or
    a Down result that names the failure of the factory. *)
Definition stored_for (i : nat) (sv : Service) (r : Cmd.result) : Prop :=
  Cmd.svc r = sv
  /\ (forall err, Checker.New sv = Err err ->
        Status_ (res_result r) = StatusDown
        /\ Checker.Error (res_result r) = "creating checker: " +:+ err
        /\ ServiceName (res_result r) = Name sv)
  /\ (forall c, Checker.New sv = Ok c -> Check (world i) c = Returns (res_result r)).

Lemma checkOne_total (i : nat) (sv : Service) :
  exists r, checkOne world i sv = Some r /\ stored_for i sv r.
Proof.
  unfold checkOne, stored_for.
  destruct (Checker.New sv) as [c|err] eqn:Hnew.
  - destruct (Check_total (world i) c (New_client_contract _ _ Hnew)) as [r Hr].
    rewrite Hr. eexists. split; [reflexivity|]. simpl. split; [done|]. split.
    + discriminate.
    + by intros c' [= <-].
  - eexists. split; [reflexivity|]. simpl. split; [done|]. split.
    + by intros err' [= <-].
    + discriminate.
Qed.

Lemma collect_total (svcs : list Service) :
  exists results,
    mapM id (collect world svcs) = Some results
    /\ length results = length svcs
    /\ forall i sv, svcs !! i = Some sv ->
         exists r, results !! i = Some r /\ stored_for i sv r.
Proof.
  unfold collect.
  assert (Hgen : forall (f : nat -> Service -> option Cmd.result) (P : nat -> Service -> Cmd.result -> Prop),
             (forall i sv, exists r, f i sv = Some r /\ P i sv r) ->
             forall l, exists results,
               mapM id (imap f l) = Some results
               /\ length results = length l
               /\ forall i sv, l !! i = Some sv -> exists r, results !! i = Some r /\ P i sv r).
  { intros f P Hf l. revert f P Hf.
    induction l as [|sv l IH]; intros f P Hf; simpl.
    - exists []. split_and!; try done.
    - destruct (Hf 0%nat sv) as (r & Hr & HP). unfold id at 1. rewrite Hr. simpl.
      destruct (IH (f ∘ S) (fun i => P (S i))) as (rs & Hrs & Hlen & Hlook).
      { intros i sv'. apply Hf. }
      unfold id in Hrs |- *. rewrite Hrs. simpl. exists (r :: rs). split_and!; [done|simpl; by rewrite Hlen|].
      intros [|i] sv'; simpl; [intros [= <-]; eauto|apply Hlook]. }
  apply Hgen. apply checkOne_total.
Qed.


End CmdProperties.

(** The command on a configuration with a reachable HTTP service and a
    service of a type the factory does not know. *)
Definition ftpService : Config.Service :=
  {| Config.Name := "files"; Config.Type_ := "ftp"; Config.Target := "ftp://example.com";
     Config.Interval := 30 * GoTime.Second; Config.Timeout := 5 * GoTime.Second;
     Config.ExpectedStatus := 0; Config.Headers := ∅ |}.

Definition configOf (svcs : list Config.Service) : Config.Config :=
  {| Config.Services := svcs;
     Config.Alerts :=
       {| Config.Webhook := {| Config.URL := EmptyString; Config.Cooldown := 0 |} |};
     Config.Server := {| Config.Address := ":8080" |};
     Config.Storage := {| Config.Path := "servprobe.db" |} |}.

(** A stand-in for Duration.String on whole milliseconds. *)
Definition millis (d : GoTime.Duration) : string :=
  NilZero.string_of_int (Z.to_int (d / GoTime.Millisecond)) +:+ "ms".

Example runChecks_all_up :
  @Cmd.runChecks plainFmt millis (fun _ => answering 200) (configOf [httpService])
  = Some ([Cmd.header; ["myapi"; "http"; "up"; "42ms"; EmptyString]], None).
Proof. vm_compute. reflexivity. Qed.

Example runChecks_unknown_type :
  @Cmd.runChecks plainFmt millis (fun _ => answering 200) (configOf [httpService; ftpService])
  = Some ([Cmd.header;
           ["myapi"; "http"; "up"; "42ms"; EmptyString];
           ["files"; "ftp"; "down"; "—";
            "creating checker: unknown checker type " +:+ dquote +:+ "ftp" +:+ dquote]],
          Some "one or more services are down").
Proof. vm_compute. reflexivity. Qed.

(** The factory at scheduler start, on the same two services: the task of
    the first is spawned, the second is logged and skipped. *)
Example Start_skips_ftp :
  let s := Scheduler.New (W := Sys) [ftpService; httpService] sysStore (@Checker.New plainFmt) in
  (Scheduler.Start s (healthy, [])).1
  = [(httpService, Checker.httpChecker httpService (5 * GoTime.Second))]
  /\ spawned (Scheduler.Start s (healthy, [])).2.2
     = [(httpService, Checker.httpChecker httpService (5 * GoTime.Second))].
Proof. vm_compute. split; reflexivity. Qed.

(** ** From the configuration file to the probes *)
Section LoadedProperties.
Import Config Checker.
Context `{GoFmt}.
Variable ReadFile : string -> res string.
Variable yamlUnmarshal : string -> res rawConfig.

Definition is_log {Chk : Type} (e : Scheduler.Event Chk) : bool :=
  match e with
  | Scheduler.EvLog _ _ _ => true
  | _ => false
  end.

(** [Start] when the factory succeeds for every service. *)
Lemma startLoop_all_ok {W Chk : Type} (s : Scheduler.Scheduler W Chk) :
  forall svcs w tr,
    Forall (fun svc => exists c, Scheduler.factory s svc = Ok c) svcs ->
    exists tasks evs,
      Scheduler.startLoop s svcs (w, tr) = (tasks, (w, tr ++ evs))
      /\ tasks.*1 = svcs /\ spawned evs = tasks
      /\ Forall (fun e => is_log e = false) evs.
Proof.
  induction svcs as [|svc rest IH]; intros w tr Hall; simpl.
  - exists [], []. by rewrite app_nil_r.
  - apply Forall_cons in Hall as [[c Hc] Hall]. rewrite Hc.
    unfold mbind, Scheduler.M_bind, mret, Scheduler.M_ret, Scheduler.emit. simpl.
    destruct (IH w ((tr ++ [Scheduler.EvWgAdd 1]) ++ [Scheduler.EvGo svc c]) Hall)
      as (tasks & evs & -> & Htasks & Hsp & Hlog).
    exists ((svc, c) :: tasks), ([Scheduler.EvWgAdd 1; Scheduler.EvGo svc c] ++ evs).
    rewrite <- !app_assoc. simpl. split_and!; try done.
    + f_equal. exact Htasks.
    + by rewrite Hsp.
    + by repeat constructor.
Qed.

(** X8.  Every service of a configuration that [Load] returns has a type
    the factory knows: [checker.New] makes a checker of that type for it.
    So the scheduler started on the configuration spawns one task for each
    service, in order, and logs no failure; and every row the command
    [check] prints is the result of a probe, none the failure of the
    factory. *)
Theorem Load_then_New (path : string) (cfg : Config) :
  Load ReadFile yamlUnmarshal path = Ok cfg ->
  Forall (fun svc => exists c, Checker.New svc = Ok c /\ variant c = Type_ svc)
    (Services cfg)
  /\ (forall (W : Type) (store : Scheduler.Store W) (w : W) tr,
        exists tasks evs,
          Scheduler.Start (Scheduler.New (Services cfg) store Checker.New) (w, tr)
          = (tasks, (w, tr ++ evs))
          /\ tasks.*1 = Services cfg /\ spawned evs = tasks
          /\ Forall (fun e => is_log e = false) evs)
  /\ (forall (Duration_String : GoTime.Duration -> string) (world : nat -> World),
        exists results err,
          Cmd.runChecks Duration_String world cfg
          = Some (Cmd.header :: (Cmd.formatRow Duration_String <$> results), err)
          /\ forall i sv, Services cfg !! i = Some sv ->
               exists c r,
                 Checker.New sv = Ok c /\ results !! i = Some r /\ Cmd.svc r = sv
                 /\ Check (world i) c = Returns (Cmd.res_result r)).
Proof.
  intros Hload.
  apply Load_inv in Hload as (data & raw & _ & _ & _ & _ & Hall & _).
  assert (Hnew : Forall (fun svc => exists c, Checker.New svc = Ok c /\ variant c = Type_ svc)
                   (Services cfg)).
  { clear -Hall. induction Hall as [|rs svc rss svcs Hone _ IH]; constructor; [|done].
    destruct Hone as (_ & _ & _ & Hty & _). by apply New_known. }
  split; [done|]. split.
  - intros W store w tr. unfold Scheduler.Start. simpl. apply startLoop_all_ok. simpl.
    eapply Forall_impl; [exact Hnew|]. intros svc (c & Hc & _). eauto.
  - intros Duration_String world. unfold Cmd.runChecks.
    destruct (collect_total world (Services cfg)) as (results & -> & Hlen & Hlook).
    rewrite report_spec. simpl. exists results. eexists. split; [reflexivity|].
    intros i sv Hi. destruct (Hlook i sv Hi) as (r & Hr & Hsv & _ & Hok).
    rewrite Forall_forall in Hnew.
    destruct (Hnew sv) as (c & Hc & _); [by eapply list_elem_of_lookup_2|].
    exists c, r. split_and!; try done. by apply Hok.
Qed.

End LoadedProperties.

Lemma Load_then_New_witness :
  exists cfg,
    @Config.Load plainFmt (fun _ => Ok EmptyString) (fun _ => Ok readmeRaw) "servprobe.yml"
      = Ok cfg
    /\ Forall (fun svc => exists c, @Checker.New plainFmt svc = Ok c
                                    /\ variant c = Config.Type_ svc)
         (Config.Services cfg)
    /\ variant <$> omap (fun svc => match @Checker.New plainFmt svc with
                                    | Ok c => Some c
                                    | Err _ => None
                                    end) (Config.Services cfg)
       = ["http"; "tcp"].
Proof.
  eexists. split; [vm_compute; reflexivity|]. split; [|vm_compute; reflexivity].
  apply (@Load_then_New plainFmt (fun _ => Ok EmptyString) (fun _ => Ok readmeRaw)
           "servprobe.yml").
  vm_compute. reflexivity.
Defined.

(** ** The queries of the store *)
Section StorageProperties.
Import Storage.
Context `{GoFmt}.
Variable time_Parse : string -> string -> res GoTime.Time.

(** The time a row holds: its text read as RFC3339Nano, or else as
    RFC3339. *)
Definition timeOf (r : Row) : option GoTime.Time :=
  match time_Parse RFC3339Nano (rowCheckedAt r) with
  | Ok t => Some t
  | Err _ =>
      match time_Parse RFC3339 (rowCheckedAt r) with
      | Ok t => Some t
      | Err _ => None
      end
  end.

(** The check a delivered row stands for, when it scans and its time can
    be read. *)
Definition readable (row : Row + ScanError) : option Check :=
  match row with
  | inl r =>
      t ← timeOf r;
      Some {| ID := rowID r; Service := rowService r; Status := rowStatus r;
              ResponseMs := rowResponseMs r; Error := rowError r; CheckedAt := t |}
  | inr _ => None
  end.

Lemma scanCheck_readable (row : Row + ScanError) :
  match readable row with
  | Some c => scanCheck time_Parse row = (Some c, None)
  | None => exists err, scanCheck time_Parse row = (None, Some err)
  end.
Proof.
  unfold readable, scanCheck, timeOf. destruct row as [r|err]; [|by eauto].
  destruct (time_Parse RFC3339Nano (rowCheckedAt r)) as [t|e1]; simpl; [done|].
  destruct (time_Parse RFC3339 (rowCheckedAt r)) as [t|e2]; simpl; [done|by eauto].
Qed.

Lemma scanLoop_readable (rows : list (Row + ScanError)) : forall acc,
  match mapM readable rows with
  | Some checks => scanLoop time_Parse acc rows = Ok (acc ++ checks)
  | None => exists err, scanLoop time_Parse acc rows = Err err /\ err <> EmptyString
  end.
Proof.
  induction rows as [|row rows IH]; intros acc; simpl.
  - by rewrite app_nil_r.
  - pose proof (scanCheck_readable row) as Hrow.
    destruct (readable row) as [c|]; simpl.
    + rewrite Hrow. simpl. specialize (IH (acc ++ [c])).
      destruct (mapM readable rows) as [checks|]; simpl.
      * by rewrite IH, <- app_assoc.
      * done.
    + destruct Hrow as [err ->]. eexists. split; [done|]. by apply append_nonempty_l.
Qed.

(** The two ways [scanChecks] ends. *)
Lemma scanChecks_cases (rows : Rows) :
  match mapM readable (delivered rows), rowsErr rows with
  | Some checks, None => scanChecks time_Parse rows = (checks, None)
  | _, _ => exists err, scanChecks time_Parse rows = ([], Some err) /\ err <> EmptyString
  end.
Proof.
  unfold scanChecks. pose proof (scanLoop_readable (delivered rows) []) as Hloop.
  destruct (mapM readable (delivered rows)) as [checks|].
  - rewrite Hloop. simpl. destruct (rowsErr rows) as [err|]; [|done].
    eexists. split; [done|]. by apply append_nonempty_l.
  - destruct Hloop as (err & -> & Hne). eauto.
Qed.

Section Queries.
Variable QueryAllLatest : res Rows.
Variable QueryCount : string -> res Z.
Variable QueryHistory : string -> Z -> Z -> res Rows.

(** X9.  [AllLatest] and [ServiceHistory] return all rows of their query
    or none.  They return checks without an error exactly when the query
    succeeds, every row it delivers scans and holds a time in one of the
    two layouts, and the iteration ends without error; the checks are then
    the rows in their order, each with the columns of its row, and
    [ServiceHistory] returns the count of its first query with them.  In
    every other case they return no check (and the count 0) with an error
    whose message is not empty. *)
Theorem AllLatest_all_or_nothing :
  (forall checks,
     AllLatest time_Parse QueryAllLatest = (checks, None)
     <-> exists rows,
           QueryAllLatest = Ok rows /\ rowsErr rows = None
           /\ Forall2 (fun row c => readable row = Some c) (delivered rows) checks)
  /\ (forall checks err,
        AllLatest time_Parse QueryAllLatest = (checks, Some err) ->
        checks = [] /\ err <> EmptyString)
  /\ (forall service limit offset checks total,
        ServiceHistory time_Parse QueryCount QueryHistory service limit offset
        = (checks, total, None)
        <-> exists rows,
              QueryCount service = Ok total
              /\ QueryHistory service limit offset = Ok rows /\ rowsErr rows = None
              /\ Forall2 (fun row c => readable row = Some c) (delivered rows) checks)
  /\ (forall service limit offset checks total err,
        ServiceHistory time_Parse QueryCount QueryHistory service limit offset
        = (checks, total, Some err) ->
        checks = [] /\ total = 0 /\ err <> EmptyString).
Proof.
  assert (Hscan : forall rows checks,
            scanChecks time_Parse rows = (checks, None)
            <-> rowsErr rows = None
                /\ Forall2 (fun row c => readable row = Some c) (delivered rows) checks).
  { intros rows checks. rewrite <- mapM_Some.
    pose proof (scanChecks_cases rows) as Hc.
    destruct (mapM readable (delivered rows)) as [cs|], (rowsErr rows) as [e|].
    - destruct Hc as (err & -> & _). split; [discriminate|]. intros [? _]. discriminate.
    - rewrite Hc. split; [by intros [= ->]|by intros [_ [= ->]]].
    - destruct Hc as (err & -> & _). split; [discriminate|]. intros [? _]. discriminate.
    - destruct Hc as (err & -> & _). split; [discriminate|]. intros [_ ?]. discriminate. }
  assert (Hfail : forall rows checks err,
            scanChecks time_Parse rows = (checks, Some err) ->
            checks = [] /\ err <> EmptyString).
  { intros rows checks err. pose proof (scanChecks_cases rows) as Hc.
    destruct (mapM readable (delivered rows)) as [cs|], (rowsErr rows) as [e|];
      try (destruct Hc as (err' & -> & Hne); by intros [= <- <-]).
    rewrite Hc. discriminate. }
  split_and!.
  - intros checks. unfold AllLatest. destruct QueryAllLatest as [rows|err].
    + rewrite Hscan. split.
      * intros [? ?]. by exists rows.
      * by intros (rows' & [= <-] & ? & ?).
    + split; [discriminate|]. by intros (rows' & ? & _).
  - intros checks err. unfold AllLatest. destruct QueryAllLatest as [rows|err0].
    + apply Hfail.
    + intros [= <- <-]. split; [done|]. by apply append_nonempty_l.
  - intros service limit offset checks total. unfold ServiceHistory.
    destruct (QueryCount service) as [n|err].
    2:{ split; [discriminate|]. by intros (rows' & ? & _). }
    destruct (QueryHistory service limit offset) as [rows|err].
    2:{ split; [discriminate|]. by intros (rows' & _ & ? & _). }
    destruct (scanChecks time_Parse rows) as [cs [e|]] eqn:Hs.
    + split; [discriminate|]. intros (rows' & _ & [= <-] & Hr & Hall).
      assert (scanChecks time_Parse rows = (checks, None)) by (by apply Hscan).
      congruence.
    + apply Hscan in Hs as [Hr Hall]. split.
      * intros [= <- <-]. by exists rows.
      * intros (rows' & [= <-] & [= <-] & _ & Hall').
        apply mapM_Some in Hall, Hall'. congruence.
  - intros service limit offset checks total err. unfold ServiceHistory.
    destruct (QueryCount service) as [n|err0].
    2:{ intros [= <- <- <-]. split_and!; try done; by apply append_nonempty_l. }
    destruct (QueryHistory service limit offset) as [rows|err0].
    2:{ intros [= <- <- <-]. split_and!; try done; by apply append_nonempty_l. }
    destruct (scanChecks time_Parse rows) as [cs [e|]] eqn:Hs; [|discriminate].
    apply Hfail in Hs as [_ Hne]. by intros [= <- <- <-].
Qed.

End Queries.

(** *** The uptime percentage *)

(** The quotient of two converted integers is the rounded quotient of the
    integers, up to a common factor. *)
Lemma div_of_Z (a b : Z) :
  0 <= a -> a < 2 ^ 51 -> 0 < b -> b < 2 ^ 51 ->
  exists K, 0 < K /\ F64.div (F64.of_Z a) (F64.of_Z b) = F64.round_q (a * K) (b * K).
Proof.
  intros Ha Ha' Hb Hb'.
  destruct (of_Z_exact a Ha Ha') as (ea & Hea & -> & _).
  destruct (of_Z_exact b ltac:(lia) Hb') as (eb & Heb & -> & _).
  set (Ea := 2 ^ (- ea)). set (Eb := 2 ^ (- eb)).
  assert (HEa : 1 <= Ea) by (by apply pow2_ge_1).
  assert (HEb : 1 <= Eb) by (by apply pow2_ge_1).
  unfold F64.div. destruct (ea - eb <? 0) eqn:Hneg.
  - apply Z.ltb_lt in Hneg. exists Ea. split; [lia|]. f_equal.
    unfold Ea, Eb. rewrite <- Z.mul_assoc, <- Z.pow_add_r by lia. do 2 f_equal. lia.
  - apply Z.ltb_ge in Hneg. exists Eb. split; [lia|]. f_equal.
    unfold Ea, Eb. rewrite <- Z.mul_assoc, <- Z.pow_add_r by lia. do 2 f_equal. lia.
Qed.

(** A ratio between 0 and 1 times 100, in float64. *)
Lemma percent_range (up total : Z) :
  0 <= up -> up <= total -> 0 < total -> total < 2 ^ 51 ->
  exists m e,
    F64.mul (F64.div (F64.of_Z up) (F64.of_Z total)) (F64.of_Z 100) = F64.Fin m e
    /\ e <= 0 /\ 0 <= m /\ m <= 100 * 2 ^ (- e)
    /\ (up = 0 -> m = 0) /\ (up = total -> m = 100 * 2 ^ (- e)).
Proof.
  intros Hup Hle Htot Hlt.
  destruct (div_of_Z up total Hup ltac:(lia) Htot Hlt) as (K & HK & ->).
  change (F64.of_Z 100) with (F64.Fin (100 * 2 ^ 46) (-46)).
  destruct (Z.eq_dec up 0) as [->|Hup0].
  { exists 0, 0. change (F64.round_q (0 * K) (total * K)) with (F64.Fin 0 0).
    split; [vm_compute; reflexivity|]. split_and!; try done. lia. }
  destruct (round_q_small (up * K) (total * K) ltac:(nia) ltac:(nia) ltac:(nia))
    as (e1 & He1 & _ & -> & _).
  set (E1 := 2 ^ (- e1)).
  assert (HE1 : 0 < E1) by (apply Z.pow_pos_nonneg; lia).
  pose proof (nearest_le (up * K * E1) E1 (total * K) ltac:(nia) ltac:(nia)) as Hq1.
  pose proof (nearest_nonneg (up * K * E1) (total * K) ltac:(nia) ltac:(nia)) as Hq1'.
  assert (Hq1eq : up = total -> nearest (up * K * E1) (total * K) = E1).
  { intros ->. replace (total * K * E1) with (E1 * (total * K)) by ring.
    apply nearest_exact. nia. }
  set (q1 := nearest (up * K * E1) (total * K)) in *.
  unfold F64.mul. destruct (e1 + -46 <? 0) eqn:Hneg; [|apply Z.ltb_ge in Hneg; lia].
  replace (2 ^ (- (e1 + -46))) with (E1 * 2 ^ 46)
    by (unfold E1; rewrite <- Z.pow_add_r by lia; f_equal; lia).
  destruct (Z.eq_dec q1 0) as [Hz|Hnz].
  { rewrite Hz. exists 0, 0. change (F64.round_q (0 * _) _) with (F64.Fin 0 0).
    split; [done|]. split_and!; try done.
    intros Heq. apply Hq1eq in Heq. lia. }
  destruct (round_q_small (q1 * (100 * 2 ^ 46)) (E1 * 2 ^ 46)
              ltac:(nia) ltac:(nia) ltac:(nia)) as (e2 & He2 & _ & -> & _).
  set (E2 := 2 ^ (- e2)).
  assert (HE2 : 0 < E2) by (apply Z.pow_pos_nonneg; lia).
  exists (nearest (q1 * (100 * 2 ^ 46) * E2) (E1 * 2 ^ 46)), e2.
  split; [done|]. split; [lia|]. split_and!.
  - apply nearest_nonneg; nia.
  - apply nearest_le; [nia|]. fold E2. nia.
  - done.
  - intros Heq. apply Hq1eq in Heq. rewrite Heq. fold E2.
    replace (E1 * (100 * 2 ^ 46) * E2) with (100 * E2 * (E1 * 2 ^ 46)) by ring.
    apply nearest_exact. nia.
Qed.

Section Uptime.
Variable QueryUptime : string -> Z -> res (Z * option Z).

(** X10.  [UptimePercent] returns 0 without an error when the service has
    no check.  When the database counts [up] checks that are up among
    [total], with [0 <= up <= total], the float64 it returns lies between 0
    and 100: it is exactly 0 when none is up and exactly 100 when all are;
    the division is never by zero.  When the query fails it returns 0 with
    an error. *)
Theorem UptimePercent_range (service : string) (last : Z) :
  let pct := UptimePercent QueryUptime service last in
  (forall err, QueryUptime service last = Err err ->
     pct.1 = F64.Fin 0 0 /\ pct.2 <> None)
  /\ (forall upCount, QueryUptime service last = Ok (0, upCount) ->
        pct = (F64.Fin 0 0, None))
  /\ (forall total upCount,
        QueryUptime service last = Ok (total, upCount) ->
        0 <= default 0 upCount -> default 0 upCount <= total ->
        0 < total -> total < 2 ^ 51 ->
        pct.2 = None
        /\ exists m e,
             pct.1 = F64.Fin m e /\ e <= 0 /\ 0 <= m /\ m <= 100 * 2 ^ (- e)
             /\ (default 0 upCount = 0 -> m = 0)
             /\ (default 0 upCount = total -> m = 100 * 2 ^ (- e))).
Proof.
  intros pct. subst pct. unfold UptimePercent. split_and!.
  - intros err ->. done.
  - intros upCount ->. done.
  - intros total upCount -> Hup Hle Htot Hlt.
    destruct (total =? 0) eqn:Hz; [apply Z.eqb_eq in Hz; lia|].
    split; [done|]. by apply percent_range.
Qed.

End Uptime.

End StorageProperties.

(** A service with 3 checks up among its last 4 is 75 percent up. *)
Example UptimePercent_three_of_four :
  @Storage.UptimePercent plainFmt (fun _ _ => Ok (4, Some 3)) "api" 100
  = (F64.Fin (75 * 2 ^ 46) (-46), None).
Proof. vm_compute. reflexivity. Qed.

Lemma UptimePercent_range_witness :
  let pct := @Storage.UptimePercent plainFmt (fun _ _ => Ok (4, Some 3)) "api" 100 in
  pct.2 = None
  /\ exists m e,
       pct.1 = F64.Fin m e /\ e <= 0 /\ 0 <= m /\ m <= 100 * 2 ^ (- e)
       /\ (default 0 (Some 3) = 0 -> m = 0)
       /\ (default 0 (Some 3) = 4 -> m = 100 * 2 ^ (- e)).
Proof.
  intros pct.
  apply (proj2 (proj2 (@UptimePercent_range plainFmt (fun _ _ => Ok (4, Some 3)) "api" 100))
           4 (Some 3)); (reflexivity || (simpl; lia)).
Defined.

(** ** The command status *)
Section StatusProperties.
Import Cmd.
Variable Duration_String : GoTime.Duration -> string.
Variable Local_Format : GoTime.Time -> string -> string.

(** A whole number of milliseconds is left as it is by
    [Round(time.Millisecond)]. *)
Lemma Round_whole_milliseconds (ms : Z) :
  0 < ms -> ms * GoTime.Millisecond < 2 ^ 63 ->
  Round (wrap64 (ms * GoTime.Millisecond)) GoTime.Millisecond = ms * GoTime.Millisecond.
Proof.
  change GoTime.Millisecond with 1000000. intros Hms Hlt.
  assert (Hw : wrap64 (ms * 1000000) = ms * 1000000).
  { unfold wrap64. rewrite Z.mod_small by lia. lia. }
  rewrite Hw. unfold Round.
  destruct (1000000 <=? 0) eqn:Hm; [apply Z.leb_le in Hm; lia|].
  rewrite Z.rem_mul by lia.
  destruct (ms * 1000000 <? 0) eqn:Hneg; [apply Z.ltb_lt in Hneg; lia|].
  replace (lessThanHalf 0 1000000) with true by (vm_compute; reflexivity). lia.
Qed.

(** X11.  The command [status] returns an error exactly when the store
    does, with the prefix "querying status: ", and then prints nothing; a
    stored status of down is no error.  With no stored check it prints one
    line of advice.  Otherwise it prints the header and one row for each
    check, in the order of the store, with the service, the status, the
    local time and the error of the check; the response cell is the dash
    when the stored milliseconds are zero or negative, and the stored
    milliseconds as a duration otherwise. *)
Theorem executeStatus_rows (checks : list Storage.Check) (err : option error) :
  let out := executeStatus Duration_String Local_Format (checks, err) in
  (out.2 = None <-> err = None)
  /\ (forall e, err = Some e -> out = ([], Some ("querying status: " +:+ e)))
  /\ (err = None -> checks = [] -> out.1 = [noHistory])
  /\ (err = None -> checks <> [] ->
      exists rows,
        out.1 = statusHeader :: rows /\ length rows = length checks
        /\ forall i c, checks !! i = Some c ->
             exists resp,
               rows !! i
               = Some [Storage.Service c; Storage.Status c; resp;
                       Local_Format (Storage.CheckedAt c) "2006-01-02 15:04:05";
                       Storage.Error c]
               /\ (Storage.ResponseMs c <= 0 -> resp = "—")
               /\ (0 < Storage.ResponseMs c ->
                   Storage.ResponseMs c * GoTime.Millisecond < 2 ^ 63 ->
                   resp = Duration_String (Storage.ResponseMs c * GoTime.Millisecond))).
Proof.
  intros out. subst out. unfold executeStatus. destruct err as [e|]; simpl.
  { split_and!; try done. by intros e' [= <-]. }
  destruct checks as [|c0 rest]; [simpl; by split_and!|].
  change ((length (c0 :: rest) =? 0)%nat) with false. cbv iota. cbn [fst snd].
  split; [done|]. split; [done|]. split; [done|]. intros _ _.
  exists (statusRow Duration_String Local_Format <$> (c0 :: rest)).
  split; [done|]. split; [by rewrite length_fmap|].
  intros i c Hi. rewrite list_lookup_fmap, Hi. simpl. unfold statusRow.
  eexists. split; [reflexivity|]. split.
  - intros Hle. by rewrite (proj2 (Z.ltb_ge 0 _)).
  - intros Hpos Hlt. rewrite (proj2 (Z.ltb_lt 0 _)) by done.
    by rewrite Round_whole_milliseconds.
Qed.

End StatusProperties.

(** The case of the test suite: one service up, one down, and no error. *)
Example executeStatus_one_down :
  Cmd.executeStatus millis (fun _ _ => "2026-01-02 15:04:05")
    ([ {| Storage.ID := 7; Storage.Service := "api"; Storage.Status := "up";
          Storage.ResponseMs := 42; Storage.Error := EmptyString; Storage.CheckedAt := 0 |};
       {| Storage.ID := 8; Storage.Service := "db"; Storage.Status := "down";
          Storage.ResponseMs := 0; Storage.Error := "connection refused";
          Storage.CheckedAt := 0 |} ], None)
  = ([Cmd.statusHeader;
      ["api"; "up"; "42ms"; "2026-01-02 15:04:05"; EmptyString];
      ["db"; "down"; "—"; "2026-01-02 15:04:05"; "connection refused"]],
     None).
Proof. vm_compute. reflexivity. Qed.

(** ** The JSON API *)
Section ServerProperties.
Import Server.
Variable Duration_String : GoTime.Duration -> string.

(** An index built by a loop of assignments [idx[key x] = x] holds a key
    exactly when an element has it, and holds an element with that key. *)
Lemma index_lookup {A : Type} (key : A -> string) (l : list A) (k : string) :
  forall m : gmap string A,
    let idx := foldl (fun m x => <[key x := x]> m) m l in
    (idx !! k = None <-> m !! k = None /\ k ∉ key <$> l)
    /\ (forall x, idx !! k = Some x ->
          (x ∈ l /\ key x = k) \/ (m !! k = Some x /\ k ∉ key <$> l)).
Proof.
  induction l as [|y l IH]; intros m; simpl.
  - split.
    + split; [intros ?; split; [done|apply not_elem_of_nil]|by intros [? _]].
    + intros x Hx. right. split; [done|apply not_elem_of_nil].
  - destruct (IH (<[key y := y]> m)) as [IHn IHs]. split.
    + rewrite IHn, not_elem_of_cons. destruct (decide (key y = k)) as [<-|Hne].
      * rewrite lookup_insert_eq. split; [by intros [? _]|by intros [_ [? _]]].
      * rewrite lookup_insert_ne by done. split; [by intros [? ?]|by intros [? [_ ?]]].
    + intros x Hx. destruct (IHs x Hx) as [[Hin Hk]|[Hm Hnin]].
      * left. split; [by right|done].
      * destruct (decide (key y = k)) as [<-|Hne].
        -- rewrite lookup_insert_eq in Hm. injection Hm as <-. left. split; [by left|done].
        -- rewrite lookup_insert_ne in Hm by done. right. split; [done|].
           rewrite not_elem_of_cons. done.
Qed.

Lemma serviceIndex_lookup (s : Server) (name : string) :
  (serviceIndex s !! name = None <-> name ∉ Config.Name <$> services s)
  /\ (forall svc, serviceIndex s !! name = Some svc ->
        svc ∈ services s /\ Config.Name svc = name).
Proof.
  unfold serviceIndex.
  destruct (index_lookup Config.Name (services s) name ∅) as [Hn Hs]. split.
  - rewrite Hn, lookup_empty. split; [by intros [_ ?]|done].
  - intros svc Hsvc. destruct (Hs svc Hsvc) as [?|[Hm _]]; [done|].
    by rewrite lookup_empty in Hm.
Qed.






(** The checks of the store by service, as [handleListServices] indexes
    them. *)
Definition byService (latest : list Storage.Check) : gmap string Storage.Check :=
  foldl (fun m c => <[Storage.Service c := c]> m) ∅ latest.

Lemma byService_lookup (latest : list Storage.Check) (name : string) :
  (byService latest !! name = None <-> name ∉ Storage.Service <$> latest)
  /\ (forall c, byService latest !! name = Some c ->
        c ∈ latest /\ Storage.Service c = name).
Proof.
  unfold byService.
  destruct (index_lookup Storage.Service latest name ∅) as [Hn Hs]. split.
  - rewrite Hn, lookup_empty. split; [by intros [_ ?]|done].
  - intros c Hc. destruct (Hs c Hc) as [?|[Hm _]]; [done|].
    by rewrite lookup_empty in Hm.
Qed.

(** What the list shows of a service, given the latest checks of the
    store. *)
Definition shown (s : Server) (latest : list Storage.Check) (svc : Config.Service)
  (d : serviceDetail) : Prop :=
  Name d = Config.Name svc /\ Type_ d = Config.Type_ svc /\ Target d = Config.Target svc
  /\ Interval d = Duration_String (Config.Interval svc)
  /\ (Config.Name svc ∉ Storage.Service <$> latest ->
      Status d = "unknown" /\ ResponseMs d = 0 /\ LastChecked d = None
      /\ UptimePct d = F64.Fin 0 0)
  /\ (Config.Name svc ∈ Storage.Service <$> latest ->
      exists c, c ∈ latest /\ Storage.Service c = Config.Name svc
        /\ Status d = Storage.Status c /\ ResponseMs d = Storage.ResponseMs c
        /\ LastChecked d = Some (Storage.CheckedAt c)
        /\ UptimePct d = (UptimePercent (store s) (Config.Name svc) 100).1).

Lemma listDetail_shown (s : Server) (latest : list Storage.Check) (svc : Config.Service) :
  shown s latest svc (listDetail Duration_String s (byService latest) svc).2
  /\ (listDetail Duration_String s (byService latest) svc).1
     = (if decide (Config.Name svc ∈ Storage.Service <$> latest)
        then [QUptimePercent (Config.Name svc) 100] else []).
Proof.
  unfold listDetail, shown.
  destruct (byService_lookup latest (Config.Name svc)) as [Hnone Hsome].
  destruct (byService latest !! Config.Name svc) as [c|]; simpl.
  - destruct (Hsome c eq_refl) as [Hin Hname].
    assert (Hel : Config.Name svc ∈ Storage.Service <$> latest).
    { rewrite <- Hname. by apply list_elem_of_fmap_2. }
    rewrite decide_True by done. split_and!; try done. intros _. by exists c.
  - assert (Hnel : Config.Name svc ∉ Storage.Service <$> latest) by (by apply Hnone).
    rewrite decide_False by done. split_and!; done.
Qed.

(** X13.  The list of services.  When the store cannot give the latest
    checks the answer is 500 with the message "internal error".  Otherwise
    it is 200 with one detail for each configured service, in the order of
    the configuration, carrying the name, type, target and interval of the
    service: a service without a stored check is shown with the status
    "unknown", no time and no uptime, and the store is not asked for its
    uptime; a service with a stored check is shown with the status,
    response time and time of a stored check of that service and with the
    uptime over its last 100 checks, which is taken as 0 when the store
    fails to compute it.  Checks of services that are not configured are
    not shown. *)
Theorem handleListServices_details (s : Server) :
  let r := handleListServices Duration_String s in
  match AllLatest (store s) with
  | (_, Some err) =>
      status r = StatusInternalServerError
      /\ body r = {| Data := None; Error := "internal error" |}
      /\ queries r = [QAllLatest]
  | (latest, None) =>
      status r = StatusOK /\ logged r = []
      /\ (exists details,
            body r = {| Data := Some (Details details); Error := EmptyString |}
            /\ Forall2 (shown s latest) (services s) details)
      /\ queries r
         = QAllLatest
           :: ((fun svc => QUptimePercent (Config.Name svc) 100)
               <$> filter (fun svc => Config.Name svc ∈ Storage.Service <$> latest)
                     (services s))
  end.
Proof.
  intros r. subst r. unfold handleListServices.
  destruct (AllLatest (store s)) as [latest [err|]]; simpl; [done|].
  fold (byService latest). split; [done|]. split; [done|]. split.
  - eexists. split; [reflexivity|].
    induction (services s) as [|svc svcs IH]; simpl; constructor; [|done].
    apply listDetail_shown.
  - f_equal. induction (services s) as [|svc svcs IH]; [done|].
    rewrite !fmap_cons. cbn [concat].
    rewrite (proj2 (listDetail_shown s latest svc)), IH, filter_cons.
    by case_decide.
Qed.

(** X14.  The detail of one service.  The answer is 404 exactly when no
    configured service has the name, and then the store is not queried.
    Otherwise the store is asked for the latest check, then for the 10
    most recent checks, then for the uptime over the last 100; a failure of
    the first or of the second ends the request with 500 and the message
    "internal error", and a failure of the third is ignored.  The answer
    200 describes a configured service of that name, with the status
    "unknown" when the store has no latest check and with the status,
    response time and time of the latest check otherwise, together with
    the recent checks as the store returned them. *)
Theorem handleGetService_detail (s : Server) (name : string) :
  let r := handleGetService Duration_String s name in
  (status r = StatusNotFound <-> name ∉ Config.Name <$> services s)
  /\ (status r = StatusNotFound -> queries r = [] /\ Data (body r) = None)
  /\ (name ∈ Config.Name <$> services s ->
      match LatestCheck (store s) name, ServiceHistory (store s) name 10 0 with
      | (_, Some _), _ =>
          status r = StatusInternalServerError
          /\ body r = {| Data := None; Error := "internal error" |}
          /\ queries r = [QLatestCheck name]
      | (_, None), (_, _, Some _) =>
          status r = StatusInternalServerError
          /\ body r = {| Data := None; Error := "internal error" |}
          /\ queries r = [QLatestCheck name; QServiceHistory name 10 0]
      | (latest, None), (history, _, None) =>
          status r = StatusOK
          /\ queries r
             = [QLatestCheck name; QServiceHistory name 10 0; QUptimePercent name 100]
          /\ exists svc d,
               body r = {| Data := Some (Detail d history); Error := EmptyString |}
               /\ svc ∈ services s /\ Config.Name svc = name
               /\ Name d = name /\ Type_ d = Config.Type_ svc
               /\ Target d = Config.Target svc
               /\ Interval d = Duration_String (Config.Interval svc)
               /\ UptimePct d = (UptimePercent (store s) name 100).1
               /\ match latest with
                  | Some c =>
                      Status d = Storage.Status c /\ ResponseMs d = Storage.ResponseMs c
                      /\ LastChecked d = Some (Storage.CheckedAt c)
                  | None => Status d = "unknown" /\ ResponseMs d = 0 /\ LastChecked d = None
                  end
      end).
Proof.
  intros r. subst r. unfold handleGetService.
  destruct (serviceIndex_lookup s name) as [Hnone Hsome].
  destruct (serviceIndex s !! name) as [svc|] eqn:Hidx.
  2:{ assert (Hout : name ∉ Config.Name <$> services s) by (by apply Hnone).
      simpl. split; [done|]. split; [done|]. intros Hin. by destruct Hout. }
  destruct (Hsome svc eq_refl) as [Hel Hname].
  assert (Hin : name ∈ Config.Name <$> services s).
  { rewrite <- Hname. by apply list_elem_of_fmap_2. }
  assert (Hcode : forall q l, status (writeError q l StatusInternalServerError "internal error")
                              <> StatusNotFound) by (intros; discriminate).
  destruct (LatestCheck (store s) name) as [latest [err|]]; simpl.
  { split; [split; [discriminate|done]|]. split; [discriminate|]. done. }
  destruct (ServiceHistory (store s) name 10 0) as [[history total] [err|]]; simpl.
  { split; [split; [discriminate|done]|]. split; [discriminate|]. done. }
  split; [split; [discriminate|done]|]. split; [discriminate|]. intros _.
  split; [done|]. split; [done|].
  exists svc. destruct latest as [c|]; eexists; (split; [reflexivity|]); simpl;
    split_and!; done.
Qed.

End ServerProperties.

(** *** The API on the cases of its test suite *)

Definition apiCheck (service status : string) : Storage.Check :=
  {| Storage.ID := 1; Storage.Service := service; Storage.Status := status;
     Storage.ResponseMs := 42; Storage.Error := EmptyString; Storage.CheckedAt := 0 |}.

(** A store that holds one check of the service [myapi] and fails to
    compute uptimes. *)
Definition apiStore : Server.ServerStore :=
  {| Server.AllLatest := ([apiCheck "myapi" "up"; apiCheck "retired" "down"], None);
     Server.LatestCheck := fun name =>
       (if decide (name = "myapi") then Some (apiCheck "myapi" "up") else None, None);
     Server.ServiceHistory := fun name limit offset =>
       (if decide (name = "myapi") then [apiCheck "myapi" "up"] else [], 1, None);
     Server.UptimePercent := fun _ _ => (F64.Fin 0 0, Some "database is locked") |}.

Definition apiServer : Server.Server := Server.New apiStore [httpService; pingService].

Example history_default_page :
  Server.queries (Server.handleGetServiceHistory apiServer "myapi" "" "")
  = [Server.QServiceHistory "myapi" 50 0].
Proof. vm_compute. reflexivity. Qed.

Example history_limit_clamped :
  Server.queries (Server.handleGetServiceHistory apiServer "myapi" "5000" "+20")
  = [Server.QServiceHistory "myapi" 1000 20].
Proof. vm_compute. reflexivity. Qed.

Example history_bad_parameters :
  Server.status (Server.handleGetServiceHistory apiServer "myapi" "-1" "") = 400
  /\ Server.status (Server.handleGetServiceHistory apiServer "myapi" "ten" "") = 400
  /\ Server.status (Server.handleGetServiceHistory apiServer "myapi" "10" "1.5") = 400
  /\ Server.status (Server.handleGetServiceHistory apiServer "myapi" "9223372036854775808" "")
     = 400
  /\ Server.status (Server.handleGetServiceHistory apiServer "nonexistent" "10" "0") = 404.
Proof. vm_compute. repeat split. Qed.

Example list_shows_unknown :
  Server.Status <$>
    match Server.Data (Server.body (Server.handleListServices millis apiServer)) with
    | Some (Server.Details details) => details
    | _ => []
    end
  = ["up"; "unknown"]
  /\ Server.queries (Server.handleListServices millis apiServer)
     = [Server.QAllLatest; Server.QUptimePercent "myapi" 100].
Proof. vm_compute. split; reflexivity. Qed.
